(** * Run-history persistence layer of the cover localizer ([src/lib/db.ts])

    A shallow embedding of the hybrid store of [db.ts]: run metadata in an
    in-memory SQLite table ([runs]) that is snapshotted to IndexedDB after
    every mutation, and image payloads in the IndexedDB object store
    [images], keyed either by a truncated SHA-256 content digest
    (deduplicated inputs) or by a timestamp plus random suffix (outputs).

    Modelling conventions.
    - A JavaScript string is a [string] holding the bytes of its UTF-8
      encoding, so [TextEncoder.encode] is the list of its bytes.  A
      string with a lone surrogate has no such encoding and is not
      represented.  The table keeps the bytes it is given; the SQL binding
      of the program returns a text unchanged only when it is well-formed
      and holds no NUL character, so every statement that a stored text
      column equals the text passed in is made under [wellFormedRun].
    - A JavaScript [number] stored in a nullable numeric column is a
      rational ([Q], a finite double); row ids are [Z].  [NaN] and the
      infinities, which the table would not return as they went in, are
      not represented: the numbers of a [RunInsert] are finite or absent.
    - The database file is typed: a snapshot is the rows of [runs] and the
      AUTOINCREMENT counter, so a corrupt snapshot is not representable.
    - The [async] functions are run to completion one after the other.  The
      branches of a [Promise.all] are sequenced left to right and all run
      to their end, also when one of them rejects (they touch different
      keys of the object store, and a started write is never cancelled).
    - Everything the code does not control is read from an oracle [Env],
      indexed by a counter kept in the state: whether an IndexedDB request
      errors, whether loading the SQL engine fails, the value of
      [Date.now()], and the characters taken from [Math.random()].

    Besides the store the file embeds what surrounds it: the seeding of
    the sample run ([seedSampleDataIfEmpty]), the taking apart of data URLs
    that [generateCover] relies on ([dataUrlToParts] of [lib/utils.ts]),
    and the bounded debug log ([appendLog], [summarizeText] of
    [lib/debugLog.ts]).  There a string is measured in UTF-16 code units,
    and is modelled as the list of them.

    The file has three parts: the embedding of the code, the vocabulary in
    which the specification's claims are stated, and the proofs. *)

From Stdlib Require Import ZArith List String Ascii Lia Permutation Sorted.
From Stdlib Require QArith_base.
From stdpp Require Import gmap strings pretty list fin_maps.

Local Open Scope Z_scope.

(** ** SHA-256 ([crypto.subtle.digest("SHA-256", _)]) *)

Module Sha256.

Definition w32 (x : Z) : Z := x mod 4294967296.
Definition add32 (a b : Z) : Z := w32 (a + b).
Definition not32 (x : Z) : Z := Z.lxor x 4294967295.
Definition rotr (n x : Z) : Z :=
  Z.lor (Z.shiftr x n) (w32 (Z.shiftl x (32 - n))).
Definition shr (n x : Z) : Z := Z.shiftr x n.

Definition Ch (x y z : Z) : Z := Z.lxor (Z.land x y) (Z.land (not32 x) z).
Definition Maj (x y z : Z) : Z :=
  Z.lxor (Z.lxor (Z.land x y) (Z.land x z)) (Z.land y z).
Definition Sigma0 (x : Z) : Z := Z.lxor (Z.lxor (rotr 2 x) (rotr 13 x)) (rotr 22 x).
Definition Sigma1 (x : Z) : Z := Z.lxor (Z.lxor (rotr 6 x) (rotr 11 x)) (rotr 25 x).
Definition sigma0 (x : Z) : Z := Z.lxor (Z.lxor (rotr 7 x) (rotr 18 x)) (shr 3 x).
Definition sigma1 (x : Z) : Z := Z.lxor (Z.lxor (rotr 17 x) (rotr 19 x)) (shr 10 x).

(** The round constants and the initial hash value are the first 32 bits
    of the fractional parts of the cube roots of the first sixty-four
    primes, and of the square roots of the first eight. *)
Definition isPrime (n : Z) : bool :=
  forallb (fun d => negb (n mod (Z.of_nat d) =? 0)) (List.seq 2 (Z.to_nat n - 2)).

Definition primes64 : list Z :=
  Eval vm_compute in List.filter isPrime (map Z.of_nat (List.seq 2 310)).

(** Integer cube root, one bit at a time from bit 35 down. *)
Definition icbrt (n : Z) : Z :=
  fold_left (fun r b => let c := r + 2 ^ Z.of_nat b in
                        if c * c * c <=? n then c else r)
            (rev (List.seq 0 36)) 0.

Definition K : list Z :=
  Eval vm_compute in map (fun p => w32 (icbrt (p * 2 ^ 96))) primes64.

Definition H0 : list Z :=
  Eval vm_compute in map (fun p => w32 (Z.sqrt (p * 2 ^ 64))) (firstn 8 primes64).

(** Message padding: a [0x80] byte, zeros up to 56 modulo 64, then the bit
    length as a big-endian 64-bit integer. *)
Definition be_bytes (n : nat) (x : Z) : list Z :=
  map (fun i => Z.shiftr x (8 * Z.of_nat (n - 1 - i)) mod 256) (seq 0 n).

Definition pad (msg : list Z) : list Z :=
  let len := Z.of_nat (length msg) in
  msg ++ [128] ++ repeat 0 (Z.to_nat ((55 - len) mod 64)) ++ be_bytes 8 (8 * len).

Fixpoint words_of_bytes (bs : list Z) : list Z :=
  match bs with
  | b0 :: b1 :: b2 :: b3 :: rest =>
      (((b0 * 256 + b1) * 256 + b2) * 256 + b3) :: words_of_bytes rest
  | _ => []
  end.

(** The message schedule: sixteen block words extended to sixty-four. *)
Fixpoint schedule (n : nat) (w : list Z) : list Z :=
  match n with
  | O => w
  | S n' =>
      let t := length w in
      let x :=
        add32 (add32 (sigma1 (nth (t - 2) w 0)) (nth (t - 7) w 0))
              (add32 (sigma0 (nth (t - 15) w 0)) (nth (t - 16) w 0)) in
      schedule n' (w ++ [x])
  end.

Definition round (st : list Z) (kw : Z * Z) : list Z :=
  match st with
  | [a; b; c; d; e; f; g; h] =>
      let t1 := add32 (add32 (add32 h (Sigma1 e)) (add32 (Ch e f g) (fst kw))) (snd kw) in
      let t2 := add32 (Sigma0 a) (Maj a b c) in
      [add32 t1 t2; a; b; c; add32 d t1; e; f; g]
  | _ => st
  end.

Definition zip_add32 (xs ys : list Z) : list Z :=
  map (fun p => add32 (fst p) (snd p)) (combine xs ys).

Definition compress (h : list Z) (block : list Z) : list Z :=
  zip_add32 h (fold_left round (combine K (schedule 48 block)) h).

Fixpoint blocks (fuel : nat) (ws : list Z) : list (list Z) :=
  match fuel with
  | O => []
  | S fuel' =>
      match ws with
      | [] => []
      | _ => firstn 16 ws :: blocks fuel' (skipn 16 ws)
      end
  end.

Definition digest (msg : list Z) : list Z :=
  let ws := words_of_bytes (pad msg) in
  flat_map (be_bytes 4) (fold_left compress (blocks (length ws) ws) H0).

End Sha256.

(** ** Content keys: [hashImage] *)

(** [new TextEncoder().encode(data)]. *)
Definition encode (data : string) : list Z :=
  map (fun c => Z.of_N (N_of_ascii c)) (list_ascii_of_string data).

Definition hexDigit (d : Z) : ascii :=
  match d with
  | 0 => "0" | 1 => "1" | 2 => "2" | 3 => "3" | 4 => "4" | 5 => "5"
  | 6 => "6" | 7 => "7" | 8 => "8" | 9 => "9" | 10 => "a" | 11 => "b"
  | 12 => "c" | 13 => "d" | 14 => "e" | _ => "f"
  end%char.

(** [b.toString(16)] for a byte [b]. *)
Definition toString16 (b : Z) : string :=
  if b <? 16 then String (hexDigit b) EmptyString
  else String (hexDigit (b / 16)) (String (hexDigit (b mod 16)) EmptyString).

(** [s.padStart(2, "0")]. *)
Definition padStart2 (s : string) : string :=
  match s with
  | EmptyString => "00"
  | String c EmptyString => String "0"%char s
  | _ => s
  end.

(** [s.slice(0, n)]. *)
Fixpoint slice0 (n : nat) (s : string) : string :=
  match n, s with
  | S n', String c s' => String c (slice0 n' s')
  | _, _ => EmptyString
  end.

Fixpoint join (l : list string) : string :=
  match l with
  | [] => EmptyString
  | s :: l' => s +:+ join l'
  end.

Definition hashHex (data : string) : string :=
  join (map (fun b => padStart2 (toString16 b)) (Sha256.digest (encode data))).

Definition hashImage (data : string) : string :=
  "img_" +:+ slice0 16 (hashHex data).

(** ** Data model *)

Abbreviation number := QArith_base.Q.

(** A row of the table [runs], as [getRuns] and [getRunById] return it. *)
Record RunRecord := mkRunRecord {
  id : Z;
  createdAt : string;
  modelId : string;
  modelLabel : string;
  promptTemplate : string;
  compiledPrompt : string;
  newTitle : string;
  inputImageId : string;
  outputImageId : string;
  servedBy : option string;
  route : option string;
  promptTokens : option number;
  completionTokens : option number;
  totalTokens : option number;
  cost : option number;
  durationMs : option number;
  humanComment : option string
}.

(** The argument of [saveRun]: the row without its id, the two images
    given by value. *)
Record RunInsert := mkRunInsert {
  ri_createdAt : string;
  ri_modelId : string;
  ri_modelLabel : string;
  ri_promptTemplate : string;
  ri_compiledPrompt : string;
  ri_newTitle : string;
  ri_inputImage : string;
  ri_outputImage : string;
  ri_servedBy : option string;
  ri_route : option string;
  ri_promptTokens : option number;
  ri_completionTokens : option number;
  ri_totalTokens : option number;
  ri_cost : option number;
  ri_durationMs : option number;
  ri_humanComment : option string
}.

(** The in-memory SQLite database: the rows of [runs] in rowid order, the
    AUTOINCREMENT high-water mark ([sqlite_sequence]) and the connection's
    [last_insert_rowid()]. *)
Record Database := mkDatabase {
  rows : list RunRecord;
  sqlite_sequence : Z;
  last_insert_rowid : Z
}.

(** [db.export()]: the serialized database file; connection state is not
    part of it. *)
Record Snapshot := mkSnapshot {
  snap_rows : list RunRecord;
  snap_seq : Z
}.

Definition export (d : Database) : Snapshot :=
  {| snap_rows := rows d; snap_seq := sqlite_sequence d |}.

(** [new SQL.Database(existingData)] and [new SQL.Database()] followed by
    [CREATE TABLE IF NOT EXISTS runs]. *)
Definition openSnapshot (s : Snapshot) : Database :=
  {| rows := snap_rows s; sqlite_sequence := snap_seq s; last_insert_rowid := 0 |}.

Definition emptyDatabase : Database :=
  {| rows := []; sqlite_sequence := 0; last_insert_rowid := 0 |}.

(** *** The SQL statements of [db.ts] *)

Definition maxId (l : list RunRecord) : Z :=
  fold_right (fun r m => Z.max (id r) m) 0 l.

(** [INSERT INTO runs (...) VALUES (...)] with an AUTOINCREMENT key: the
    new rowid is one more than the largest rowid the table ever held.
    The columns are copied as they are given.  That is what the binding
    does to finite numbers and to well-formed text without NUL
    ([wellFormedRun] below); other text it would alter, and what is
    proved of the stored text is proved for well-formed text only. *)
Definition sqlInsert (run : RunInsert) (inputId outputId : string)
    (d : Database) : Database :=
  let newId := Z.max (sqlite_sequence d) (maxId (rows d)) + 1 in
  {| rows := rows d ++
       [ {| id := newId;
            createdAt := ri_createdAt run;
            modelId := ri_modelId run;
            modelLabel := ri_modelLabel run;
            promptTemplate := ri_promptTemplate run;
            compiledPrompt := ri_compiledPrompt run;
            newTitle := ri_newTitle run;
            inputImageId := inputId;
            outputImageId := outputId;
            servedBy := ri_servedBy run;
            route := ri_route run;
            promptTokens := ri_promptTokens run;
            completionTokens := ri_completionTokens run;
            totalTokens := ri_totalTokens run;
            cost := ri_cost run;
            durationMs := ri_durationMs run;
            humanComment := ri_humanComment run |} ];
     sqlite_sequence := newId;
     last_insert_rowid := newId |}.

(** [SELECT ... FROM runs WHERE id = ?], first row of the result. *)
Definition sqlSelectById (i : Z) (d : Database) : option RunRecord :=
  find (fun r => id r =? i) (rows d).

(** [SELECT COUNT( * ) FROM runs WHERE input_image_id = ? AND id != ?]. *)
Definition sqlCountOtherInput (key : string) (i : Z) (d : Database) : Z :=
  Z.of_nat (length (List.filter
    (fun r => bool_decide (inputImageId r = key) && negb (id r =? i)) (rows d))).

(** [DELETE FROM runs WHERE id = ?]. *)
Definition sqlDelete (i : Z) (d : Database) : Database :=
  {| rows := List.filter (fun r => negb (id r =? i)) (rows d);
     sqlite_sequence := sqlite_sequence d;
     last_insert_rowid := last_insert_rowid d |}.

Definition setHumanComment (comment : string) (r : RunRecord) : RunRecord :=
  {| id := id r;
     createdAt := createdAt r;
     modelId := modelId r;
     modelLabel := modelLabel r;
     promptTemplate := promptTemplate r;
     compiledPrompt := compiledPrompt r;
     newTitle := newTitle r;
     inputImageId := inputImageId r;
     outputImageId := outputImageId r;
     servedBy := servedBy r;
     route := route r;
     promptTokens := promptTokens r;
     completionTokens := completionTokens r;
     totalTokens := totalTokens r;
     cost := cost r;
     durationMs := durationMs r;
     humanComment := Some comment |}.

(** [UPDATE runs SET human_comment = ? WHERE id = ?]. *)
Definition sqlUpdateComment (comment : string) (i : Z) (d : Database) : Database :=
  {| rows := map (fun r => if id r =? i then setHumanComment comment r else r) (rows d);
     sqlite_sequence := sqlite_sequence d;
     last_insert_rowid := last_insert_rowid d |}.

(** [SELECT ... FROM runs ORDER BY created_at DESC].  The TEXT column is
    compared bytewise ([String.ltb]).  The statement names no second sort
    key, so SQL leaves the order of rows with equal [created_at] open; the
    engine sorts the rows of the table scan (rowid ascending) with a merge
    sort that keeps equal keys in scan order, and so does this insertion
    sort. *)
Fixpoint insertDesc (r : RunRecord) (l : list RunRecord) : list RunRecord :=
  match l with
  | [] => [r]
  | x :: l' =>
      if String.ltb (createdAt r) (createdAt x) then x :: insertDesc r l'
      else r :: x :: l'
  end.

Definition sqlSelectAllOrdered (d : Database) : list RunRecord :=
  fold_right insertDesc [] (rows d).

(** ** The environment and the state *)

Inductive Error :=
  | IDBRequestError   (* an IndexedDB request or transaction fired [onerror] *)
  | SqlJsLoadError    (* [initSqlJs] rejected *)
  | NullDatabase.     (* a statement run on the handle while [db] is null *)

Inductive Result (A : Type) :=
  | Ok (a : A)
  | Err (e : Error).
Arguments Ok {A} a.
Arguments Err {A} e.

(** What the page's environment answers at the [n]-th consultation:
    whether an IndexedDB request fires [onerror], whether [initSqlJs]
    rejects, the milliseconds of [Date.now()], and the characters
    [Math.random().toString(36).slice(2, 9)]. *)
Record Env := mkEnv {
  idbFails : nat -> bool;
  sqlJsFails : nat -> bool;
  dateNow : nat -> N;
  mathRandom36 : nat -> string
}.

(** The module-level variables [db] and [dbInitPromise], the two object
    stores of the IndexedDB database [CoverLocalizerDB], and the oracle
    counter. *)
Record World := mkWorld {
  images : gmap string string;
  sqlite : option Snapshot;
  db : option Database;
  dbInitPromise : option (Result unit);
  clock : nat
}.

Definition initialWorld : World :=
  {| images := ∅; sqlite := None; db := None; dbInitPromise := None; clock := 0 |}.

Definition setImages (f : gmap string string -> gmap string string) (w : World) : World :=
  {| images := f (images w); sqlite := sqlite w; db := db w;
     dbInitPromise := dbInitPromise w; clock := clock w |}.
Definition setSqlite (s : option Snapshot) (w : World) : World :=
  {| images := images w; sqlite := s; db := db w;
     dbInitPromise := dbInitPromise w; clock := clock w |}.
Definition setDb (d : option Database) (w : World) : World :=
  {| images := images w; sqlite := sqlite w; db := d;
     dbInitPromise := dbInitPromise w; clock := clock w |}.
Definition setDbInitPromise (p : option (Result unit)) (w : World) : World :=
  {| images := images w; sqlite := sqlite w; db := db w;
     dbInitPromise := p; clock := clock w |}.
Definition tick (w : World) : World :=
  {| images := images w; sqlite := sqlite w; db := db w;
     dbInitPromise := dbInitPromise w; clock := S (clock w) |}.

(** Computations: a promise that settles with [Ok] or [Err], and the state
    it leaves. *)
Definition M (A : Type) : Type := World -> Result A * World.

Definition ret {A} (a : A) : M A := fun w => (Ok a, w).
Definition bind {A B} (m : M A) (k : A -> M B) : M B :=
  fun w => match m w with
           | (Ok a, w') => k a w'
           | (Err e, w') => (Err e, w')
           end.

Notation "x <- m ;; k" := (bind m (fun x => k))
  (at level 100, m at level 99, k at level 200, right associativity).
Notation "m ;;; k" := (bind m (fun _ => k))
  (at level 100, k at level 200, right associativity).

(** [Promise.all([p, q])]: both promises are already running when the
    array is built, so both run to their end; the result rejects when one
    of them does. *)
Definition promiseAll2 {A B} (p : M A) (q : M B) : M (A * B) :=
  fun w =>
    let (ra, w1) := p w in
    let (rb, w2) := q w1 in
    (match ra, rb with
     | Ok a, Ok b => Ok (a, b)
     | Err e, _ => Err e
     | Ok _, Err e => Err e
     end, w2).

Section Store.

Variable env : Env.

(** *** IndexedDB helpers *)

(** One request or transaction against IndexedDB: it consults the oracle
    and fires either [onsuccess]/[oncomplete] or [onerror]. *)
Definition idbRequest : M unit :=
  fun w => (if idbFails env (clock w) then Err IDBRequestError else Ok tt, tick w).

(** [indexedDB.open]: resolves with the connection or rejects. *)
Definition openIDB : M unit := idbRequest.

(** [getReq.result !== undefined]: the key is present. *)
Definition imageExists (imageId : string) : M bool :=
  openIDB ;;;
  idbRequest ;;;
  fun w => (Ok (bool_decide (is_Some (images w !! imageId))), w).

(** [`img_${Date.now()}_${Math.random().toString(36).slice(2, 9)}`]. *)
Definition uniqueKey (now : N) (suffix : string) : string :=
  "img_" +:+ pretty now +:+ "_" +:+ suffix.

(** The key of the [forceNew] branch, read from the clock and the random
    source. *)
Definition freshImageId : M string :=
  fun w => (Ok (uniqueKey (dateNow env (clock w)) (mathRandom36 env (clock w))), tick w).

(** The second half of [saveImageDeduped]: [store.put(data, imageId)] in
    a [readwrite] transaction, committed or not at all. *)
Definition putImage (data imageId : string) : M unit :=
  openIDB ;;;
  idbRequest ;;;
  fun w => (Ok tt, setImages (insert imageId data) w).

Definition saveImageDeduped (data : string) (forceNew : bool) : M string :=
  imageId <- (if forceNew then freshImageId else ret (hashImage data)) ;;
  exists_ <- (if negb forceNew then imageExists imageId else ret false) ;;
  if exists_ then ret imageId
  else putImage data imageId ;;; ret imageId.

(** [getReq.result ?? null]. *)
Definition loadImage (imageId : string) : M (option string) :=
  openIDB ;;;
  idbRequest ;;;
  fun w => (Ok (images w !! imageId), w).

Definition deleteImage (imageId : string) : M unit :=
  openIDB ;;;
  idbRequest ;;;
  fun w => (Ok tt, setImages (delete imageId) w).

(** *** SQLite persistence *)

Definition saveToIndexedDB (data : Snapshot) : M unit :=
  openIDB ;;;
  idbRequest ;;;
  fun w => (Ok tt, setSqlite (Some data) w).

Definition loadFromIndexedDB : M (option Snapshot) :=
  openIDB ;;;
  idbRequest ;;;
  fun w => (Ok (sqlite w), w).

Definition persistDatabase : M unit :=
  fun w => match db w with
           | None => (Ok tt, w)
           | Some d => saveToIndexedDB (export d) w
           end.

(** *** Database init *)

(** Loading the SQL engine, then the body of the [async] function stored
    in [dbInitPromise]. *)
Definition initSqlJs : M unit :=
  fun w => (if sqlJsFails env (clock w) then Err SqlJsLoadError else Ok tt, tick w).

Definition initBody : M unit :=
  initSqlJs ;;;
  existingData <- loadFromIndexedDB ;;
  (fun w => (Ok tt, setDb (Some (match existingData with
                                 | Some data => openSnapshot data
                                 | None => emptyDatabase
                                 end)) w)) ;;;
  persistDatabase.

(** [initDatabase] hands out the shared handle [db]; the model returns
    [tt] and the statements below act on the [db] of the state.  A settled
    [dbInitPromise] is remembered with its outcome: a rejected one rejects
    every later call while [db] is null.  (A fulfilled one with [db] null
    does not arise: [db] is assigned before the promise fulfils and is never
    reset.) *)
Definition initDatabase : M unit :=
  fun w =>
    match db w with
    | Some _ => (Ok tt, w)
    | None =>
        match dbInitPromise w with
        | Some (Err e) => (Err e, w)
        | Some (Ok _) => (Err NullDatabase, w)
        | None =>
            let (r, w') := initBody w in
            (r, setDbInitPromise (Some r) w')
        end
    end.

(** Running a statement on the handle. *)
Definition dbExec {A} (f : Database -> A * Database) : M A :=
  fun w => match db w with
           | Some d => let (a, d') := f d in (Ok a, setDb (Some d') w)
           | None => (Err NullDatabase, w)
           end.
Definition dbRun (f : Database -> Database) : M unit :=
  dbExec (fun d => (tt, f d)).
Definition dbQuery {A} (f : Database -> A) : M A :=
  dbExec (fun d => (f d, d)).

(** *** CRUD operations *)

Definition saveRun (run : RunInsert) : M Z :=
  initDatabase ;;;
  ids <- promiseAll2 (saveImageDeduped (ri_inputImage run) false)
                     (saveImageDeduped (ri_outputImage run) true) ;;
  dbRun (sqlInsert run (fst ids) (snd ids)) ;;;
  i <- dbQuery last_insert_rowid ;;
  persistDatabase ;;;
  ret i.

Definition getRuns : M (list RunRecord) :=
  initDatabase ;;;
  dbQuery sqlSelectAllOrdered.

Definition getRunById (i : Z) : M (option RunRecord) :=
  initDatabase ;;;
  dbQuery (sqlSelectById i).

(** [inputImage ?? ""]. *)
Definition orEmpty (o : option string) : string :=
  match o with Some s => s | None => "" end.

Definition loadImagesForRun (run : RunRecord) : M (string * string) :=
  p <- promiseAll2 (loadImage (inputImageId run)) (loadImage (outputImageId run)) ;;
  ret (orEmpty (fst p), orEmpty (snd p)).

Definition getRunWithImages (i : Z) : M (option (RunRecord * (string * string))) :=
  run <- getRunById i ;;
  match run with
  | None => ret None
  | Some r =>
      p <- promiseAll2 (loadImage (inputImageId r)) (loadImage (outputImageId r)) ;;
      ret (Some (r, (orEmpty (fst p), orEmpty (snd p))))
  end.

Definition updateRunComment (i : Z) (comment : string) : M unit :=
  initDatabase ;;;
  dbRun (sqlUpdateComment comment i) ;;;
  persistDatabase.

Definition deleteRun (i : Z) : M unit :=
  run <- getRunById i ;;
  match run with
  | None => ret tt
  | Some r =>
      initDatabase ;;;
      inputUsageCount <- dbQuery (sqlCountOtherInput (inputImageId r) i) ;;
      dbRun (sqlDelete i) ;;;
      persistDatabase ;;;
      if inputUsageCount =? 0
      then promiseAll2 (deleteImage (outputImageId r)) (deleteImage (inputImageId r)) ;;; ret tt
      else deleteImage (outputImageId r)
  end.

End Store.

(** ** Sample data seeding *)

(** What [seedSampleDataIfEmpty] reads besides the store: the base path of
    the deployment ([import.meta.env.BASE_URL]), what fetching a URL and
    reading the answer as a data URL gives at a tick of the counter ([None]
    when [fetch] or the [FileReader] rejects), and the text of
    [new Date().toISOString()]. *)
Record Site := mkSite {
  BASE_URL : string;
  fetchedDataUrl : string -> nat -> option string;
  toISOString : nat -> string
}.

(** The [sampleRun] of [seedSampleDataIfEmpty]. *)
Definition seededRun (createdAt inputImage outputImage : string) : RunInsert :=
  {| ri_createdAt := createdAt;
     ri_modelId := "google/gemini-3-pro-image-preview";
     ri_modelLabel := "google/gemini-3-pro-image-preview — Gemini 3 Pro Image Preview";
     ri_promptTemplate := "";
     ri_compiledPrompt := "This is a sample to show what the app can do.";
     ri_newTitle := "Khu vườn bí mật";
     ri_inputImage := inputImage;
     ri_outputImage := outputImage;
     ri_servedBy := None;
     ri_route := None;
     ri_promptTokens := Some (QArith_base.Qmake 368 1);
     ri_completionTokens := Some (QArith_base.Qmake 1443 1);
     ri_totalTokens := Some (QArith_base.Qmake 1811 1);
     ri_cost := Some (QArith_base.Qmake 138 1000);
     ri_durationMs := Some (QArith_base.Qmake 19000 1);
     ri_humanComment := Some "I made this sample with vietnamese, using a low-res input." |}.

Section Seeding.

Variable env : Env.
Variable site : Site.

(** [fetchImageAsDataUrl(url)]; the answer is not checked for its status,
    whatever body arrives is turned into a data URL. *)
Definition fetchImageAsDataUrl (url : string) (w : World) : option string * World :=
  (fetchedDataUrl site url (clock w), tick w).

(** [new Date().toISOString()]. *)
Definition newDateISO (w : World) : string * World :=
  (toISOString site (clock w), tick w).

(** [getRuns] is awaited outside the [try]: its rejection is the caller's.
    Inside the [try] every rejection (a fetch, [saveRun]) ends in the
    [catch], which logs and returns [false]. *)
Definition seedSampleDataIfEmpty : M bool :=
  runs <- getRuns env ;;
  if Nat.ltb 0 (length runs) then ret false
  else fun w =>
    let (inputImage, w1) :=
      fetchImageAsDataUrl (BASE_URL site +:+ "sample/input.png") w in
    let (outputImage, w2) :=
      fetchImageAsDataUrl (BASE_URL site +:+ "sample/output.jpg") w1 in
    match inputImage, outputImage with
    | Some inputImage, Some outputImage =>
        let (createdAt, w3) := newDateISO w2 in
        match saveRun env (seededRun createdAt inputImage outputImage) w3 with
        | (Ok _, w4) => (Ok true, w4)
        | (Err _, w4) => (Ok false, w4)
        end
    | _, _ => (Ok false, w2)
    end.

End Seeding.

(** ** Data URLs ([dataUrlToParts] of [lib/utils.ts], called by
    [generateCover]) *)

(** [s.split(sep)] for a separator of one character: the first piece and
    the pieces after it. *)
Fixpoint splitOn (sep : ascii) (s : string) : string * list string :=
  match s with
  | EmptyString => (EmptyString, [])
  | String c s' =>
      let (p, ps) := splitOn sep s' in
      if Ascii.eqb c sep then (EmptyString, p :: ps) else (String c p, ps)
  end.

Definition isEmpty (s : string) : bool :=
  match s with
  | EmptyString => true
  | String _ _ => false
  end.

(** [None] stands for [throw new Error('Invalid data URL')].  [base64] is
    the second piece between commas, [mimeType] the second piece between
    colons of what precedes the first semicolon of the first piece;
    [!mimeType] and [!base64] hold of [undefined] and of the empty
    string. *)
Definition dataUrlToParts (dataUrl : string) : option (string * string) :=
  let (meta, rest) := splitOn "," dataUrl in
  let base64 := head rest in
  let mimeType := head (snd (splitOn ":" (fst (splitOn ";" meta)))) in
  match mimeType, base64 with
  | Some mimeType, Some base64 =>
      if isEmpty mimeType || isEmpty base64 then None
      else Some (mimeType, base64)
  | _, _ => None
  end.

(** The [url] of the [image_url] part that [generateCover] puts in its
    request: the parts of [inputDataUrl] put together again. *)
Definition requestImageUrl (inputDataUrl : string) : option string :=
  match dataUrlToParts inputDataUrl with
  | Some (mimeType, base64) => Some ("data:" +:+ mimeType +:+ ";base64," +:+ base64)
  | None => None
  end.

(** ** The debug log ([lib/debugLog.ts]) *)

Definition MAX_LOG_ENTRIES : nat := 200.

(** [l.slice(-n)]: the last [n] elements of [l], all of them when there
    are fewer. *)
Definition sliceLast {A} (n : nat) (l : list A) : list A :=
  skipn (length l - n)%nat l.

Definition appendLog {A} (prev : list A) (entry : A) : list A :=
  sliceLast MAX_LOG_ENTRIES (prev ++ [entry]).

(** [summarizeText] measures and cuts in UTF-16 code units, so here a
    string is the list of its code units. *)
Definition utf16 := list N.

(** The code units [String.prototype.trim] removes: WhiteSpace and
    LineTerminator of ECMAScript. *)
Definition isWhiteSpace (c : N) : bool :=
  ((9 <=? c) && (c <=? 13) || (c =? 32) || (c =? 160) || (c =? 5760)
   || (8192 <=? c) && (c <=? 8202) || (c =? 8232) || (c =? 8233)
   || (c =? 8239) || (c =? 8287) || (c =? 12288) || (c =? 65279))%N.

Fixpoint trimStart (s : utf16) : utf16 :=
  match s with
  | [] => []
  | c :: s' => if isWhiteSpace c then trimStart s' else s
  end.

Definition trimEnd (s : utf16) : utf16 := rev (trimStart (rev s)).

Definition trim (s : utf16) : utf16 := trimEnd (trimStart s).

(** [s.slice(0, end)] for an integer [end]: a negative [end] counts from
    the end of [s]. *)
Definition sliceTo (end_ : Z) (s : utf16) : utf16 :=
  firstn (Z.to_nat (if end_ <? 0 then Z.of_nat (length s) + end_ else end_)) s.

(** U+2026, the ellipsis. *)
Definition ellipsis : N := 8230.

Definition summarizeText (text : utf16) (max : Z) : utf16 :=
  let trimmed := trim text in
  if Z.of_nat (length trimmed) <=? max then trimmed
  else sliceTo max trimmed ++ [ellipsis].

(** * Vocabulary of the specification *)

(** ** States, results and frames *)

(** The rows of [runs] as the next statement will see them: those of the
    open database, or of the snapshot that [initDatabase] will load. *)
Definition table (w : World) : list RunRecord :=
  match db w with
  | Some d => rows d
  | None => match sqlite w with
            | Some s => snap_rows s
            | None => []
            end
  end.

(** The rows of the persisted snapshot. *)
Definition snapshotRows (w : World) : list RunRecord :=
  match sqlite w with
  | Some s => snap_rows s
  | None => []
  end.

Definition isOk {A} (r : Result A) : Prop :=
  match r with Ok _ => True | Err _ => False end.

(** [post m w Q]: whatever [m] does from [w], its result and final state
    satisfy [Q]. *)
Definition post {A} (m : M A) (w : World) (Q : Result A -> World -> Prop) : Prop :=
  forall r w', m w = (r, w') -> Q r w'.

(** Frames: [steady] leaves everything but the images (and the clock)
    alone, [quiet] the images too. *)
Definition steady (w w' : World) : Prop :=
  sqlite w' = sqlite w /\ db w' = db w /\ dbInitPromise w' = dbInitPromise w
  /\ (clock w <= clock w')%nat.

Definition quiet (w w' : World) : Prop :=
  images w' = images w /\ steady w w'.

(** [calm]: everything but the snapshot (and the clock) is left alone. *)
Definition calm (w w' : World) : Prop :=
  images w' = images w /\ db w' = db w /\ dbInitPromise w' = dbInitPromise w
  /\ (clock w <= clock w')%nat.

(** A call that only reads: images and table are left as they were, and
    the snapshot is the one from before or has been written from the
    table. *)
Definition unchanged (w w' : World) : Prop :=
  images w' = images w /\ table w' = table w /\ (clock w <= clock w')%nat
  /\ (snapshotRows w' = table w' \/ snapshotRows w' = snapshotRows w).

(** What a call that writes can do to the snapshot: write it from the
    table; or leave the old one, or the old table, and then it has
    removed no blob. *)
Definition snapshotStep (w w' : World) : Prop :=
  snapshotRows w' = table w'
  \/ ((snapshotRows w' = snapshotRows w \/ snapshotRows w' = table w)
      /\ forall k, is_Some (images w !! k) -> is_Some (images w' !! k)).

(** From [w] on, no IndexedDB request errors and the SQL engine loads. *)
Definition noFaults (env : Env) (w : World) : Prop :=
  forall n, (clock w <= n)%nat -> idbFails env n = false /\ sqlJsFails env n = false.

(** The two blob deletions at the end of [deleteRun]. *)
Definition deleteBlobs (env : Env) (r : RunRecord) (inputUsageCount : Z) : M unit :=
  if inputUsageCount =? 0
  then promiseAll2 (deleteImage env (outputImageId r))
                   (deleteImage env (inputImageId r)) ;;; ret tt
  else deleteImage env (outputImageId r).

(** ** What the specification says of rows, lists and blobs *)

(** Two rows that agree on every column except possibly [human_comment]. *)
Definition sameButComment (old new : RunRecord) : Prop :=
  id new = id old /\ createdAt new = createdAt old /\ modelId new = modelId old
  /\ modelLabel new = modelLabel old /\ promptTemplate new = promptTemplate old
  /\ compiledPrompt new = compiledPrompt old /\ newTitle new = newTitle old
  /\ inputImageId new = inputImageId old /\ outputImageId new = outputImageId old
  /\ servedBy new = servedBy old /\ route new = route old
  /\ promptTokens new = promptTokens old
  /\ completionTokens new = completionTokens old
  /\ totalTokens new = totalTokens old /\ cost new = cost old
  /\ durationMs new = durationMs old.

(** The row [sqlInsert] appends. *)
Definition metadataOf (run : RunInsert) (row : RunRecord) : Prop :=
  createdAt row = ri_createdAt run /\ modelId row = ri_modelId run
  /\ modelLabel row = ri_modelLabel run
  /\ promptTemplate row = ri_promptTemplate run
  /\ compiledPrompt row = ri_compiledPrompt run
  /\ newTitle row = ri_newTitle run
  /\ servedBy row = ri_servedBy run /\ route row = ri_route run
  /\ promptTokens row = ri_promptTokens run
  /\ completionTokens row = ri_completionTokens run
  /\ totalTokens row = ri_totalTokens run /\ cost row = ri_cost run
  /\ durationMs row = ri_durationMs run
  /\ humanComment row = ri_humanComment run.

(** Text that the SQL binding stores and returns unchanged.  The binding
    writes a string as UTF-8 and reads it back up to the first NUL, so
    what comes back is the text that went in when the string is
    well-formed Unicode, which its bytes show by being well-formed UTF-8
    (no encoded surrogate, no overlong form, nothing above U+10FFFF), and
    holds no NUL. *)
Definition isContinuation (b : Z) : bool := (128 <=? b) && (b <=? 191).

Definition threeByteLead (b0 b1 : Z) : bool :=
  (b0 =? 224) && (160 <=? b1) && (b1 <=? 191)
  || (225 <=? b0) && (b0 <=? 236) && isContinuation b1
  || (b0 =? 237) && (128 <=? b1) && (b1 <=? 159)
  || (238 <=? b0) && (b0 <=? 239) && isContinuation b1.

Definition fourByteLead (b0 b1 : Z) : bool :=
  (b0 =? 240) && (144 <=? b1) && (b1 <=? 191)
  || (241 <=? b0) && (b0 <=? 243) && isContinuation b1
  || (b0 =? 244) && (128 <=? b1) && (b1 <=? 143).

Fixpoint wellFormedBytes (l : list Z) : bool :=
  match l with
  | [] => true
  | b0 :: l1 =>
      if (1 <=? b0) && (b0 <=? 127) then wellFormedBytes l1
      else
        match l1 with
        | [] => false
        | b1 :: l2 =>
            if (194 <=? b0) && (b0 <=? 223) && isContinuation b1
            then wellFormedBytes l2
            else
              match l2 with
              | [] => false
              | b2 :: l3 =>
                  if threeByteLead b0 b1 && isContinuation b2
                  then wellFormedBytes l3
                  else
                    match l3 with
                    | [] => false
                    | b3 :: l4 =>
                        fourByteLead b0 b1 && isContinuation b2
                        && isContinuation b3 && wellFormedBytes l4
                    end
              end
        end
  end.

Definition wellFormedText (s : string) : Prop := wellFormedBytes (encode s) = true.

Definition wellFormedOption (o : option string) : Prop :=
  match o with
  | Some s => wellFormedText s
  | None => True
  end.

(** The text columns of a run are well-formed.  Its numbers are finite by
    their type, and its images go to IndexedDB as they are. *)
Definition wellFormedRun (run : RunInsert) : Prop :=
  wellFormedText (ri_createdAt run) /\ wellFormedText (ri_modelId run)
  /\ wellFormedText (ri_modelLabel run) /\ wellFormedText (ri_promptTemplate run)
  /\ wellFormedText (ri_compiledPrompt run) /\ wellFormedText (ri_newTitle run)
  /\ wellFormedOption (ri_servedBy run) /\ wellFormedOption (ri_route run)
  /\ wellFormedOption (ri_humanComment run).

(** A valid [RunInsert]: well-formed text columns and well-formed images. *)
Definition validRunInsert (run : RunInsert) : Prop :=
  wellFormedRun run
  /\ wellFormedText (ri_inputImage run) /\ wellFormedText (ri_outputImage run).

(** Newest first: the later-listed row is not newer. *)
Definition createdDesc (a b : RunRecord) : Prop :=
  (createdAt b ≤ createdAt a)%string.

(** The order the specification asks for: strictly newer first, and among
    equal timestamps the greater id first. *)
Definition createdDescThenIdDesc (a b : RunRecord) : Prop :=
  String.ltb (createdAt b) (createdAt a) = true
  \/ (createdAt a = createdAt b /\ id b < id a).

(** Number of entries of the object store that hold [data]. *)
Definition copies (data : string) (m : gmap string string) : nat :=
  size (filter (fun kv => snd kv = data) m).

(** The algorithm as the specification words it, on an opened store whose
    database is [d], snapshot [snapshot] and blobs [blobs]:
    (1) read the row, and change nothing when it is absent;
    (2) collect the other rows (id different) with the same input key;
    (3) delete the row; (4) flush the snapshot;
    (5) delete the output blob; (6) delete the input blob when step 2
    found no row. *)
Definition deleteRunSpec (i : Z) (d : Database) (snapshot : option Snapshot)
    (blobs : gmap string string)
    : Database * option Snapshot * gmap string string :=
  match List.find (fun r => id r =? i) (rows d) with
  | None => (d, snapshot, blobs)
  | Some r =>
      let others :=
        List.filter (fun r' => bool_decide (id r' <> i /\ inputImageId r' = inputImageId r))
                    (rows d) in
      let d' := {| rows := List.filter (fun r' => bool_decide (id r' <> i)) (rows d);
                   sqlite_sequence := sqlite_sequence d;
                   last_insert_rowid := last_insert_rowid d |} in
      let blobs1 := delete (outputImageId r) blobs in
      let blobs2 := match others with
                    | [] => delete (inputImageId r) blobs1
                    | _ :: _ => blobs1
                    end in
      (d', Some (export d'), blobs2)
  end.

(** ** Reachable states *)

(** Reloading the page: the module-level variables start afresh, what is
    in IndexedDB stays. *)
Definition reload (w : World) : World :=
  {| images := images w; sqlite := sqlite w; db := None;
     dbInitPromise := None; clock := clock w |}.

(** The exported functions of [db.ts], the seeding of the sample run
    among them, and the reload of the page. *)
Inductive Op :=
  | OpReload
  | OpInitDatabase
  | OpPersistDatabase
  | OpSaveRun (run : RunInsert)
  | OpGetRuns
  | OpGetRunById (i : Z)
  | OpGetRunWithImages (i : Z)
  | OpLoadImage (imageId : string)
  | OpLoadImagesForRun (run : RunRecord)
  | OpUpdateRunComment (i : Z) (comment : string)
  | OpDeleteRun (i : Z)
  | OpSeedSampleDataIfEmpty (site : Site).

Definition runOp (env : Env) (op : Op) (w : World) : World :=
  match op with
  | OpReload => reload w
  | OpInitDatabase => snd (initDatabase env w)
  | OpPersistDatabase => snd (persistDatabase env w)
  | OpSaveRun run => snd (saveRun env run w)
  | OpGetRuns => snd (getRuns env w)
  | OpGetRunById i => snd (getRunById env i w)
  | OpGetRunWithImages i => snd (getRunWithImages env i w)
  | OpLoadImage imageId => snd (loadImage env imageId w)
  | OpLoadImagesForRun run => snd (loadImagesForRun env run w)
  | OpUpdateRunComment i comment => snd (updateRunComment env i comment w)
  | OpDeleteRun i => snd (deleteRun env i w)
  | OpSeedSampleDataIfEmpty site => snd (seedSampleDataIfEmpty env site w)
  end.

(** The states a page can be in: a fresh profile, then any calls and
    reloads. *)
Inductive reachable (env : Env) : World -> Prop :=
  | reachable_initial : reachable env initialWorld
  | reachable_step op w : reachable env w -> reachable env (runOp env op w).

Definition roundTripClaim : Prop :=
  forall env w run i w1 row w2 p w3,
    validRunInsert run ->
    reachable env w ->
    saveRun env run w = (Ok i, w1) ->
    getRunById env i w1 = (Ok (Some row), w2) ->
    loadImagesForRun env row w2 = (Ok p, w3) ->
    metadataOf run row /\ p = (ri_inputImage run, ri_outputImage run).

(** ** Key shapes and the invariant of the store *)

Fixpoint allChars (P : ascii -> Prop) (s : string) : Prop :=
  match s with
  | EmptyString => True
  | String c s' => P c /\ allChars P s'
  end.

Definition notUnderscore (c : ascii) : Prop := c <> "_"%char.

(** No two calls read the same timestamp together with the same suffix. *)
Definition uniqueDraws (env : Env) : Prop :=
  forall m n, dateNow env m = dateNow env n ->
              mathRandom36 env m = mathRandom36 env n -> m = n.

Definition inputShaped (r : RunRecord) : Prop :=
  exists data, inputImageId r = hashImage data.

Definition outputDrawn (env : Env) (t : nat) (r : RunRecord) : Prop :=
  exists n, (n < t)%nat
            /\ outputImageId r = uniqueKey (dateNow env n) (mathRandom36 env n).

Definition blobsPresent (blobs : gmap string string) (r : RunRecord) : Prop :=
  is_Some (blobs !! inputImageId r) /\ is_Some (blobs !! outputImageId r).

Definition outputsDistinct (l : list RunRecord) : Prop :=
  forall r1 r2, In r1 l -> In r2 l ->
                outputImageId r1 = outputImageId r2 -> id r1 = id r2.

(** Every row's input key is a content key and its output key a unique
    key drawn before [t]; and, as long as the draws never repeat, rows
    with different ids have different output keys and every referenced
    blob is in [blobs]. *)
Definition rowsInv (env : Env) (t : nat) (blobs : gmap string string)
    (l : list RunRecord) : Prop :=
  (forall r, In r l -> inputShaped r /\ outputDrawn env t r)
  /\ (uniqueDraws env ->
      outputsDistinct l /\ forall r, In r l -> blobsPresent blobs r).

Definition TableInv (env : Env) (w : World) : Prop :=
  rowsInv env (clock w) (images w) (table w).

(** The invariant of the store: it holds of the table and of the
    snapshot a reload would start from. *)
Definition StoreInv (env : Env) (w : World) : Prop :=
  TableInv env w /\ rowsInv env (clock w) (images w) (snapshotRows w).


(** ** Enumerating short strings *)

Definition allAscii : list ascii := map ascii_of_nat (List.seq 0 256).

Fixpoint stringsUpTo (n : nat) : list string :=
  match n with
  | O => [EmptyString]
  | S n' => EmptyString :: flat_map (fun c => map (String c) (stringsUpTo n')) allAscii
  end.

Fixpoint repeatA (n : nat) : string :=
  match n with
  | O => EmptyString
  | S n' => String "a" (repeatA n')
  end.

(** ** Sample environments, runs and stores *)

(** No request ever fails, the clock of [Date.now()] advances, the random
    suffix is always the same. *)
Definition quietEnv : Env :=
  {| idbFails := fun _ => false;
     sqlJsFails := fun _ => false;
     dateNow := fun n => N.of_nat n;
     mathRandom36 := fun _ => "k3j2x9q" |}.

(** As [quietEnv], but the IndexedDB request at tick [t] fails. *)
Definition faultAt (t : nat) : Env :=
  {| idbFails := fun n => Nat.eqb n t;
     sqlJsFails := fun _ => false;
     dateNow := fun n => N.of_nat n;
     mathRandom36 := fun _ => "k3j2x9q" |}.

(** [Date.now()] and [Math.random()] give the same values at every call. *)
Definition frozenEnv : Env :=
  {| idbFails := fun _ => false;
     sqlJsFails := fun _ => false;
     dateNow := fun _ => 1700000000000%N;
     mathRandom36 := fun _ => "k3j2x9q" |}.

Definition sampleRun (created input output : string) : RunInsert :=
  {| ri_createdAt := created;
     ri_modelId := "google/gemini-3-pro-image-preview";
     ri_modelLabel := "Gemini 3 Pro Image Preview";
     ri_promptTemplate := "";
     ri_compiledPrompt := "This is a sample to show what the app can do.";
     ri_newTitle := "Title";
     ri_inputImage := input;
     ri_outputImage := output;
     ri_servedBy := None;
     ri_route := None;
     ri_promptTokens := None;
     ri_completionTokens := None;
     ri_totalTokens := None;
     ri_cost := None;
     ri_durationMs := None;
     ri_humanComment := None |}.

(** A store in which the bytes ["AAA"] were saved as an output image. *)
Definition storeWithOutputAAA : World :=
  runOp quietEnv (OpSaveRun (sampleRun "2025-01-01T00:00:00.000Z" "BBB" "AAA"))
    initialWorld.

(** Two runs saved with the same [createdAt]. *)
Definition twoRunsSameInstant : World :=
  runOp quietEnv (OpSaveRun (sampleRun "2025-01-01T00:00:00.000Z" "AAA" "CCC"))
    (runOp quietEnv (OpSaveRun (sampleRun "2025-01-01T00:00:00.000Z" "AAA" "BBB"))
       initialWorld).

(** The database of [twoRunsSameInstant] and its second row. *)
Definition twoRunsDatabase : Database :=
  Eval vm_compute in default emptyDatabase (db twoRunsSameInstant).

Definition secondRunRow : RunRecord :=
  mkRunRecord 2 "2025-01-01T00:00:00.000Z" "google/gemini-3-pro-image-preview"
    "Gemini 3 Pro Image Preview" ""
    "This is a sample to show what the app can do." "Title"
    "img_cb1ad2119d8fafb6" "img_16_k3j2x9q"
    None None None None None None None None.

(** One run saved while the request at tick 16 (opening IndexedDB for the
    deletion of the output blob) is set to fail. *)
Definition oneRunFault16 : World :=
  runOp (faultAt 16) (OpSaveRun (sampleRun "2025-01-01T00:00:00.000Z" "AAA" "BBB"))
    initialWorld.


(** ** Row ids and durability *)

(** The AUTOINCREMENT counter of the persisted snapshot, and the one the
    next statement will see: that of the open database or, before it is
    opened, that of the snapshot. *)
Definition persistedSeq (w : World) : Z :=
  match sqlite w with
  | Some s => snap_seq s
  | None => 0
  end.

Definition tableSeq (w : World) : Z :=
  match db w with
  | Some d => sqlite_sequence d
  | None => persistedSeq w
  end.

(** The ids of [l] are positive, pairwise different and at most [seq]. *)
Definition idsBelow (seq : Z) (l : list RunRecord) : Prop :=
  NoDup (map id l) /\ forall r, In r l -> 0 < id r <= seq.

(** Ids and counters, in the table and in the snapshot. *)
Definition IdInv (w : World) : Prop :=
  idsBelow (tableSeq w) (table w)
  /\ idsBelow (persistedSeq w) (snapshotRows w)
  /\ persistedSeq w <= tableSeq w.

(** One call keeps [IdInv] and does not take the persisted counter back. *)
Definition idStep (w w' : World) : Prop :=
  IdInv w -> IdInv w' /\ persistedSeq w <= persistedSeq w'.

(** A statement that keeps the ids in order. *)
Definition keepsIds (f : Database -> Database) : Prop :=
  forall d, idsBelow (sqlite_sequence d) (rows d) ->
            idsBelow (sqlite_sequence (f d)) (rows (f d))
            /\ sqlite_sequence d <= sqlite_sequence (f d).

(** Several calls and reloads in a row. *)
Definition runOps (env : Env) (ops : list Op) (w : World) : World :=
  fold_left (fun w op => runOp env op w) ops w.

(** What [getRuns] lists in [w] is what it lists after a reload of the
    page, whenever no request fails after the reload. *)
Definition survivesReload (env : Env) (w : World) : Prop :=
  forall env2, noFaults env2 (reload w) ->
    exists l w1 w2,
      getRuns env w = (Ok l, w1) /\ getRuns env2 (reload w) = (Ok l, w2).

(** ** The keys of the blobs *)

(** [k] is the content key of [data], or a unique key drawn before [t]. *)
Definition blobKeyed (env : Env) (t : nat) (k data : string) : Prop :=
  k = hashImage data
  \/ exists n, (n < t)%nat /\ k = uniqueKey (dateNow env n) (mathRandom36 env n).

Definition BlobInv (env : Env) (w : World) : Prop :=
  forall k data, images w !! k = Some data -> blobKeyed env (clock w) k data.

(** One call: a blob of the store afterwards was there before, or has
    been written under a key of its own. *)
Definition blobStep (env : Env) (w w' : World) : Prop :=
  (clock w <= clock w')%nat
  /\ forall k data, images w' !! k = Some data ->
       images w !! k = Some data \/ blobKeyed env (clock w') k data.

(** The SQL engine fails to load at the first attempt. *)
Definition engineFailsOnce : Env :=
  {| idbFails := fun _ => false;
     sqlJsFails := fun n => Nat.eqb n 0;
     dateNow := fun n => N.of_nat n;
     mathRandom36 := fun _ => "k3j2x9q" |}.

(** A first run, and the store after saving it in a fresh profile. *)
Definition firstRun : RunInsert := sampleRun "2025-01-01T00:00:00.000Z" "AAA" "BBB".

Definition oneRunStore : World := snd (saveRun quietEnv firstRun initialWorld).

(** The first run deleted again and the page reloaded. *)
Definition emptiedStore : World :=
  runOps quietEnv [OpDeleteRun 1; OpReload] oneRunStore.

(** A fresh profile after a first [initDatabase] that could not load the
    SQL engine. *)
Definition failedInit : World := snd (initDatabase engineFailsOnce initialWorld).

(** A store opened in a fresh profile while the request at tick 12 (the
    flush at the end of the first [saveRun]) is set to fail. *)
Definition openedFault12 : World := snd (initDatabase (faultAt 12) initialWorld).

(** [twoRunsSameInstant] after the deletion of its first run. *)
Definition secondRunLeft : World := snd (deleteRun quietEnv 1 twoRunsSameInstant).

(** The row of the first run: the only row of [oneRunStore], and the first
    of [twoRunsSameInstant]. *)
Definition firstRunRow : RunRecord :=
  mkRunRecord 1 "2025-01-01T00:00:00.000Z" "google/gemini-3-pro-image-preview"
    "Gemini 3 Pro Image Preview" ""
    "This is a sample to show what the app can do." "Title"
    "img_cb1ad2119d8fafb6" "img_9_k3j2x9q"
    None None None None None None None None.

(** The database of [oneRunStore]. *)
Definition oneRunDatabase : Database :=
  Eval vm_compute in default emptyDatabase (db oneRunStore).

(** A fresh profile after the store has been opened, and after an attempt
    to open it during which the request at tick 1 failed. *)
Definition openedEmptyStore : World := snd (initDatabase quietEnv initialWorld).

Definition failedOpening : World := snd (initDatabase (faultAt 1) initialWorld).

(** ** Data URLs *)

(** None of the characters [seps] occurs in [s]. *)
Definition lacks (seps : list ascii) (s : string) : Prop :=
  allChars (fun c => ~ In c seps) s.

(** The pieces after the first, each behind its separator: what
    [splitOn] took apart. *)
Fixpoint joinOn (sep : ascii) (ps : list string) : string :=
  match ps with
  | [] => EmptyString
  | p :: ps' => String sep (p +:+ joinOn sep ps')
  end.

(** What may follow the media type before the first comma: nothing, or
    parameters and further colons, none with a comma. *)
Definition paramsShaped (params : string) : Prop :=
  lacks [","%char] params
  /\ match params with
     | EmptyString => True
     | String c _ => c = ";"%char \/ c = ":"%char
     end.

(** What may follow the payload: nothing, or a comma and anything. *)
Definition restShaped (rest : string) : Prop :=
  match rest with
  | EmptyString => True
  | String c _ => c = ","%char
  end.

(** The strings [dataUrlToParts] takes apart into [mimeType] and
    [base64]: [scheme:mimeType params,base64 rest]. *)
Definition acceptedDataUrl (dataUrl mimeType base64 : string) : Prop :=
  exists scheme params rest,
    dataUrl = scheme +:+ ":" +:+ mimeType +:+ params +:+ "," +:+ base64 +:+ rest
    /\ lacks [","; ";"; ":"]%char scheme
    /\ lacks [","; ";"; ":"]%char mimeType /\ mimeType <> ""
    /\ paramsShaped params
    /\ lacks [","%char] base64 /\ base64 <> ""
    /\ restShaped rest.

(** A site that serves both sample images. *)
Definition sampleSite : Site :=
  {| BASE_URL := "/";
     fetchedDataUrl := fun url _ =>
       Some (if String.eqb url "/sample/input.png"
             then "data:image/png;base64,iVBORw0KGgo="
             else "data:image/jpeg;base64,/9j/4AAQSkZJRg==");
     toISOString := fun _ => "2025-06-01T12:00:00.000Z" |}.

(** A fresh profile seeded from [sampleSite]. *)
Definition seededStore : World :=
  snd (seedSampleDataIfEmpty quietEnv sampleSite initialWorld).

(** * Proofs *)

(** ** The digest on known inputs *)

Example sha256_abc :
  hashHex "abc" = "ba7816bf8f01cfea414140de5dae2223b00361a396177a9cb410ff61f20015ad".
Proof. vm_compute. reflexivity. Qed.

Example sha256_empty :
  hashHex "" = "e3b0c44298fc1c149afbf4c8996fb92427ae41e4649b934ca495991b7852b855".
Proof. vm_compute. reflexivity. Qed.

Example sha256_two_blocks :
  hashHex "abcdbcdecdefdefgefghfghighijhijkijkljklmklmnlmnomnopnopq"
  = "248d6a61d20638b8e5c026930c3e6039a33ce45964ff2167f6ecedd419db06c1".
Proof. vm_compute. reflexivity. Qed.

Example hashImage_AAA : hashImage "AAA" = "img_cb1ad2119d8fafb6".
Proof. vm_compute. reflexivity. Qed.

(** ** Key formats

    A content key is ["img_"] followed by hexadecimal digits; a unique key
    is ["img_"], a decimal number, an underscore and the random suffix.
    The underscore after the prefix tells them apart. *)

Lemma append_Empty (t : string) : "" +:+ t = t.
Proof. reflexivity. Qed.

Lemma append_String c (s t : string) : String c s +:+ t = String c (s +:+ t).
Proof. reflexivity. Qed.

Lemma allChars_app P s t : allChars P s -> allChars P t -> allChars P (s +:+ t).
Proof.
  induction s; rewrite ?append_Empty, ?append_String; simpl; intuition.
Qed.

Lemma allChars_slice0 P n s : allChars P s -> allChars P (slice0 n s).
Proof.
  revert s; induction n as [|n IH]; intros [|c s]; simpl; intuition.
Qed.

Lemma allChars_join P l :
  Forall (allChars P) l -> allChars P (join l).
Proof.
  induction 1; simpl; [exact I|]. now apply allChars_app.
Qed.

Lemma hexDigit_notUnderscore d : notUnderscore (hexDigit d).
Proof.
  unfold notUnderscore, hexDigit.
  repeat (match goal with |- context [match ?x with _ => _ end] => destruct x end;
          try discriminate).
Qed.

Lemma byteHex_notUnderscore b : allChars notUnderscore (padStart2 (toString16 b)).
Proof.
  unfold toString16. pose proof hexDigit_notUnderscore.
  destruct (b <? 16); simpl; repeat split; auto; discriminate.
Qed.

Lemma hashHex_notUnderscore data : allChars notUnderscore (hashHex data).
Proof.
  unfold hashHex. apply allChars_join.
  induction (Sha256.digest (encode data)); simpl; constructor;
    auto using byteHex_notUnderscore.
Qed.

Lemma pretty_N_go_notUnderscore x s :
  allChars notUnderscore s -> allChars notUnderscore (pretty_N_go x s).
Proof.
  revert s. induction (N.lt_wf_0 x) as [x _ IH]; intros s Hs.
  destruct (decide (x = 0)%N) as [->|Hx].
  - now rewrite pretty_N_go_0.
  - rewrite pretty_N_go_step by lia. apply IH.
    + apply N.div_lt; lia.
    + split; [|exact Hs].
      unfold notUnderscore, pretty_N_char.
      repeat (match goal with |- context [match ?y with _ => _ end] => destruct y end;
              try discriminate).
Qed.

Lemma pretty_N_notUnderscore (n : N) : allChars notUnderscore (pretty n).
Proof.
  unfold pretty, pretty_N. destruct (decide (n = 0)%N).
  - simpl. split; [discriminate|exact I].
  - apply pretty_N_go_notUnderscore. exact I.
Qed.

(** Two strings split at their first underscore agree part by part. *)
Lemma underscore_split a a' s s' :
  allChars notUnderscore a -> allChars notUnderscore a' ->
  a +:+ String "_" s = a' +:+ String "_" s' -> a = a' /\ s = s'.
Proof.
  revert a'; induction a as [|c a IH]; intros [|c' a'];
    rewrite ?append_Empty, ?append_String; simpl; intros Ha Ha' E.
  - split; congruence.
  - exfalso. injection E as E1 _. destruct Ha' as [Hc _]. now apply Hc.
  - exfalso. injection E as E1 _. destruct Ha as [Hc _]. now apply Hc.
  - injection E as -> E. destruct Ha, Ha'.
    destruct (IH a') as [-> ->]; auto.
Qed.

Lemma uniqueKey_inj n s n' s' :
  uniqueKey n s = uniqueKey n' s' -> n = n' /\ s = s'.
Proof.
  unfold uniqueKey. intros E.
  rewrite !append_String, !append_Empty in E. injection E as E.
  apply underscore_split in E as [E ->]; auto using pretty_N_notUnderscore.
  split; [|reflexivity]. now apply (inj pretty).
Qed.

Lemma hashImage_not_uniqueKey data n s : hashImage data <> uniqueKey n s.
Proof.
  unfold hashImage, uniqueKey.
  pose proof (allChars_slice0 notUnderscore 16 _ (hashHex_notUnderscore data)) as H.
  generalize dependent (slice0 16 (hashHex data)). intros h H E.
  rewrite !append_String, !append_Empty in E. injection E as ->.
  induction (pretty n) as [|c p IH];
    rewrite ?append_String, ?append_Empty in H; simpl in H.
  - destruct H as [H _]. now apply H.
  - apply IH, H.
Qed.

(** ** Reasoning about computations *)

Lemma steady_refl w : steady w w.
Proof. unfold steady; auto. Qed.

Lemma steady_trans w1 w2 w3 : steady w1 w2 -> steady w2 w3 -> steady w1 w3.
Proof. unfold steady. intros (?&?&?&?) (?&?&?&?). repeat split; try congruence; lia. Qed.

Lemma quiet_trans w1 w2 w3 : quiet w1 w2 -> quiet w2 w3 -> quiet w1 w3.
Proof. intros [? ?] [? ?]. split; [congruence|eauto using steady_trans]. Qed.

Lemma quiet_steady w w' : quiet w w' -> steady w w'.
Proof. now intros [_ ?]. Qed.

Lemma quiet_tick w : quiet w (tick w).
Proof. unfold quiet, steady; simpl; auto with lia. Qed.

Lemma quiet_table w w' : quiet w w' -> table w' = table w.
Proof. unfold table. intros (_&->&->&_). reflexivity. Qed.

Lemma post_ret {A} (a : A) w (Q : Result A -> World -> Prop) :
  Q (Ok a) w -> post (ret a) w Q.
Proof. intros H r w' [= <- <-]. exact H. Qed.

Lemma post_bind {A B} (m : M A) (k : A -> M B) w (Q : Result B -> World -> Prop) :
  post m w (fun r w1 => match r with
                        | Ok a => post (k a) w1 Q
                        | Err e => Q (Err e) w1
                        end) ->
  post (bind m k) w Q.
Proof.
  unfold post, bind. intros H r w' E.
  destruct (m w) as [[a|e] w1] eqn:Em.
  - exact (H _ _ eq_refl _ _ E).
  - injection E as <- <-. exact (H _ _ eq_refl).
Qed.

Lemma post_mono {A} (m : M A) w (Q Q' : Result A -> World -> Prop) :
  post m w Q -> (forall r w', Q r w' -> Q' r w') -> post m w Q'.
Proof. unfold post. eauto. Qed.

Lemma post_promiseAll2 {A B} (p : M A) (q : M B) w
    (Q : Result (A * B) -> World -> Prop) :
  post p w (fun ra w1 => post q w1 (fun rb w2 =>
    Q match ra, rb with
      | Ok a, Ok b => Ok (a, b)
      | Err e, _ => Err e
      | Ok _, Err e => Err e
      end w2)) ->
  post (promiseAll2 p q) w Q.
Proof.
  unfold post, promiseAll2. intros H r w' E.
  destruct (p w) as [ra w1] eqn:Ep. destruct (q w1) as [rb w2] eqn:Eq.
  injection E as <- <-. exact (H _ _ eq_refl _ _ Eq).
Qed.

Section Specs.

Variable env : Env.

Lemma noFaults_steady w w' : steady w w' -> noFaults env w -> noFaults env w'.
Proof. intros (_&_&_&Hc) H n Hn. apply H. lia. Qed.

Lemma idbRequest_post w :
  post (idbRequest env) w (fun r w' => quiet w w' /\ (noFaults env w -> r = Ok tt)).
Proof.
  intros r w' [= <- <-]. split; [apply quiet_tick|].
  intros H. destruct (H (clock w)) as [-> _]; auto.
Qed.

(** A request that reads: the answer [f w] is computed on the state the
    two IndexedDB steps leave, which is [w] up to the clock. *)
Lemma idb_read_post {A} (f : World -> A) w :
  (forall w1, quiet w w1 -> f w1 = f w) ->
  post (openIDB env ;;; idbRequest env ;;; fun w1 => (Ok (f w1), w1)) w
    (fun r w' => quiet w w' /\ (forall a, r = Ok a -> a = f w)
                 /\ (noFaults env w -> isOk r)).
Proof.
  intros Hf. apply post_bind.
  eapply post_mono; [apply idbRequest_post|]. intros r1 w1 [Hq1 Hok1].
  destruct r1 as [[]|e].
  - apply post_bind.
    eapply post_mono; [apply idbRequest_post|]. intros r2 w2 [Hq2 Hok2].
    pose proof (quiet_trans _ _ _ Hq1 Hq2) as Hq.
    destruct r2 as [[]|e].
    + intros r w' [= <- <-]. split; [exact Hq|split].
      * intros a [= <-]. now apply Hf.
      * intros _. exact I.
    + split; [exact Hq|split; [discriminate|]].
      intros Hn. apply (noFaults_steady _ _ (quiet_steady _ _ Hq1)) in Hn.
      now apply Hok2 in Hn.
  - split; [exact Hq1|split; [discriminate|]].
    intros Hn. now apply Hok1 in Hn.
Qed.

(** A transaction that writes: the update [g] is applied when both
    IndexedDB steps succeed and not at all otherwise. *)
Lemma idb_write_post (g : World -> World) w :
  post (openIDB env ;;; idbRequest env ;;; fun w1 => (Ok tt, g w1)) w
    (fun r w' => (exists w1, quiet w w1 /\
                    match r with Ok _ => w' = g w1 | Err _ => w' = w1 end)
                 /\ (noFaults env w -> isOk r)).
Proof.
  apply post_bind.
  eapply post_mono; [apply idbRequest_post|]. intros r1 w1 [Hq1 Hok1].
  destruct r1 as [[]|e].
  - apply post_bind.
    eapply post_mono; [apply idbRequest_post|]. intros r2 w2 [Hq2 Hok2].
    pose proof (quiet_trans _ _ _ Hq1 Hq2) as Hq.
    destruct r2 as [[]|e].
    + intros r w' [= <- <-]. split; [eauto|]. intros _; exact I.
    + split; [eauto|].
      intros Hn. apply (noFaults_steady _ _ (quiet_steady _ _ Hq1)) in Hn.
      now apply Hok2 in Hn.
  - split; [eauto|]. intros Hn. now apply Hok1 in Hn.
Qed.

End Specs.

Section HelperSpecs.

Variable env : Env.

Lemma quiet_calm w w' : quiet w w' -> calm w w'.
Proof. unfold quiet, steady, calm. tauto. Qed.

Lemma imageExists_post imageId w :
  post (imageExists env imageId) w (fun r w' =>
    quiet w w'
    /\ (forall b, r = Ok b -> b = bool_decide (is_Some (images w !! imageId)))
    /\ (noFaults env w -> isOk r)).
Proof.
  apply (idb_read_post env (fun w => bool_decide (is_Some (images w !! imageId)))).
  intros w1 [-> _]. reflexivity.
Qed.

Lemma loadImage_post imageId w :
  post (loadImage env imageId) w (fun r w' =>
    quiet w w'
    /\ (forall o, r = Ok o -> o = images w !! imageId)
    /\ (noFaults env w -> isOk r)).
Proof.
  apply (idb_read_post env (fun w => images w !! imageId)).
  intros w1 [-> _]. reflexivity.
Qed.

Lemma loadFromIndexedDB_post w :
  post (loadFromIndexedDB env) w (fun r w' =>
    quiet w w'
    /\ (forall o, r = Ok o -> o = sqlite w)
    /\ (noFaults env w -> isOk r)).
Proof.
  apply (idb_read_post env sqlite). intros w1 (_&->&_). reflexivity.
Qed.

Lemma putImage_post data imageId w :
  post (putImage env data imageId) w (fun r w' =>
    steady w w'
    /\ images w' = match r with
                   | Ok _ => <[imageId:=data]> (images w)
                   | Err _ => images w
                   end
    /\ (noFaults env w -> isOk r)).
Proof.
  eapply post_mono; [apply idb_write_post|].
  intros r w' [(w1 & (Hi & Hs) & Hw) Hok].
  destruct r; subst w'; simpl; rewrite ?Hi; auto.
Qed.

Lemma deleteImage_post imageId w :
  post (deleteImage env imageId) w (fun r w' =>
    steady w w'
    /\ images w' = match r with
                   | Ok _ => delete imageId (images w)
                   | Err _ => images w
                   end
    /\ (noFaults env w -> isOk r)).
Proof.
  eapply post_mono; [apply idb_write_post|].
  intros r w' [(w1 & (Hi & Hs) & Hw) Hok].
  destruct r; subst w'; simpl; rewrite ?Hi; auto.
Qed.

Lemma saveToIndexedDB_post data w :
  post (saveToIndexedDB env data) w (fun r w' =>
    calm w w'
    /\ sqlite w' = match r with
                   | Ok _ => Some data
                   | Err _ => sqlite w
                   end
    /\ (noFaults env w -> isOk r)).
Proof.
  eapply post_mono; [apply idb_write_post|].
  intros r w' [(w1 & Hq & Hw) Hok].
  pose proof (quiet_calm _ _ Hq) as Hc. destruct Hq as (_ & Hs & _).
  destruct r; subst w'; simpl; auto.
Qed.

Lemma persistDatabase_post w :
  post (persistDatabase env) w (fun r w' =>
    calm w w'
    /\ sqlite w' = match r, db w with
                   | Ok _, Some d => Some (export d)
                   | _, _ => sqlite w
                   end
    /\ (noFaults env w -> isOk r)).
Proof.
  unfold persistDatabase. intros r w'. destruct (db w) as [d|] eqn:Ed.
  - intros E. apply saveToIndexedDB_post in E as (Hc & Hs & Hok).
    rewrite Hs. destruct r; auto.
  - intros [= <- <-]. repeat split; auto.
Qed.

Lemma freshImageId_post w :
  post (freshImageId env) w (fun r w' =>
    quiet w w' /\ (clock w < clock w')%nat
    /\ r = Ok (uniqueKey (dateNow env (clock w)) (mathRandom36 env (clock w)))).
Proof.
  intros r w' [= <- <-]. split; [apply quiet_tick|]. simpl. auto with lia.
Qed.

(** The deduplicating path: the content key, written only when absent. *)
Lemma saveImageDeduped_dedup_post data w :
  post (saveImageDeduped env data false) w (fun r w' =>
    steady w w'
    /\ match r with
       | Ok k => k = hashImage data
                 /\ images w' = if bool_decide (is_Some (images w !! hashImage data))
                                then images w
                                else <[hashImage data:=data]> (images w)
       | Err _ => images w' = images w
       end
    /\ (noFaults env w -> isOk r)).
Proof.
  unfold saveImageDeduped; simpl. apply post_bind, post_ret, post_bind.
  eapply post_mono; [apply imageExists_post|].
  intros r1 w1 ((Hi & Hs) & Hb & Hok1). destruct r1 as [b|e].
  - rewrite (Hb b eq_refl). destruct (bool_decide _).
    + apply post_ret. rewrite Hi. auto.
    + apply post_bind. eapply post_mono; [apply putImage_post|].
      intros r2 w2 (Hs2 & Hi2 & Hok2).
      pose proof (steady_trans _ _ _ Hs Hs2) as Hs'.
      destruct r2 as [[]|e].
      * apply post_ret. rewrite Hi2, Hi. auto.
      * rewrite Hi2, Hi. repeat split; auto; try apply Hs'.
        intros Hn. apply Hok2. eapply noFaults_steady; eauto.
  - rewrite Hi. repeat split; auto; apply Hs.
Qed.

(** The unique path: a fresh key, always written. *)
Lemma saveImageDeduped_unique_post data w :
  post (saveImageDeduped env data true) w (fun r w' =>
    steady w w' /\ (clock w < clock w')%nat
    /\ match r with
       | Ok k => k = uniqueKey (dateNow env (clock w)) (mathRandom36 env (clock w))
                 /\ images w' = <[k:=data]> (images w)
       | Err _ => images w' = images w
       end
    /\ (noFaults env w -> isOk r)).
Proof.
  unfold saveImageDeduped; simpl. apply post_bind.
  eapply post_mono; [apply freshImageId_post|].
  intros r0 w0 ((Hi0 & Hs0) & Hc0 & ->).
  apply post_bind, post_ret, post_bind.
  eapply post_mono; [apply putImage_post|].
  intros r2 w2 (Hs2 & Hi2 & Hok2).
  pose proof (steady_trans _ _ _ Hs0 Hs2) as Hs'.
  assert (clock w < clock w2)%nat as Hc by (destruct Hs2 as (_&_&_&?); lia).
  destruct r2 as [[]|e].
  - apply post_ret. rewrite Hi2, Hi0. simpl. intuition auto.
  - rewrite Hi2, Hi0. simpl. intuition auto.
    apply Hok2. eapply noFaults_steady; eauto.
Qed.

End HelperSpecs.

Section InitSpecs.

Variable env : Env.

Lemma initSqlJs_post w :
  post (initSqlJs env) w (fun r w' => quiet w w' /\ (noFaults env w -> r = Ok tt)).
Proof.
  intros r w' [= <- <-]. split; [apply quiet_tick|].
  intros H. destruct (H (clock w)) as [_ ->]; auto.
Qed.

Lemma initBody_post w :
  db w = None ->
  post (initBody env) w (fun r w' =>
    images w' = images w /\ (clock w <= clock w')%nat
    /\ dbInitPromise w' = dbInitPromise w
    /\ table w' = table w
    /\ (isOk r -> is_Some (db w'))
    /\ (db w' = None -> sqlite w' = sqlite w)
    /\ (noFaults env w -> isOk r)).
Proof.
  intros Hdb. unfold initBody. apply post_bind.
  eapply post_mono; [apply initSqlJs_post|]. intros r1 w1 [Hq1 Hok1].
  pose proof (quiet_table _ _ Hq1) as Ht1.
  destruct Hq1 as (Hi1 & Hs1 & Hd1 & Hp1 & Hc1).
  destruct r1 as [[]|e]; cycle 1.
  { simpl. rewrite Hd1, Hdb. intuition auto; try discriminate. }
  apply post_bind. eapply post_mono; [apply loadFromIndexedDB_post|].
  intros r2 w2 (Hq2 & Hr2 & Hok2).
  pose proof (quiet_table _ _ Hq2) as Ht2.
  destruct Hq2 as (Hi2 & Hs2 & Hd2 & Hp2 & Hc2).
  assert (noFaults env w -> noFaults env w1) as Hn1.
  { intros H n Hn. apply H. lia. }
  destruct r2 as [existing|e]; cycle 1.
  { simpl. rewrite Hd2, Hd1, Hdb, Hs2, Hs1, Hp2, Hp1, Ht2, Ht1, Hi2, Hi1.
    intuition auto; try discriminate; lia. }
  rewrite (Hr2 existing eq_refl). clear Hr2.
  apply post_bind. intros r3 w3 [= <- <-].
  eapply post_mono; [apply persistDatabase_post|].
  intros r4 w4 ((Hi4 & Hd4 & Hp4 & Hc4) & Hs4 & Hok4). simpl in *.
  rewrite Hi4, Hp4, Hi2, Hi1, Hp2, Hp1.
  assert (table w4 = table w) as Ht.
  { unfold table. rewrite Hd4, Hdb, <- Hs1. destruct (sqlite w1); reflexivity. }
  rewrite Hd4. split; [reflexivity|]. split; [lia|]. split; [reflexivity|].
  split; [exact Ht|]. split; [intros _; eauto|]. split; [discriminate|].
  intros Hn. apply Hok4. intros n Hn'. apply Hn. simpl in Hn'. lia.
Qed.

Lemma initDatabase_post w :
  post (initDatabase env) w (fun r w' =>
    images w' = images w /\ (clock w <= clock w')%nat
    /\ table w' = table w
    /\ (isOk r -> is_Some (db w'))
    /\ (db w' = None -> db w = None /\ sqlite w' = sqlite w)
    /\ (is_Some (db w) -> r = Ok tt /\ w' = w)
    /\ (noFaults env w -> (db w = None -> dbInitPromise w = None) -> isOk r)).
Proof.
  unfold initDatabase. intros r w'. destruct (db w) as [d|] eqn:Hdb.
  { intros [= <- <-]. rewrite Hdb. simpl.
    repeat (split; [solve [auto; discriminate]|]). auto. }
  assert (forall P : Prop, is_Some (@None Database) -> P) as Hno.
  { intros P [x Hx]. discriminate Hx. }
  destruct (dbInitPromise w) as [[[]|e]|] eqn:Hp.
  - intros [= <- <-]. rewrite Hdb. simpl.
    repeat (split; [solve [auto; intros []]|]). split; [apply Hno|].
    intros _ H. discriminate (H eq_refl).
  - intros [= <- <-]. rewrite Hdb. simpl.
    repeat (split; [solve [auto; intros []]|]). split; [apply Hno|].
    intros _ H. discriminate (H eq_refl).
  - destruct (initBody env w) as [r0 w0] eqn:E0. intros [= <- <-].
    apply initBody_post in E0 as (Hi & Hc & _ & Ht & Hs & Hn & Hok); auto.
    simpl. split; [exact Hi|]. split; [exact Hc|]. split; [exact Ht|].
    split; [exact Hs|]. split; [auto|]. split; [apply Hno|]. auto.
Qed.

Lemma initDatabase_ready w d :
  db w = Some d -> initDatabase env w = (Ok tt, w).
Proof. unfold initDatabase. now intros ->. Qed.

Lemma setDb_same w d : db w = Some d -> setDb (Some d) w = w.
Proof. destruct w; simpl. now intros ->. Qed.

(** *** The operations, written out step by step *)

Lemma saveRun_unfold run w :
  saveRun env run w =
    match initDatabase env w with
    | (Err e, w0) => (Err e, w0)
    | (Ok _, w0) =>
        let (ra, w1) := saveImageDeduped env (ri_inputImage run) false w0 in
        let (rb, w2) := saveImageDeduped env (ri_outputImage run) true w1 in
        match ra, rb with
        | Ok inputId, Ok outputId =>
            match db w2 with
            | Some d =>
                let d' := sqlInsert run inputId outputId d in
                let (rp, w3) := persistDatabase env (setDb (Some d') w2) in
                (match rp with
                 | Ok _ => Ok (last_insert_rowid d')
                 | Err e => Err e
                 end, w3)
            | None => (Err NullDatabase, w2)
            end
        | Err e, _ => (Err e, w2)
        | Ok _, Err e => (Err e, w2)
        end
    end.
Proof.
  unfold saveRun, bind, promiseAll2, dbRun, dbQuery, dbExec, ret.
  destruct (initDatabase env w) as [[[]|e] w0]; [|reflexivity].
  destruct (saveImageDeduped env (ri_inputImage run) false w0) as [ra w1].
  destruct (saveImageDeduped env (ri_outputImage run) true w1) as [rb w2].
  destruct ra as [ka|ea], rb as [kb|eb]; try reflexivity.
  simpl. destruct (db w2) as [d|]; [|reflexivity]. simpl.
  destruct (persistDatabase env _) as [[[]|e] w3]; reflexivity.
Qed.

Lemma updateRunComment_unfold i comment w :
  updateRunComment env i comment w =
    match initDatabase env w with
    | (Err e, w0) => (Err e, w0)
    | (Ok _, w0) =>
        match db w0 with
        | Some d => persistDatabase env (setDb (Some (sqlUpdateComment comment i d)) w0)
        | None => (Err NullDatabase, w0)
        end
    end.
Proof.
  unfold updateRunComment, bind, dbRun, dbExec.
  destruct (initDatabase env w) as [[[]|e] w0]; [|reflexivity].
  destruct (db w0) as [d|]; [|reflexivity].
  destruct (persistDatabase env _) as [[[]|e] w3]; reflexivity.
Qed.

Lemma getRunById_unfold i w :
  getRunById env i w =
    match initDatabase env w with
    | (Err e, w0) => (Err e, w0)
    | (Ok _, w0) =>
        match db w0 with
        | Some d => (Ok (sqlSelectById i d), w0)
        | None => (Err NullDatabase, w0)
        end
    end.
Proof.
  unfold getRunById, bind, dbQuery, dbExec.
  destruct (initDatabase env w) as [[[]|e] w0]; [|reflexivity].
  destruct (db w0) as [d|] eqn:Ed; [|reflexivity].
  now rewrite (setDb_same _ _ Ed).
Qed.

Lemma getRuns_unfold w :
  getRuns env w =
    match initDatabase env w with
    | (Err e, w0) => (Err e, w0)
    | (Ok _, w0) =>
        match db w0 with
        | Some d => (Ok (sqlSelectAllOrdered d), w0)
        | None => (Err NullDatabase, w0)
        end
    end.
Proof.
  unfold getRuns, bind, dbQuery, dbExec.
  destruct (initDatabase env w) as [[[]|e] w0]; [|reflexivity].
  destruct (db w0) as [d|] eqn:Ed; [|reflexivity].
  now rewrite (setDb_same _ _ Ed).
Qed.

Lemma deleteRun_unfold i w :
  deleteRun env i w =
    match initDatabase env w with
    | (Err e, w0) => (Err e, w0)
    | (Ok _, w0) =>
        match db w0 with
        | None => (Err NullDatabase, w0)
        | Some d =>
            match sqlSelectById i d with
            | None => (Ok tt, w0)
            | Some r =>
                let n := sqlCountOtherInput (inputImageId r) i d in
                match persistDatabase env (setDb (Some (sqlDelete i d)) w0) with
                | (Err e, w1) => (Err e, w1)
                | (Ok _, w1) => deleteBlobs env r n w1
                end
            end
        end
    end.
Proof.
  unfold deleteRun. unfold bind at 1. rewrite getRunById_unfold.
  destruct (initDatabase env w) as [[[]|e] w0] eqn:E0; [|reflexivity].
  destruct (db w0) as [d|] eqn:Ed; [|reflexivity].
  destruct (sqlSelectById i d) as [r|]; [|reflexivity].
  unfold bind, dbRun, dbQuery, dbExec.
  rewrite (initDatabase_ready _ _ Ed). cbv beta iota.
  rewrite Ed, (setDb_same _ _ Ed), Ed. cbv beta iota.
  unfold deleteBlobs, bind.
  destruct (persistDatabase env _) as [[[]|e] w1]; reflexivity.
Qed.

End InitSpecs.

(** ** [updateRunComment] *)

Section CommentProofs.

Variable env : Env.

Lemma persistDatabase_table w :
  post (persistDatabase env) w (fun _ w' =>
    table w' = table w /\ images w' = images w /\ db w' = db w
    /\ (clock w <= clock w')%nat).
Proof.
  eapply post_mono; [apply persistDatabase_post|].
  intros r w' ((Hi & Hd & Hp & Hc) & Hs & _). repeat split; auto.
  unfold table. rewrite Hd, Hs. destruct (db w), r; reflexivity.
Qed.

Lemma sqlUpdateComment_rows comment i l :
  Forall2 (fun old new => sameButComment old new /\ (id old <> i -> new = old)
                          /\ (id old = i -> humanComment new = Some comment))
    l (map (fun r => if id r =? i then setHumanComment comment r else r) l).
Proof.
  induction l as [|r l IH]; simpl; constructor; [|exact IH].
  destruct (Z.eqb_spec (id r) i) as [E|E].
  - unfold sameButComment. simpl. intuition auto.
  - unfold sameButComment. intuition auto.
Qed.


Lemma sqlUpdateComment_sets comment i l :
  Forall (fun new => id new = i -> humanComment new = Some comment)
    (map (fun r => if id r =? i then setHumanComment comment r else r) l).
Proof.
  induction l as [|r l IH]; simpl; constructor; [|exact IH].
  destruct (Z.eqb_spec (id r) i) as [E|E]; simpl; [reflexivity|contradiction].
Qed.

(** What [updateRunComment] leaves in the table: the old rows, untouched
    when the store cannot be opened, with the comment of row [i] replaced
    otherwise. *)
Lemma updateRunComment_table i comment w :
  (~ isOk (fst (updateRunComment env i comment w))
   /\ table (snd (updateRunComment env i comment w)) = table w)
  \/ table (snd (updateRunComment env i comment w))
     = map (fun r => if id r =? i then setHumanComment comment r else r) (table w).
Proof.
  rewrite updateRunComment_unfold.
  destruct (initDatabase env w) as [[[]|e] w0] eqn:E0;
    apply initDatabase_post in E0 as (_ & _ & Ht & Hs & _).
  - destruct (Hs I) as [d Hd]. rewrite Hd. right.
    destruct (persistDatabase env _) as [rp w3] eqn:Ep. simpl.
    apply persistDatabase_table in Ep as (-> & _).
    unfold table at 1. simpl. rewrite <- Ht. unfold table. now rewrite Hd.
  - left. split; [intros []|exact Ht].
Qed.

(** C8.  [updateRunComment] changes no column other than [human_comment]:
    position by position, each row of the table afterwards agrees with the
    row before on the sixteen other columns, a row whose id differs from
    the given one is unchanged altogether, and when the call succeeds the
    row with the given id carries the new comment. *)
Theorem updateRunComment_changes_only_comment i comment w :
  Forall2 (fun old new => sameButComment old new /\ (id old <> i -> new = old))
          (table w) (table (snd (updateRunComment env i comment w)))
  /\ (isOk (fst (updateRunComment env i comment w)) ->
      Forall (fun new => id new = i -> humanComment new = Some comment)
             (table (snd (updateRunComment env i comment w)))).
Proof.
  destruct (updateRunComment_table i comment w) as [[Hno ->] | ->]; split.
  - induction (table w); constructor; auto.
    unfold sameButComment; intuition auto.
  - intros Hok. contradiction.
  - eapply Forall2_impl; [apply sqlUpdateComment_rows|].
    intros old new H. simpl in H. intuition eauto.
  - intros _. apply sqlUpdateComment_sets.
Qed.


End CommentProofs.

(** ** [saveRun] *)

Section SaveProofs.

Variable env : Env.

(** C4.  When either blob write of [saveRun] fails (the deduplicating one
    for the input or the unique one for the output), [saveRun] rejects and
    no row is inserted: table, database handle and snapshot are those the
    store had once opened. *)
Theorem saveRun_blob_failure_inserts_nothing run w w0 ra w1 rb w2 :
  initDatabase env w = (Ok tt, w0) ->
  saveImageDeduped env (ri_inputImage run) false w0 = (ra, w1) ->
  saveImageDeduped env (ri_outputImage run) true w1 = (rb, w2) ->
  ~ (isOk ra /\ isOk rb) ->
  (exists e, saveRun env run w = (Err e, w2) /\ (ra = Err e \/ rb = Err e))
  /\ table w2 = table w /\ db w2 = db w0 /\ sqlite w2 = sqlite w0.
Proof.
  intros E0 Ea Eb Hfail. rewrite saveRun_unfold, E0, Ea, Eb.
  apply initDatabase_post in E0 as (_ & _ & Ht & _).
  apply saveImageDeduped_dedup_post in Ea as (Hs1 & _).
  apply saveImageDeduped_unique_post in Eb as (Hs2 & _).
  pose proof (steady_trans _ _ _ Hs1 Hs2) as (Hsq & Hdb & _).
  split; [|split; [|split]]; auto.
  - destruct ra, rb; simpl in Hfail; eauto. tauto.
  - unfold table. rewrite Hsq, Hdb. exact Ht.
Qed.

Lemma maxId_ge r l : In r l -> id r <= maxId l.
Proof.
  induction l as [|x l IH]; simpl; [intros []|].
  intros [->|H]; [lia|]. specialize (IH H). lia.
Qed.

Lemma find_fresh_last (i : Z) l x :
  (forall r, In r l -> id r <> i) -> id x = i ->
  find (fun r => id r =? i) (l ++ [x]) = Some x.
Proof.
  intros Hl Hx. induction l as [|y l IH]; simpl.
  - now rewrite Hx, Z.eqb_refl.
  - destruct (Z.eqb_spec (id y) i) as [E|_].
    + exfalso. apply (Hl y); [now left|exact E].
    + apply IH. intros r Hr. apply Hl. now right.
Qed.

(** The id handed out by [sqlInsert] selects the row just inserted. *)
Lemma sqlSelectById_sqlInsert run inputId outputId d :
  exists row,
    sqlSelectById (last_insert_rowid (sqlInsert run inputId outputId d))
                  (sqlInsert run inputId outputId d) = Some row
    /\ id row = last_insert_rowid (sqlInsert run inputId outputId d)
    /\ inputImageId row = inputId /\ outputImageId row = outputId
    /\ metadataOf run row.
Proof.
  eexists. split; [|split; [|split; [|split]]].
  - unfold sqlSelectById, sqlInsert; simpl. apply find_fresh_last; [|reflexivity].
    intros r Hr. apply maxId_ge in Hr. lia.
  - reflexivity.
  - reflexivity.
  - reflexivity.
  - unfold metadataOf; simpl. repeat split.
Qed.

(** A successful [saveRun]: where it leaves the database and the images. *)
Lemma saveRun_ok run w i w' :
  saveRun env run w = (Ok i, w') ->
  exists d outputId n,
    rows d = table w
    /\ db w' = Some (sqlInsert run (hashImage (ri_inputImage run)) outputId d)
    /\ i = last_insert_rowid (sqlInsert run (hashImage (ri_inputImage run)) outputId d)
    /\ sqlite w' = Some (export (sqlInsert run (hashImage (ri_inputImage run)) outputId d))
    /\ outputId = uniqueKey (dateNow env n) (mathRandom36 env n)
    /\ (clock w <= n < clock w')%nat
    /\ images w' =
         <[outputId := ri_outputImage run]>
           (if bool_decide (is_Some (images w !! hashImage (ri_inputImage run)))
            then images w
            else <[hashImage (ri_inputImage run) := ri_inputImage run]> (images w)).
Proof.
  rewrite saveRun_unfold.
  destruct (initDatabase env w) as [[[]|e] w0] eqn:E0; [|discriminate].
  destruct (saveImageDeduped env _ false w0) as [ra w1] eqn:Ea.
  destruct (saveImageDeduped env _ true w1) as [rb w2] eqn:Eb.
  destruct ra as [inputId|]; [|discriminate].
  destruct rb as [outputId|]; [|discriminate].
  destruct (db w2) as [d|] eqn:Ed; [|discriminate]. cbv zeta.
  destruct (persistDatabase env _) as [rp w3] eqn:Ep.
  destruct rp as [[]|]; [|discriminate]. intros [= <- <-].
  apply initDatabase_post in E0 as (Hi0 & Hc0 & Ht0 & _).
  apply saveImageDeduped_dedup_post in Ea as ((Hsq1 & Hd1 & _ & Hc1) & (-> & Hi1) & _).
  apply saveImageDeduped_unique_post in Eb as ((Hsq2 & Hd2 & _ & _) & Hc2 & (-> & Hi2) & _).
  apply persistDatabase_post in Ep as ((Hi3 & Hd3 & _ & Hc3) & Hs3 & _).
  simpl in *.
  exists d, (uniqueKey (dateNow env (clock w1)) (mathRandom36 env (clock w1))),
    (clock w1).
  split; [|split; [|split; [|split; [|split; [|split]]]]]; auto.
  - rewrite <- Ht0. unfold table. now rewrite <- Hd1, <- Hd2, Ed.
  - lia.
  - rewrite Hi3, Hi2, Hi1, Hi0. reflexivity.
Qed.

Lemma saveRun_total run w :
  noFaults env w -> (db w = None -> dbInitPromise w = None) ->
  isOk (fst (saveRun env run w)).
Proof.
  intros Hn Hp. rewrite saveRun_unfold.
  destruct (initDatabase env w) as [r0 w0] eqn:E0.
  apply initDatabase_post in E0 as (_ & Hc0 & _ & Hs0 & _ & _ & Hok0).
  specialize (Hok0 Hn Hp). destruct r0 as [[]|]; [|destruct Hok0].
  assert (noFaults env w0) as Hn0 by (intros n Hle; apply Hn; lia).
  destruct (saveImageDeduped env _ false w0) as [ra w1] eqn:Ea.
  destruct (saveImageDeduped env _ true w1) as [rb w2] eqn:Eb.
  apply saveImageDeduped_dedup_post in Ea as (Hs1 & _ & Hok1).
  pose proof (noFaults_steady _ _ _ Hs1 Hn0) as Hn1.
  apply saveImageDeduped_unique_post in Eb as (Hs2 & _ & _ & Hok2).
  pose proof (noFaults_steady _ _ _ Hs2 Hn1) as Hn2.
  specialize (Hok1 Hn0). specialize (Hok2 Hn1).
  destruct ra; [|destruct Hok1]. destruct rb; [|destruct Hok2].
  destruct (Hs0 I) as [d Hd].
  destruct Hs1 as (_ & Hd1 & _), Hs2 as (_ & Hd2 & _).
  rewrite Hd2, Hd1, Hd. cbv zeta.
  destruct (persistDatabase env _) as [rp w3] eqn:Ep.
  apply persistDatabase_post in Ep as (_ & _ & Hok3).
  destruct rp; [exact I|]. apply Hok3.
  intros n Hle. apply Hn2. exact Hle.
Qed.

Lemma loadImagesForRun_post row w :
  post (loadImagesForRun env row) w (fun r w' =>
    quiet w w'
    /\ (forall p, r = Ok p ->
         p = (orEmpty (images w !! inputImageId row),
              orEmpty (images w !! outputImageId row)))
    /\ (noFaults env w -> isOk r)).
Proof.
  unfold loadImagesForRun. apply post_bind, post_promiseAll2.
  eapply post_mono; [apply loadImage_post|]. intros ra w1 (Hq1 & Hr1 & Hok1).
  eapply post_mono; [apply loadImage_post|]. intros rb w2 (Hq2 & Hr2 & Hok2).
  pose proof (quiet_trans _ _ _ Hq1 Hq2) as Hq.
  assert (noFaults env w -> noFaults env w1) as Hn1.
  { intros H. eapply noFaults_steady; [apply Hq1|exact H]. }
  destruct ra as [oa|ea], rb as [ob|eb].
  - apply post_ret. split; [exact Hq|]. split; [|intros _; exact I].
    intros p [= <-]. simpl. rewrite (Hr1 _ eq_refl), (Hr2 _ eq_refl).
    destruct Hq1 as [-> _]. reflexivity.
  - split; [exact Hq|]. split; [discriminate|]. auto.
  - split; [exact Hq|]. split; [discriminate|]. auto.
  - split; [exact Hq|]. split; [discriminate|]. auto.
Qed.

(** C3, as amended.  [saveRun r] succeeds when no request fails.  When it
    returns [i] and the store held no different content under the content
    key of [r]'s input image, then [getRunById i] returns the row with
    that id, and [loadImagesForRun] on that row, when it succeeds, returns
    the two images of [r]; it succeeds when no request fails.  When the
    text columns of [r] are well-formed (well-formed Unicode without NUL;
    the numbers are finite by their type), the metadata columns of the row
    are those of [r]. *)
Theorem saveRun_roundtrip run w :
  (noFaults env w -> (db w = None -> dbInitPromise w = None) ->
   isOk (fst (saveRun env run w)))
  /\ forall i w1,
       saveRun env run w = (Ok i, w1) ->
       (forall old, images w !! hashImage (ri_inputImage run) = Some old ->
                    old = ri_inputImage run) ->
       exists row,
         getRunById env i w1 = (Ok (Some row), w1)
         /\ id row = i /\ (wellFormedRun run -> metadataOf run row)
         /\ (forall p w2, loadImagesForRun env row w1 = (Ok p, w2) ->
              p = (ri_inputImage run, ri_outputImage run))
         /\ (noFaults env w1 -> isOk (fst (loadImagesForRun env row w1))).
Proof.
  split; [apply saveRun_total|].
  intros i w1 Hsave Hfree.
  apply saveRun_ok in Hsave as (d & outputId & n & _ & Hdb & -> & _ & Hout & _ & Himg).
  destruct (sqlSelectById_sqlInsert run (hashImage (ri_inputImage run)) outputId d)
    as (row & Hsel & Hid & Hin & Ho & Hmeta).
  exists row. split; [|split; [exact Hid|split; [intros _; exact Hmeta|split]]].
  - rewrite getRunById_unfold, (initDatabase_ready _ _ _ Hdb), Hdb, Hsel. reflexivity.
  - intros p w2 E. apply loadImagesForRun_post in E as (_ & Hp & _).
    rewrite (Hp p eq_refl), Hin, Ho, Himg. f_equal.
    + rewrite lookup_insert_ne
        by (rewrite Hout; intros E; symmetry in E;
            exact (hashImage_not_uniqueKey _ _ _ E)).
      case_bool_decide as Hex.
      * destruct Hex as [old Hold]. rewrite Hold. simpl. now apply Hfree.
      * now rewrite lookup_insert_eq.
    + now rewrite lookup_insert_eq.
  - intros Hn. destruct (loadImagesForRun env row w1) as [r w2] eqn:E.
    apply loadImagesForRun_post in E as (_ & _ & Hok). now apply Hok.
Qed.

End SaveProofs.

(** ** The content key is not injective *)

Lemma allAscii_complete c : In c allAscii.
Proof.
  rewrite <- (ascii_nat_embedding c). apply List.in_map, List.in_seq.
  pose proof (nat_ascii_bounded c). lia.
Qed.

Lemma stringsUpTo_complete n s :
  (String.length s <= n)%nat -> In s (stringsUpTo n).
Proof.
  revert s; induction n as [|n IH]; intros [|c s] H;
    cbn [String.length] in H; try lia; try (now left).
  change (stringsUpTo (S n)) with
    (EmptyString :: flat_map (fun c => map (String c) (stringsUpTo n)) allAscii).
  right. apply List.in_flat_map. exists c. split; [apply allAscii_complete|].
  apply List.in_map, IH. lia.
Qed.

Lemma length_repeatA n : String.length (repeatA n) = n.
Proof. induction n; simpl; congruence. Qed.

Lemma length_slice0 n s : (String.length (slice0 n s) <= n)%nat.
Proof. revert s; induction n; intros [|c s]; simpl; auto with lia. specialize (IHn s). lia. Qed.

Lemma length_hashImage data : (String.length (hashImage data) <= 20)%nat.
Proof.
  unfold hashImage. rewrite !append_String, append_Empty.
  pose proof (length_slice0 16 (hashHex data)).
  generalize dependent (slice0 16 (hashHex data)). intros h H. simpl. lia.
Qed.

Lemma wellFormedText_repeatA n : wellFormedText (repeatA n).
Proof. unfold wellFormedText. induction n as [|n IH]; [reflexivity|exact IH]. Qed.

(** There are more images than keys of twenty characters, so two images
    share a key; already two of the images [a], [aa], [aaa], ... do. *)
Lemma hashImage_collision_repeatA :
  ~ (forall m n, hashImage (repeatA m) = hashImage (repeatA n) -> m = n).
Proof.
  intros Hinj.
  pose proof (stringsUpTo_complete 20) as Hall.
  generalize dependent (stringsUpTo 20). intros keys Hall.
  assert (List.NoDup (map (fun n => hashImage (repeatA n))
                        (List.seq 0 (S (length keys))))) as Hnd.
  { apply Finite.Injective_map_NoDup; [exact Hinj|apply List.seq_NoDup]. }
  apply List.NoDup_incl_length with (l' := keys) in Hnd.
  - rewrite List.length_map, List.length_seq in Hnd. lia.
  - intros k Hk. apply List.in_map_iff in Hk as (n & <- & _).
    apply Hall, length_hashImage.
Qed.

Lemma hashImage_not_injective :
  ~ (forall a b, hashImage a = hashImage b -> a = b).
Proof.
  intros Hinj. apply hashImage_collision_repeatA. intros m n E.
  apply Hinj, (f_equal String.length) in E. now rewrite !length_repeatA in E.
Qed.

(** ** Round trip on colliding keys *)

Lemma noFaults_quietEnv w : noFaults quietEnv w.
Proof. intros n _. split; reflexivity. Qed.

(** C3, counterexample.  The round trip cannot hold for every valid
    input: it would make the twenty-character content key injective on the
    images [a], [aa], [aaa], ...  Saving an image [b] and then a different
    image [a] with the same key stores nothing new for [a], and loading the
    second run returns [b]. *)
Lemma saveRun_roundtrip_fails_on_collision : ~ roundTripClaim.
Proof.
  intros Claim. apply hashImage_collision_repeatA. intros m n Hab.
  cut (repeatA m = repeatA n).
  { intros E. apply (f_equal String.length) in E. now rewrite !length_repeatA in E. }
  assert (validRunInsert (sampleRun "t" (repeatA m) "out")) as Hvalid.
  { split; [|split; [apply wellFormedText_repeatA|reflexivity]].
    repeat split; reflexivity. }
  revert Hab Hvalid. generalize (repeatA m) (repeatA n). intros a b Hab Hvalid.
  set (runB := sampleRun "t" b "out"). set (runA := sampleRun "t" a "out").
  (* first run: image b *)
  pose proof (saveRun_total quietEnv runB initialWorld
                (noFaults_quietEnv _) (fun _ => eq_refl)) as Hok1.
  destruct (saveRun quietEnv runB initialWorld) as [[i1|] w1] eqn:E1; [|destruct Hok1].
  assert (reachable quietEnv w1) as Hreach.
  { replace w1 with (runOp quietEnv (OpSaveRun runB) initialWorld)
      by (simpl; now rewrite E1).
    apply reachable_step, reachable_initial. }
  apply saveRun_ok in E1 as (d1 & k1 & n1 & _ & Hdb1 & _ & _ & Hk1 & _ & Himg1).
  simpl in Himg1.
  rewrite bool_decide_eq_false_2 in Himg1
    by (rewrite lookup_empty; apply is_Some_None).
  (* second run: image a *)
  pose proof (saveRun_total quietEnv runA w1 (noFaults_quietEnv _)) as Hok2.
  rewrite Hdb1 in Hok2. specialize (Hok2 (fun E => ltac:(discriminate E))).
  destruct (saveRun quietEnv runA w1) as [[i2|] w2] eqn:E2; [|destruct Hok2].
  pose proof E2 as E2'.
  apply saveRun_ok in E2' as (d2 & k2 & n2 & _ & Hdb2 & Hi2 & _ & Hk2 & _ & Himg2).
  simpl in Himg2.
  assert (images w1 !! hashImage a = Some b) as Hhit.
  { rewrite Hab, Himg1, lookup_insert_ne, lookup_insert_eq; [reflexivity|].
    rewrite Hk1. intros E. symmetry in E. exact (hashImage_not_uniqueKey _ _ _ E). }
  rewrite Hhit in Himg2. rewrite bool_decide_eq_true_2 in Himg2 by eauto.
  destruct (sqlSelectById_sqlInsert runA (hashImage a) k2 d2)
    as (row & Hsel & _ & Hin & _).
  assert (getRunById quietEnv i2 w2 = (Ok (Some row), w2)) as Hget.
  { rewrite getRunById_unfold, (initDatabase_ready _ _ _ Hdb2), Hdb2, Hi2.
    simpl in Hsel |- *. now rewrite Hsel. }
  destruct (loadImagesForRun quietEnv row w2) as [[p|] w3] eqn:E3.
  - destruct (Claim _ _ _ _ _ _ _ _ _ Hvalid Hreach E2 Hget E3) as [_ Hp].
    apply loadImagesForRun_post in E3 as (_ & Hload & _).
    rewrite (Hload p eq_refl), Hin, Himg2 in Hp.
    rewrite lookup_insert_ne, Hhit in Hp.
    + simpl in Hp. now injection Hp as <- _.
    + rewrite Hk2. intros E. symmetry in E. exact (hashImage_not_uniqueKey _ _ _ E).
  - apply loadImagesForRun_post in E3 as (_ & _ & Hok3).
    destruct (Hok3 (noFaults_quietEnv _)).
Qed.

(** ** The two ways of storing a blob *)

Lemma copies_insert_fresh data k (m : gmap string string) :
  m !! k = None -> copies data (<[k:=data]> m) = S (copies data m).
Proof.
  intros Hk. unfold copies.
  rewrite map_filter_insert_True by reflexivity.
  apply map_size_insert_None, map_lookup_filter_None_2. now left.
Qed.

Section BlobProofs.

Variable env : Env.

(** C6, as amended.  Two deduplicating puts of the same bytes succeed when
    no request fails; whenever both succeed they return the same key (the
    content key) and the second stores nothing.  If the content key was
    free before the first call the two calls add exactly one entry, so a
    store that held no copy of the bytes holds exactly one afterwards; if
    the key was taken the store is unchanged. *)
Theorem saveImageDeduped_dedup_twice data w :
  (noFaults env w ->
   isOk (fst (saveImageDeduped env data false w))
   /\ isOk (fst (saveImageDeduped env data false
                   (snd (saveImageDeduped env data false w)))))
  /\ forall k1 w1 k2 w2,
       saveImageDeduped env data false w = (Ok k1, w1) ->
       saveImageDeduped env data false w1 = (Ok k2, w2) ->
       k1 = hashImage data /\ k2 = k1
       /\ images w2 = images w1
       /\ (images w !! k1 = None ->
           images w2 = <[k1:=data]> (images w)
           /\ copies data (images w2) = S (copies data (images w)))
       /\ (is_Some (images w !! k1) -> images w2 = images w).
Proof.
  split.
  - intros Hn.
    destruct (saveImageDeduped env data false w) as [r1 w1] eqn:E1.
    apply saveImageDeduped_dedup_post in E1 as (Hs1 & _ & Hok1).
    split; [now apply Hok1|]. simpl.
    destruct (saveImageDeduped env data false w1) as [r2 w2] eqn:E2.
    apply saveImageDeduped_dedup_post in E2 as (_ & _ & Hok2).
    apply Hok2. eapply noFaults_steady; eauto.
  - intros k1 w1 k2 w2 E1 E2.
    apply saveImageDeduped_dedup_post in E1 as (_ & (-> & Hi1) & _).
    assert (is_Some (images w1 !! hashImage data)) as Hin.
    { rewrite Hi1. case_bool_decide; [assumption|].
      rewrite lookup_insert_eq. eauto. }
    apply saveImageDeduped_dedup_post in E2 as (_ & (-> & Hi2) & _).
    rewrite bool_decide_eq_true_2 in Hi2 by exact Hin.
    split; [reflexivity|]. split; [reflexivity|]. split; [exact Hi2|]. split.
    + intros Hfree. rewrite Hi2, Hi1.
      rewrite bool_decide_eq_false_2 by (rewrite Hfree; apply is_Some_None).
      split; [reflexivity|]. now apply copies_insert_fresh.
    + intros Htaken. rewrite Hi2, Hi1. now rewrite bool_decide_eq_true_2.
Qed.

(** C7, as amended.  Two unique puts of the same bytes succeed when no
    request fails; whenever both succeed, both returned keys resolve to
    the bytes, and the keys are equal exactly when the two calls read the
    same timestamp and the same random suffix. *)
Theorem saveImageDeduped_unique_twice data w :
  (noFaults env w ->
   isOk (fst (saveImageDeduped env data true w))
   /\ isOk (fst (saveImageDeduped env data true
                   (snd (saveImageDeduped env data true w)))))
  /\ forall k1 w1 k2 w2,
       saveImageDeduped env data true w = (Ok k1, w1) ->
       saveImageDeduped env data true w1 = (Ok k2, w2) ->
       images w2 !! k1 = Some data /\ images w2 !! k2 = Some data
       /\ (clock w < clock w1)%nat
       /\ (k1 = k2 <->
           dateNow env (clock w) = dateNow env (clock w1)
           /\ mathRandom36 env (clock w) = mathRandom36 env (clock w1)).
Proof.
  split.
  - intros Hn.
    destruct (saveImageDeduped env data true w) as [r1 w1] eqn:E1.
    apply saveImageDeduped_unique_post in E1 as (Hs1 & _ & _ & Hok1).
    split; [now apply Hok1|]. simpl.
    destruct (saveImageDeduped env data true w1) as [r2 w2] eqn:E2.
    apply saveImageDeduped_unique_post in E2 as (_ & _ & _ & Hok2).
    apply Hok2. eapply noFaults_steady; eauto.
  - intros k1 w1 k2 w2 E1 E2.
    apply saveImageDeduped_unique_post in E1 as (_ & Hc1 & (-> & Hi1) & _).
    apply saveImageDeduped_unique_post in E2 as (_ & _ & (-> & Hi2) & _).
    split; [|split; [|split; [exact Hc1|]]].
    + rewrite Hi2, lookup_insert. case_decide; [reflexivity|].
      now rewrite Hi1, lookup_insert_eq.
    + now rewrite Hi2, lookup_insert_eq.
    + split.
      * intros E. now apply uniqueKey_inj in E.
      * intros [-> ->]. reflexivity.
Qed.

End BlobProofs.

(** C6, counterexample.  In a store that already holds ["AAA"] under a
    unique key, two deduplicating puts of ["AAA"] return the same key, and
    the store then holds two copies of ["AAA"], not one. *)
Lemma saveImageDeduped_dedup_twice_two_copies :
  reachable quietEnv storeWithOutputAAA
  /\ exists k w1 w2,
       saveImageDeduped quietEnv "AAA" false storeWithOutputAAA = (Ok k, w1)
       /\ saveImageDeduped quietEnv "AAA" false w1 = (Ok k, w2)
       /\ copies "AAA" (images w2) = 2%nat.
Proof.
  split; [apply reachable_step, reachable_initial|].
  exists (hashImage "AAA"),
    (snd (saveImageDeduped quietEnv "AAA" false storeWithOutputAAA)),
    (snd (saveImageDeduped quietEnv "AAA" false
            (snd (saveImageDeduped quietEnv "AAA" false storeWithOutputAAA)))).
  split; [|split]; vm_compute; reflexivity.
Qed.

(** C7, counterexample.  When [Date.now()] and the random suffix repeat,
    two unique puts of the same bytes return the same key. *)
Lemma saveImageDeduped_unique_twice_same_key :
  exists k w1 w2,
    saveImageDeduped frozenEnv "AAA" true initialWorld = (Ok k, w1)
    /\ saveImageDeduped frozenEnv "AAA" true w1 = (Ok k, w2).
Proof.
  exists "img_1700000000000_k3j2x9q",
    (snd (saveImageDeduped frozenEnv "AAA" true initialWorld)),
    (snd (saveImageDeduped frozenEnv "AAA" true
            (snd (saveImageDeduped frozenEnv "AAA" true initialWorld)))).
  split; vm_compute; reflexivity.
Qed.

(** ** [getRuns] *)

Lemma string_ltb_le a b : String.ltb a b = true -> (a ≤ b)%string.
Proof.
  unfold String.le, String.leb, String.ltb.
  destruct (String.compare a b); simpl; auto; discriminate.
Qed.

Lemma string_nltb_le a b : String.ltb a b = false -> (b ≤ a)%string.
Proof.
  unfold String.le, String.leb, String.ltb. rewrite (String.compare_antisym b a).
  destruct (String.compare a b); simpl; auto; discriminate.
Qed.

Lemma insertDesc_perm r l : Permutation (insertDesc r l) (r :: l).
Proof.
  induction l as [|x l IH]; simpl; [reflexivity|].
  destruct (String.ltb (createdAt r) (createdAt x)); [|reflexivity].
  rewrite IH. apply perm_swap.
Qed.

Lemma insertDesc_sorted r l :
  StronglySorted createdDesc l -> StronglySorted createdDesc (insertDesc r l).
Proof.
  induction 1 as [|x l Hs IH Hx]; simpl.
  - repeat constructor.
  - destruct (String.ltb (createdAt r) (createdAt x)) eqn:E.
    + constructor; [exact IH|].
      rewrite insertDesc_perm. constructor; [|exact Hx].
      apply string_ltb_le, E.
    + apply string_nltb_le in E. constructor; [now constructor|].
      constructor; [exact E|].
      eapply Forall_impl; [exact Hx|]. intros y Hy. unfold createdDesc in *.
      etrans; eassumption.
Qed.

Lemma sqlSelectAllOrdered_perm d : Permutation (sqlSelectAllOrdered d) (rows d).
Proof.
  unfold sqlSelectAllOrdered. induction (rows d) as [|r l IH]; simpl; [reflexivity|].
  rewrite insertDesc_perm. now constructor.
Qed.

Lemma sqlSelectAllOrdered_sorted d : StronglySorted createdDesc (sqlSelectAllOrdered d).
Proof.
  unfold sqlSelectAllOrdered. induction (rows d) as [|r l IH]; simpl.
  - constructor.
  - now apply insertDesc_sorted.
Qed.

Section GetRunsProofs.

Variable env : Env.

(** C2, as amended.  [getRuns] succeeds when no request fails, and what it
    returns is the rows of the table, all of them, ordered by [created_at]
    descending: of two returned rows the later-listed one is never newer.
    Nothing is promised about rows with equal [created_at]. *)
Theorem getRuns_sorted_by_createdAt w :
  (noFaults env w -> (db w = None -> dbInitPromise w = None) ->
   isOk (fst (getRuns env w)))
  /\ forall l w', getRuns env w = (Ok l, w') ->
       Permutation l (table w) /\ StronglySorted createdDesc l.
Proof.
  rewrite getRuns_unfold.
  destruct (initDatabase env w) as [r0 w0] eqn:E0.
  apply initDatabase_post in E0 as (_ & _ & Ht & Hs & _ & _ & Hok).
  split.
  - intros Hn Hp. specialize (Hok Hn Hp). destruct r0 as [[]|]; [|destruct Hok].
    destruct (Hs I) as [d Hd]. rewrite Hd. exact I.
  - intros l w'. destruct r0 as [[]|]; [|discriminate].
    destruct (Hs I) as [d Hd]. rewrite Hd. intros [= <- <-].
    split; [|apply sqlSelectAllOrdered_sorted].
    rewrite <- Ht. unfold table. rewrite Hd. apply sqlSelectAllOrdered_perm.
Qed.

End GetRunsProofs.

(** C2, counterexample.  With two runs of equal [created_at], [getRuns]
    lists id 1 before id 2: equal timestamps do not fall back to id
    descending. *)
Lemma getRuns_ties_not_by_id_descending :
  reachable quietEnv twoRunsSameInstant
  /\ exists r1 r2 w',
       getRuns quietEnv twoRunsSameInstant = (Ok [r1; r2], w')
       /\ id r1 = 1 /\ id r2 = 2
       /\ ~ createdDescThenIdDesc r1 r2.
Proof.
  split; [apply reachable_step, reachable_step, reachable_initial|].
  destruct (getRuns quietEnv twoRunsSameInstant) as [res w'] eqn:E.
  vm_compute in E. injection E as <- <-.
  eexists _, _, _. split; [reflexivity|]. split; [reflexivity|].
  split; [reflexivity|].
  intros [H|[_ H]]; vm_compute in H; discriminate H.
Qed.

(** ** What one call can change *)

Lemma snapshotRows_sqlite w w' : sqlite w' = sqlite w -> snapshotRows w' = snapshotRows w.
Proof. unfold snapshotRows. now intros ->. Qed.

Lemma unchanged_trans w1 w2 w3 : unchanged w1 w2 -> unchanged w2 w3 -> unchanged w1 w3.
Proof.
  intros (Hi & Ht & Hc & Hs) (Hi' & Ht' & Hc' & Hs').
  split; [congruence|]. split; [congruence|]. split; [lia|].
  destruct Hs' as [E|E]; [now left|]. rewrite E, Ht'.
  destruct Hs as [E'|E']; [now left|now right].
Qed.

Lemma quiet_unchanged w w' : quiet w w' -> unchanged w w'.
Proof.
  intros Hq. pose proof (quiet_table _ _ Hq). destruct Hq as (?&Hs&_&_&?).
  pose proof (snapshotRows_sqlite _ _ Hs). unfold unchanged; auto.
Qed.

Section StepProofs.

Variable env : Env.

Lemma persistDatabase_snapshot w :
  post (persistDatabase env) w (fun _ w' =>
    snapshotRows w' = table w' \/ snapshotRows w' = snapshotRows w).
Proof.
  intros r w' E. apply persistDatabase_post in E as ((_ & Hd & _) & Hs & _).
  destruct r as [[]|], (db w) as [d|] eqn:Ed;
    try (right; now apply snapshotRows_sqlite).
  left. unfold snapshotRows, table. now rewrite Hs, Hd.
Qed.

Lemma initBody_snapshot w :
  post (initBody env) w (fun _ w' =>
    snapshotRows w' = table w' \/ snapshotRows w' = snapshotRows w).
Proof.
  unfold initBody. apply post_bind.
  eapply post_mono; [apply initSqlJs_post|]. intros r1 w1 [(_ & Hs1 & _) _].
  destruct r1 as [[]|e]; [|right; now apply snapshotRows_sqlite].
  apply post_bind. eapply post_mono; [apply loadFromIndexedDB_post|].
  intros r2 w2 ((_ & Hs2 & _) & Hr2 & _).
  destruct r2 as [existing|e]; [|right; apply snapshotRows_sqlite; congruence].
  apply post_bind. intros r3 w3 [= <- <-].
  eapply post_mono; [apply persistDatabase_snapshot|].
  intros r4 w4 [H|H]; [now left|right].
  rewrite H. apply snapshotRows_sqlite. simpl. congruence.
Qed.

Lemma initDatabase_snapshot w :
  post (initDatabase env) w (fun _ w' =>
    snapshotRows w' = table w' \/ snapshotRows w' = snapshotRows w).
Proof.
  unfold initDatabase. intros r w'. destruct (db w).
  { intros [= <- <-]. now right. }
  destruct (dbInitPromise w) as [[[]|e]|]; try (intros [= <- <-]; now right).
  destruct (initBody env w) as [r0 w0] eqn:E0. intros [= <- <-].
  apply initBody_snapshot in E0. exact E0.
Qed.

Lemma initDatabase_unchanged w : unchanged w (snd (initDatabase env w)).
Proof.
  destruct (initDatabase env w) as [r w'] eqn:E.
  pose proof (initDatabase_snapshot _ _ _ E).
  apply initDatabase_post in E as (?&?&?&_). unfold unchanged; auto.
Qed.

Lemma persistDatabase_unchanged w : unchanged w (snd (persistDatabase env w)).
Proof.
  destruct (persistDatabase env w) as [r w'] eqn:E.
  pose proof (persistDatabase_snapshot _ _ _ E).
  apply persistDatabase_table in E as (?&?&_&?). unfold unchanged; auto.
Qed.

Lemma getRuns_unchanged w : unchanged w (snd (getRuns env w)).
Proof.
  rewrite getRuns_unfold. pose proof (initDatabase_unchanged w) as H.
  destruct (initDatabase env w) as [[[]|] w0]; [|exact H].
  destruct (db w0); exact H.
Qed.

Lemma getRunById_unchanged i w : unchanged w (snd (getRunById env i w)).
Proof.
  rewrite getRunById_unfold. pose proof (initDatabase_unchanged w) as H.
  destruct (initDatabase env w) as [[[]|] w0]; [|exact H].
  destruct (db w0); exact H.
Qed.

Lemma loadImage_unchanged imageId w : unchanged w (snd (loadImage env imageId w)).
Proof.
  destruct (loadImage env imageId w) as [r w'] eqn:E.
  apply loadImage_post in E as (Hq & _). now apply quiet_unchanged.
Qed.

Lemma loadImagesForRun_unchanged run w :
  unchanged w (snd (loadImagesForRun env run w)).
Proof.
  destruct (loadImagesForRun env run w) as [r w'] eqn:E.
  apply loadImagesForRun_post in E as (Hq & _). now apply quiet_unchanged.
Qed.

Lemma getRunWithImages_unchanged i w :
  unchanged w (snd (getRunWithImages env i w)).
Proof.
  unfold getRunWithImages, bind.
  pose proof (getRunById_unchanged i w) as H.
  destruct (getRunById env i w) as [[[r|]|] w0]; try exact H.
  simpl in H.
  change (promiseAll2 (loadImage env (inputImageId r)) (loadImage env (outputImageId r)) w0)
    with ((promiseAll2 (loadImage env (inputImageId r))
                       (loadImage env (outputImageId r))) w0).
  pose proof (loadImagesForRun_unchanged r w0) as H'.
  unfold loadImagesForRun, bind in H'.
  destruct (promiseAll2 _ _ w0) as [[p|] w1]; simpl in *;
    eapply unchanged_trans; eauto.
Qed.

Lemma updateRunComment_images i comment w :
  images (snd (updateRunComment env i comment w)) = images w
  /\ (clock w <= clock (snd (updateRunComment env i comment w)))%nat.
Proof.
  rewrite updateRunComment_unfold.
  destruct (initDatabase env w) as [r0 w0] eqn:E0.
  apply initDatabase_post in E0 as (Hi & Hc & _).
  destruct r0 as [[]|]; [|auto]. destruct (db w0); [|auto].
  destruct (persistDatabase env _) as [rp w3] eqn:Ep.
  apply persistDatabase_table in Ep as (_ & Hi3 & _ & Hc3). simpl in *.
  rewrite Hi3, <- Hi. split; [reflexivity|lia].
Qed.

(** [saveRun] removes no blob and appends at most one row, whose two keys
    are then present. *)
Lemma saveRun_step run w :
  let w' := snd (saveRun env run w) in
  (clock w <= clock w')%nat
  /\ (forall k, is_Some (images w !! k) -> is_Some (images w' !! k))
  /\ (table w' = table w
      \/ exists row n,
           table w' = table w ++ [row]
           /\ inputImageId row = hashImage (ri_inputImage run)
           /\ outputImageId row = uniqueKey (dateNow env n) (mathRandom36 env n)
           /\ (clock w <= n < clock w')%nat
           /\ is_Some (images w' !! inputImageId row)
           /\ is_Some (images w' !! outputImageId row)).
Proof.
  intros w'. subst w'. rewrite saveRun_unfold.
  destruct (initDatabase env w) as [r0 w0] eqn:E0.
  apply initDatabase_post in E0 as (Hi0 & Hc0 & Ht0 & _).
  destruct r0 as [[]|]; cycle 1.
  { simpl. rewrite Hi0. auto. }
  destruct (saveImageDeduped env _ false w0) as [ra w1] eqn:Ea.
  destruct (saveImageDeduped env _ true w1) as [rb w2] eqn:Eb.
  apply saveImageDeduped_dedup_post in Ea as ((Hsq1 & Hd1 & _ & Hc1) & Ha & _).
  apply saveImageDeduped_unique_post in Eb as ((Hsq2 & Hd2 & _ & _) & Hc2 & Hb & _).
  assert (forall k, is_Some (images w !! k) -> is_Some (images w1 !! k)) as Hk1.
  { intros k Hk. rewrite <- Hi0 in Hk. destruct ra as [ka|]; [|now rewrite Ha].
    destruct Ha as [_ ->]. case_bool_decide; [exact Hk|].
    rewrite lookup_insert. case_decide; eauto. }
  assert (forall k, is_Some (images w1 !! k) -> is_Some (images w2 !! k)) as Hk2.
  { intros k Hk. destruct rb as [kb|]; [|now rewrite Hb].
    destruct Hb as [_ ->]. rewrite lookup_insert. case_decide; eauto. }
  assert (table w2 = table w) as Ht2.
  { rewrite <- Ht0. unfold table. now rewrite Hsq2, Hsq1, Hd2, Hd1. }
  destruct ra as [ka|]; cycle 1.
  { simpl. split; [lia|]. split; [auto|]. left. exact Ht2. }
  destruct rb as [kb|]; cycle 1.
  { simpl. split; [lia|]. split; [auto|]. left. exact Ht2. }
  destruct (db w2) as [d|] eqn:Ed; cycle 1.
  { simpl. split; [lia|]. split; [auto|]. left. exact Ht2. }
  cbv zeta. destruct (persistDatabase env _) as [rp w3] eqn:Ep.
  apply persistDatabase_table in Ep as (Ht3 & Hi3 & _ & Hc3). simpl in *.
  destruct Ha as [-> Ha], Hb as [-> Hb].
  assert (images w3 !! uniqueKey (dateNow env (clock w1)) (mathRandom36 env (clock w1))
          = Some (ri_outputImage run)) as Hout.
  { now rewrite Hi3, Hb, lookup_insert_eq. }
  assert (is_Some (images w1 !! hashImage (ri_inputImage run))) as Hin.
  { rewrite Ha. case_bool_decide; [assumption|]. rewrite lookup_insert_eq. eauto. }
  split; [lia|]. split; [intros k Hk; rewrite Hi3; auto|].
  right. eexists _, (clock w1). split.
  { rewrite Ht3. unfold table at 1. simpl. rewrite <- Ht2. unfold table.
    rewrite Ed. reflexivity. }
  simpl. split; [reflexivity|]. split; [reflexivity|]. split; [lia|].
  split; [rewrite Hi3; auto|rewrite Hout; eauto].
Qed.

Lemma unchanged_tick w : unchanged w (tick w).
Proof. unfold unchanged. simpl. auto. Qed.

(** Where [seedSampleDataIfEmpty] leaves the state: where [getRuns]
    leaves it, or two fetches later, or where a [saveRun] leaves it after
    the two fetches and the reading of the date. *)
Lemma seedSampleDataIfEmpty_state site w :
  snd (seedSampleDataIfEmpty env site w) = snd (getRuns env w)
  \/ snd (seedSampleDataIfEmpty env site w) = tick (tick (snd (getRuns env w)))
  \/ exists run,
       snd (seedSampleDataIfEmpty env site w)
       = snd (saveRun env run (tick (tick (tick (snd (getRuns env w)))))).
Proof.
  unfold seedSampleDataIfEmpty, bind.
  destruct (getRuns env w) as [[[|r l]|e] w0]; simpl; auto.
  unfold fetchImageAsDataUrl, newDateISO.
  destruct (fetchedDataUrl site _ (clock w0)) as [inputImage|] eqn:Ei;
    [|destruct (fetchedDataUrl site _ _); auto].
  destruct (fetchedDataUrl site _ (S (clock w0))) as [outputImage|] eqn:Eo; auto.
  right. right. eexists.
  destruct (saveRun env _ _) as [[i|e] w4] eqn:Es; simpl; rewrite Es; reflexivity.
Qed.

(** What [getRuns], the passing of time and [saveRun] keep, the seeding
    keeps. *)
Lemma seedSampleDataIfEmpty_keeps (R : World -> World -> Prop) :
  (forall a b c, R a b -> R b c -> R a c) ->
  (forall w, R w (snd (getRuns env w))) ->
  (forall w, R w (tick w)) ->
  (forall run w, R w (snd (saveRun env run w))) ->
  forall site w, R w (snd (seedSampleDataIfEmpty env site w)).
Proof.
  intros Htrans Hget Htick Hsave site w.
  destruct (seedSampleDataIfEmpty_state site w) as [-> | [-> | [run ->]]].
  - apply Hget.
  - eauto.
  - eapply Htrans; [apply Hget|]. eapply Htrans; [apply Htick|].
    eapply Htrans; [apply Htick|]. eapply Htrans; [apply Htick|]. apply Hsave.
Qed.

End StepProofs.

(** ** [deleteRun] *)

Lemma filter_ext_bool {A} (f g : A -> bool) l :
  (forall x, f x = g x) -> List.filter f l = List.filter g l.
Proof. intros H. induction l as [|x l IH]; simpl; [reflexivity|]. now rewrite H, IH. Qed.

Lemma sqlDelete_spec i d :
  sqlDelete i d = {| rows := List.filter (fun r' => bool_decide (id r' <> i)) (rows d);
                     sqlite_sequence := sqlite_sequence d;
                     last_insert_rowid := last_insert_rowid d |}.
Proof.
  unfold sqlDelete. f_equal. apply filter_ext_bool. intros r.
  destruct (Z.eqb_spec (id r) i); simpl.
  - now rewrite bool_decide_eq_false_2 by tauto.
  - now rewrite bool_decide_eq_true_2.
Qed.

Lemma sqlCountOtherInput_spec key i d :
  sqlCountOtherInput key i d
  = Z.of_nat (length (List.filter
      (fun r' => bool_decide (id r' <> i /\ inputImageId r' = key)) (rows d))).
Proof.
  unfold sqlCountOtherInput. do 2 f_equal. apply filter_ext_bool. intros r.
  destruct (Z.eqb_spec (id r) i); simpl; case_bool_decide; simpl.
  - rewrite bool_decide_eq_false_2; tauto.
  - rewrite bool_decide_eq_false_2; tauto.
  - rewrite bool_decide_eq_true_2; tauto.
  - rewrite bool_decide_eq_false_2; tauto.
Qed.

Lemma sqlCountOtherInput_zero key i d :
  sqlCountOtherInput key i d = 0 <->
  (forall r, In r (rows d) -> id r <> i -> inputImageId r <> key).
Proof.
  rewrite sqlCountOtherInput_spec. split.
  - intros H r Hr Hi Hk.
    assert (In r (List.filter
              (fun r' => bool_decide (id r' <> i /\ inputImageId r' = key)) (rows d))) as Hin.
    { apply List.filter_In. split; [exact Hr|]. now apply bool_decide_eq_true_2. }
    destruct (List.filter _ (rows d)); [destruct Hin|]. simpl in H. lia.
  - intros H. induction (rows d) as [|r l IH]; simpl; [reflexivity|].
    rewrite bool_decide_eq_false_2.
    + apply IH. intros r' Hr'. apply H. now right.
    + intros [Hi Hk]. exact (H r (or_introl eq_refl) Hi Hk).
Qed.

Section DeleteProofs.

Variable env : Env.

(** The blob deletions: a blob can only disappear, and only the output
    blob of the row or, when no other row uses it, its input blob. *)
Lemma deleteBlobs_post r n w :
  post (deleteBlobs env r n) w (fun res w' =>
    steady w w'
    /\ (forall k, images w' !! k = images w !! k
                  \/ (images w' !! k = None
                      /\ (k = outputImageId r \/ (k = inputImageId r /\ n = 0))))
    /\ (isOk res ->
        images w' = if n =? 0
                    then delete (inputImageId r) (delete (outputImageId r) (images w))
                    else delete (outputImageId r) (images w))
    /\ (noFaults env w -> isOk res)).
Proof.
  unfold deleteBlobs. destruct (Z.eqb_spec n 0) as [Hn|Hn].
  - apply post_bind, post_promiseAll2.
    eapply post_mono; [apply deleteImage_post|]. intros ra w1 (Hs1 & Hi1 & Hok1).
    eapply post_mono; [apply deleteImage_post|]. intros rb w2 (Hs2 & Hi2 & Hok2).
    pose proof (steady_trans _ _ _ Hs1 Hs2) as Hs.
    assert (forall k, images w2 !! k = images w !! k
                      \/ (images w2 !! k = None
                          /\ (k = outputImageId r \/ (k = inputImageId r /\ n = 0)))) as Hk.
    { intros k. rewrite Hi2.
      destruct rb; [rewrite lookup_delete; case_decide; [right; subst; auto|]|];
        rewrite Hi1; (destruct ra; [rewrite lookup_delete; case_decide;
                                      [right; subst; auto|]|]); auto. }
    assert (noFaults env w -> isOk ra /\ isOk rb) as Hok.
    { intros H. split; [auto|]. apply Hok2. eapply noFaults_steady; eauto. }
    destruct ra as [[]|ea], rb as [[]|eb].
    + apply post_ret. split; [exact Hs|]. split; [exact Hk|].
      split; [intros _; now rewrite Hi2, Hi1|intros _; exact I].
    + split; [exact Hs|]. split; [exact Hk|]. split; [intros []|]. intros H. now apply Hok.
    + split; [exact Hs|]. split; [exact Hk|]. split; [intros []|]. intros H. now apply Hok.
    + split; [exact Hs|]. split; [exact Hk|]. split; [intros []|]. intros H. now apply Hok.
  - eapply post_mono; [apply deleteImage_post|]. intros ra w1 (Hs1 & Hi1 & Hok1).
    split; [exact Hs1|]. split; [|split; [|exact Hok1]].
    + intros k. rewrite Hi1. destruct ra; [|auto].
      rewrite lookup_delete. case_decide; [right; subst; auto|auto].
    + intros H. destruct ra; [exact Hi1|destruct H].
Qed.

(** What [deleteRun] can change: nothing, or the rows with the given id
    and the blobs of the first of them. *)
Lemma deleteRun_step i w :
  let w' := snd (deleteRun env i w) in
  (clock w <= clock w')%nat
  /\ ((table w' = table w /\ images w' = images w)
      \/ exists r,
           List.find (fun r => id r =? i) (table w) = Some r
           /\ table w' = List.filter (fun r => negb (id r =? i)) (table w)
           /\ forall k, images w' !! k = images w !! k
                        \/ (images w' !! k = None
                            /\ (k = outputImageId r
                                \/ (k = inputImageId r
                                    /\ forall r2, In r2 (table w) -> id r2 <> i ->
                                                  inputImageId r2 <> inputImageId r)))).
Proof.
  intros w'. subst w'. rewrite deleteRun_unfold.
  destruct (initDatabase env w) as [r0 w0] eqn:E0.
  apply initDatabase_post in E0 as (Hi0 & Hc0 & Ht0 & _).
  destruct r0 as [[]|]; [|simpl; auto].
  destruct (db w0) as [d|] eqn:Ed; [|simpl; auto].
  assert (rows d = table w) as Hrows.
  { rewrite <- Ht0. unfold table. now rewrite Ed. }
  unfold sqlSelectById. rewrite Hrows.
  destruct (List.find _ (table w)) as [r|] eqn:Ef; [|simpl; auto].
  cbv zeta.
  destruct (persistDatabase env _) as [rp w1] eqn:Ep.
  apply persistDatabase_table in Ep as (Ht1 & Hi1 & _ & Hc1).
  unfold table at 2 in Ht1. simpl in Ht1, Hi1, Hc1. rewrite Hrows in Ht1.
  destruct rp as [[]|].
  - destruct (deleteBlobs env r _ w1) as [rb w2] eqn:Eb.
    apply deleteBlobs_post in Eb as ((Hsq & Hdb & _ & Hc2) & Hk & _). simpl.
    split; [lia|]. right. exists r. split; [reflexivity|]. split.
    + rewrite <- Ht1. unfold table. now rewrite Hsq, Hdb.
    + intros k. destruct (Hk k) as [E|[E Hwhich]].
      * left. now rewrite E, Hi1, Hi0.
      * right. split; [exact E|]. destruct Hwhich as [->|[-> Hz]]; [now left|].
        right. split; [reflexivity|]. rewrite <- Hrows.
        now apply sqlCountOtherInput_zero.
  - simpl. split; [lia|]. right. exists r. split; [reflexivity|].
    split; [exact Ht1|]. intros k. left. now rewrite Hi1, Hi0.
Qed.

End DeleteProofs.

(** ** The invariant of the store *)

Section InvariantProofs.

Variable env : Env.

Lemma outputDrawn_mono t t' r :
  (t <= t')%nat -> outputDrawn env t r -> outputDrawn env t' r.
Proof. intros Ht (n & Hn & E). exists n. split; [lia|exact E]. Qed.

Lemma shaped_keys_differ r1 r2 t :
  inputShaped r1 -> outputDrawn env t r2 -> inputImageId r1 <> outputImageId r2.
Proof.
  intros [data ->] (n & _ & ->). apply hashImage_not_uniqueKey.
Qed.

Lemma TableInv_initial : TableInv env initialWorld.
Proof.
  split; [intros r []|]. intros _. split; [intros r1 r2 []|intros r []].
Qed.

(** The invariant looks at the rows, at which keys are present, and at
    how far the clock is. *)
Lemma rowsInv_mono t t' (blobs blobs' : gmap string string) l :
  (t <= t')%nat ->
  (forall k, is_Some (blobs !! k) -> is_Some (blobs' !! k)) ->
  rowsInv env t blobs l -> rowsInv env t' blobs' l.
Proof.
  intros Ht Hk [Hshape Hrest]. split.
  - intros r Hr. destruct (Hshape r Hr) as [H1 H2].
    split; [exact H1|]. eapply outputDrawn_mono; eauto.
  - intros Hu. destruct (Hrest Hu) as [Hd Hb]. split; [exact Hd|].
    intros r Hr. destruct (Hb r Hr). split; auto.
Qed.

Lemma TableInv_frame w w' :
  images w' = images w -> table w' = table w -> (clock w <= clock w')%nat ->
  TableInv env w -> TableInv env w'.
Proof.
  intros Hi Ht Hc Hinv. unfold TableInv. rewrite Ht.
  apply (rowsInv_mono (clock w) _ (images w)); [exact Hc| |exact Hinv].
  intros k. now rewrite Hi.
Qed.

Lemma TableInv_saveRun run w :
  TableInv env w -> TableInv env (snd (saveRun env run w)).
Proof.
  intros [Hshape Hrest].
  destruct (saveRun_step env run w) as (Hc & Hkeep & Htab).
  set (w' := snd (saveRun env run w)) in *.
  assert (forall r, In r (table w) -> blobsPresent (images w) r ->
                    blobsPresent (images w') r) as Hpres.
  { intros r _ [H1 H2]. split; auto. }
  destruct Htab as [Ht | (row & n & Ht & Hin & Hout & Hn & Hbin & Hbout)].
  - unfold TableInv, rowsInv. rewrite Ht. split.
    + intros r Hr. destruct (Hshape r Hr) as [H1 H2].
      split; [exact H1|]. eapply outputDrawn_mono; eauto.
    + intros Hu. destruct (Hrest Hu) as [Hd Hb]. split; [exact Hd|]. auto.
  - assert (inputShaped row /\ outputDrawn env (clock w') row) as Hrow.
    { split; [eexists; exact Hin|]. exists n. split; [lia|exact Hout]. }
    unfold TableInv, rowsInv. rewrite Ht. split.
    + intros r Hr. apply List.in_app_or in Hr as [Hr|[<-|[]]]; [|exact Hrow].
      destruct (Hshape r Hr) as [H1 H2].
      split; [exact H1|]. eapply outputDrawn_mono; eauto.
    + intros Hu. destruct (Hrest Hu) as [Hd Hb]. split.
      * assert (forall r, In r (table w) -> outputImageId r <> outputImageId row) as Hnew.
        { intros r Hr E. destruct (Hshape r Hr) as [_ (m & Hm & Em)].
          rewrite Em, Hout in E. apply uniqueKey_inj in E as [E1 E2].
          pose proof (Hu _ _ E1 E2). lia. }
        intros r1 r2 H1 H2 E.
        apply List.in_app_or in H1 as [H1|[<-|[]]];
          apply List.in_app_or in H2 as [H2|[<-|[]]]; auto.
        -- exfalso. exact (Hnew _ H1 E).
        -- exfalso. symmetry in E. exact (Hnew _ H2 E).
      * intros r Hr. apply List.in_app_or in Hr as [Hr|[<-|[]]]; [auto|].
        split; assumption.
Qed.

Lemma TableInv_updateRunComment i comment w :
  TableInv env w -> TableInv env (snd (updateRunComment env i comment w)).
Proof.
  intros Hinv.
  destruct (updateRunComment_images env i comment w) as [Hi Hc].
  destruct (updateRunComment_table env i comment w) as [[_ Ht] | Ht].
  { now apply (TableInv_frame w). }
  destruct Hinv as [Hshape Hrest]. unfold TableInv, rowsInv. rewrite Ht, Hi.
  assert (forall r', In r' (map (fun r => if id r =? i then setHumanComment comment r
                                           else r) (table w)) ->
            exists r, In r (table w) /\ id r' = id r
                      /\ inputImageId r' = inputImageId r
                      /\ outputImageId r' = outputImageId r) as Hmap.
  { intros r' Hr'. apply List.in_map_iff in Hr' as (r & <- & Hr).
    exists r. split; [exact Hr|]. destruct (id r =? i); auto. }
  split.
  - intros r' Hr'. destruct (Hmap r' Hr') as (r & Hr & _ & Hin & Hout).
    destruct (Hshape r Hr) as [[data H1] (n & Hn & H2)]. split.
    + exists data. congruence.
    + exists n. split; [lia|congruence].
  - intros Hu. destruct (Hrest Hu) as [Hd Hb]. split.
    + intros r1' r2' H1 H2 E.
      destruct (Hmap r1' H1) as (r1 & Hr1 & Hid1 & _ & Ho1).
      destruct (Hmap r2' H2) as (r2 & Hr2 & Hid2 & _ & Ho2).
      rewrite Hid1, Hid2. apply Hd; auto. congruence.
    + intros r' Hr'. destruct (Hmap r' Hr') as (r & Hr & _ & Hin & Hout).
      destruct (Hb r Hr) as [H1 H2]. unfold blobsPresent. now rewrite Hin, Hout.
Qed.

Lemma TableInv_deleteRun i w :
  TableInv env w -> TableInv env (snd (deleteRun env i w)).
Proof.
  intros Hinv.
  destruct (deleteRun_step env i w) as (Hc & Hstep).
  set (w' := snd (deleteRun env i w)) in *.
  destruct Hstep as [[Ht Hi] | (r & Hfind & Ht & Hk)].
  { now apply (TableInv_frame w). }
  destruct Hinv as [Hshape Hrest].
  apply List.find_some in Hfind as [Hr Hid]. apply Z.eqb_eq in Hid.
  assert (forall r2, In r2 (table w') -> In r2 (table w) /\ id r2 <> i) as Hsub.
  { intros r2 H2. rewrite Ht in H2. apply List.filter_In in H2 as [H2 Hne].
    split; [exact H2|]. intros E. apply Z.eqb_eq in E. now rewrite E in Hne. }
  split.
  - intros r2 H2. destruct (Hsub r2 H2) as [H2' _].
    destruct (Hshape r2 H2') as [H1 Hd]. split; [exact H1|].
    eapply outputDrawn_mono; eauto.
  - intros Hu. destruct (Hrest Hu) as [Hd Hb]. split.
    + intros r1 r2 H1 H2. apply Hd; [apply (Hsub r1 H1)|apply (Hsub r2 H2)].
    + intros r2 H2. destruct (Hsub r2 H2) as [H2' Hne].
      destruct (Hb r2 H2') as [Hbin Hbout].
      destruct (Hshape r2 H2') as [Hs2 Hd2], (Hshape r Hr) as [Hs Hdr].
      split.
      * destruct (Hk (inputImageId r2)) as [-> | [_ [E | [E Hnone]]]]; auto.
        -- exfalso. exact (shaped_keys_differ _ _ _ Hs2 Hdr E).
        -- exfalso. exact (Hnone r2 H2' Hne E).
      * destruct (Hk (outputImageId r2)) as [-> | [_ [E | [E _]]]]; auto.
        -- exfalso. apply Hne. rewrite <- Hid. now apply Hd.
        -- exfalso. symmetry in E. exact (shaped_keys_differ _ _ _ Hs Hd2 E).
Qed.

(** *** The snapshot a reload starts from *)

Lemma saveRun_snapshot run w : snapshotStep w (snd (saveRun env run w)).
Proof.
  destruct (saveRun_step env run w) as (_ & Hkeep & _).
  assert (snapshotRows (snd (saveRun env run w)) = table (snd (saveRun env run w))
          \/ snapshotRows (snd (saveRun env run w)) = snapshotRows w
          \/ snapshotRows (snd (saveRun env run w)) = table w) as H.
  { rewrite saveRun_unfold.
    pose proof (initDatabase_unchanged env w) as (_ & Ht0 & _ & Hs0).
    destruct (initDatabase env w) as [r0 w0]. simpl in Ht0, Hs0.
    assert (snapshotRows w0 = snapshotRows w \/ snapshotRows w0 = table w) as H0.
    { destruct Hs0 as [E|E]; [right; congruence|now left]. }
    destruct r0 as [[]|]; [|simpl; now right].
    destruct (saveImageDeduped env _ false w0) as [ra w1] eqn:Ea.
    destruct (saveImageDeduped env _ true w1) as [rb w2] eqn:Eb.
    apply saveImageDeduped_dedup_post in Ea as ((Hsq1 & _) & _).
    apply saveImageDeduped_unique_post in Eb as ((Hsq2 & _) & _).
    assert (snapshotRows w2 = snapshotRows w0) as H2.
    { apply snapshotRows_sqlite. congruence. }
    rewrite <- H2 in H0.
    destruct ra as [ka|]; [|simpl; now right].
    destruct rb as [kb|]; [|simpl; now right].
    destruct (db w2) as [d|]; [|simpl; now right].
    cbv zeta. destruct (persistDatabase env _) as [rp w3] eqn:Ep.
    apply persistDatabase_snapshot in Ep as [E|E]; simpl; [now left|right].
    rewrite E. exact H0. }
  destruct H as [H|H]; [now left|right]. split; [exact H|exact Hkeep].
Qed.

Lemma updateRunComment_snapshot i comment w :
  snapshotStep w (snd (updateRunComment env i comment w)).
Proof.
  destruct (updateRunComment_images env i comment w) as [Hi _].
  assert (snapshotRows (snd (updateRunComment env i comment w))
          = table (snd (updateRunComment env i comment w))
          \/ snapshotRows (snd (updateRunComment env i comment w)) = snapshotRows w
          \/ snapshotRows (snd (updateRunComment env i comment w)) = table w) as H.
  { rewrite updateRunComment_unfold.
    pose proof (initDatabase_unchanged env w) as (_ & Ht0 & _ & Hs0).
    destruct (initDatabase env w) as [r0 w0]. simpl in Ht0, Hs0.
    assert (snapshotRows w0 = snapshotRows w \/ snapshotRows w0 = table w) as H0.
    { destruct Hs0 as [E|E]; [right; congruence|now left]. }
    destruct r0 as [[]|]; [|simpl; now right].
    destruct (db w0) as [d|]; [|simpl; now right].
    destruct (persistDatabase env _) as [rp w3] eqn:Ep.
    apply persistDatabase_snapshot in Ep as [E|E]; simpl; [now left|right].
    rewrite E. exact H0. }
  destruct H as [H|H]; [now left|right]. split; [exact H|].
  intros k. now rewrite Hi.
Qed.

Lemma deleteRun_snapshot i w : snapshotStep w (snd (deleteRun env i w)).
Proof.
  rewrite deleteRun_unfold.
  pose proof (initDatabase_unchanged env w) as (Hi0 & Ht0 & _ & Hs0).
  destruct (initDatabase env w) as [r0 w0]. simpl in Hi0, Ht0, Hs0.
  assert (snapshotRows w0 = snapshotRows w \/ snapshotRows w0 = table w) as H0.
  { destruct Hs0 as [E|E]; [right; congruence|now left]. }
  assert (snapshotStep w w0) as Hstep.
  { right. split; [exact H0|]. intros k. now rewrite Hi0. }
  destruct r0 as [[]|]; [|exact Hstep].
  destruct (db w0) as [d|] eqn:Ed; [|exact Hstep].
  destruct (sqlSelectById i d) as [r|]; [|exact Hstep].
  cbv zeta. destruct (persistDatabase env _) as [rp w1] eqn:Ep.
  pose proof (persistDatabase_snapshot _ _ _ _ Ep) as Hs1.
  apply persistDatabase_post in Ep as ((Hi1 & Hd1 & _) & Hsq1 & _).
  simpl in Hi1, Hd1, Hsq1.
  destruct rp as [[]|].
  - destruct (deleteBlobs env r _ w1) as [rb w2] eqn:Eb.
    apply deleteBlobs_post in Eb as ((Hsq & Hdb & _) & _). simpl. left.
    unfold snapshotRows, table. now rewrite Hsq, Hdb, Hsq1, Hd1.
  - simpl. destruct Hs1 as [E|E]; [now left|right]. split.
    + rewrite E. exact H0.
    + intros k. now rewrite Hi1, Hi0.
Qed.

Lemma StoreInv_initial : StoreInv env initialWorld.
Proof. split; apply TableInv_initial. Qed.

Lemma StoreInv_step w w' :
  (clock w <= clock w')%nat -> snapshotStep w w' -> TableInv env w' ->
  StoreInv env w -> StoreInv env w'.
Proof.
  intros Hc Hstep Ht [Htab Hsnap]. split; [exact Ht|].
  destruct Hstep as [-> | [[-> | ->] Hk]]; [exact Ht| |];
    eapply rowsInv_mono; eauto.
Qed.

Lemma StoreInv_unchanged w w' : unchanged w w' -> StoreInv env w -> StoreInv env w'.
Proof.
  intros (Hi & Ht & Hc & Hs) Hinv.
  apply (StoreInv_step w); [exact Hc| |apply (TableInv_frame w); auto; apply Hinv|exact Hinv].
  destruct Hs as [E|E]; [now left|right]. split; [now left|].
  intros k. now rewrite Hi.
Qed.

(** After a reload the table is read from the snapshot. *)
Lemma StoreInv_reload w : StoreInv env w -> StoreInv env (reload w).
Proof. intros [_ Hs]. split; exact Hs. Qed.

Lemma StoreInv_saveRun run w :
  StoreInv env w -> StoreInv env (snd (saveRun env run w)).
Proof.
  intros H. apply (StoreInv_step w);
    [apply saveRun_step|apply saveRun_snapshot|apply TableInv_saveRun, H|exact H].
Qed.

Lemma StoreInv_runOp op w : StoreInv env w -> StoreInv env (runOp env op w).
Proof.
  destruct op; simpl.
  - apply StoreInv_reload.
  - apply StoreInv_unchanged, initDatabase_unchanged.
  - apply StoreInv_unchanged, persistDatabase_unchanged.
  - apply StoreInv_saveRun.
  - apply StoreInv_unchanged, getRuns_unchanged.
  - apply StoreInv_unchanged, getRunById_unchanged.
  - apply StoreInv_unchanged, getRunWithImages_unchanged.
  - apply StoreInv_unchanged, loadImage_unchanged.
  - apply StoreInv_unchanged, loadImagesForRun_unchanged.
  - intros H. apply (StoreInv_step w);
      [apply updateRunComment_images|apply updateRunComment_snapshot
      |apply TableInv_updateRunComment, H|exact H].
  - intros H. apply (StoreInv_step w);
      [apply deleteRun_step|apply deleteRun_snapshot|apply TableInv_deleteRun, H|exact H].
  - apply (seedSampleDataIfEmpty_keeps env
             (fun a b => StoreInv env a -> StoreInv env b)); auto.
    + intros w0. apply StoreInv_unchanged, getRuns_unchanged.
    + intros w0. apply StoreInv_unchanged, unchanged_tick.
    + intros run w0. apply StoreInv_saveRun.
Qed.

Lemma StoreInv_reachable w : reachable env w -> StoreInv env w.
Proof.
  induction 1; [apply StoreInv_initial|now apply StoreInv_runOp].
Qed.

(** *** The input blobs, whatever the draws *)









End InvariantProofs.

Section DeleteTheorems.

Variable env : Env.

Lemma deleteRun_absent i w d :
  db w = Some d -> sqlSelectById i d = None -> deleteRun env i w = (Ok tt, w).
Proof.
  intros Hd Hsel. now rewrite deleteRun_unfold, (initDatabase_ready _ _ _ Hd), Hd, Hsel.
Qed.

(** A [deleteRun] of an existing row during which no request fails. *)
Lemma deleteRun_ok i w d r :
  db w = Some d -> sqlSelectById i d = Some r -> noFaults env w ->
  exists w',
    deleteRun env i w = (Ok tt, w')
    /\ db w' = Some (sqlDelete i d)
    /\ sqlite w' = Some (export (sqlDelete i d))
    /\ images w' = if sqlCountOtherInput (inputImageId r) i d =? 0
                   then delete (inputImageId r) (delete (outputImageId r) (images w))
                   else delete (outputImageId r) (images w).
Proof.
  intros Hd Hsel Hn.
  rewrite deleteRun_unfold, (initDatabase_ready _ _ _ Hd), Hd, Hsel. cbv zeta.
  destruct (persistDatabase env _) as [rp w1] eqn:Ep.
  apply persistDatabase_post in Ep as ((Hi1 & Hd1 & _ & Hc1) & Hs1 & Hok1).
  simpl in Hi1, Hd1, Hc1, Hs1.
  assert (noFaults env w1) as Hn1 by (intros n Hle; apply Hn; lia).
  specialize (Hok1 Hn). destruct rp as [[]|]; [|destruct Hok1].
  destruct (deleteBlobs env r _ w1) as [rb w2] eqn:Eb.
  apply deleteBlobs_post in Eb as ((Hsq & Hdb & _) & _ & Himg & Hok2).
  specialize (Hok2 Hn1). destruct rb as [[]|]; [|destruct Hok2].
  exists w2. split; [reflexivity|]. rewrite Hdb, Hd1, Hsq, Hs1, (Himg I), Hi1. auto.
Qed.

(** On an opened store in a reachable state, [deleteRun] is the
    algorithm of the specification: an absent row makes it return
    successfully with the state untouched; when no request fails it
    returns successfully and leaves exactly the database, snapshot and
    blobs of [deleteRunSpec].  Whatever fails, deleting a run leaves the
    input blob it shares with another run as it was; and when no other run
    has the same input key and no request fails, both blobs of the run are
    gone. *)
Lemma deleteRun_on_opened_store i w d :
  reachable env w -> db w = Some d ->
  (sqlSelectById i d = None -> deleteRun env i w = (Ok tt, w))
  /\ (noFaults env w ->
      exists w', deleteRun env i w = (Ok tt, w')
                 /\ (db w', sqlite w', images w')
                    = (let '(d', s', b') := deleteRunSpec i d (sqlite w) (images w) in
                       (Some d', s', b')))
  /\ (forall r r2, sqlSelectById i d = Some r -> In r2 (rows d) -> id r2 <> i ->
                   inputImageId r2 = inputImageId r ->
                   images (snd (deleteRun env i w)) !! inputImageId r2
                   = images w !! inputImageId r2)
  /\ (forall r, sqlSelectById i d = Some r ->
                (forall r2, In r2 (rows d) -> id r2 <> i ->
                            inputImageId r2 <> inputImageId r) ->
                noFaults env w ->
                images (snd (deleteRun env i w)) !! inputImageId r = None
                /\ images (snd (deleteRun env i w)) !! outputImageId r = None).
Proof.
  intros Hreach Hd.
  assert (table w = rows d) as Htab by (unfold table; now rewrite Hd).
  split; [apply deleteRun_absent; exact Hd|]. split; [|split].
  - intros Hn. unfold deleteRunSpec.
    destruct (sqlSelectById i d) as [r|] eqn:Hsel; unfold sqlSelectById in Hsel;
      rewrite Hsel.
    + destruct (deleteRun_ok i w d r Hd Hsel Hn) as (w' & E & Hd' & Hs' & Hi').
      exists w'. split; [exact E|]. rewrite Hd', Hs', Hi', sqlDelete_spec.
      rewrite sqlCountOtherInput_spec.
      destruct (List.filter
                  (fun r' => bool_decide (id r' <> i /\ inputImageId r' = inputImageId r))
                  (rows d)); reflexivity.
    + exists w. split; [exact (deleteRun_absent i w d Hd Hsel)|]. now rewrite Hd.
  - intros r r2 Hsel Hr2 Hne Hsame.
    destruct (deleteRun_step env i w) as (_ & [[_ ->] | (r' & Hfind & _ & Hk)]);
      [reflexivity|].
    rewrite Htab in Hfind. unfold sqlSelectById in Hsel.
    rewrite Hsel in Hfind. injection Hfind as <-.
    destruct (Hk (inputImageId r2)) as [E | [_ [E | [_ Hnone]]]]; [exact E| |].
    + exfalso. destruct (StoreInv_reachable env w Hreach) as [[Hshape _] _].
      apply List.find_some in Hsel as [Hr _]. rewrite <- Htab in Hr, Hr2.
      destruct (Hshape r Hr) as [_ Hdr], (Hshape r2 Hr2) as [Hs2 _].
      exact (shaped_keys_differ env _ _ _ Hs2 Hdr E).
    + exfalso. rewrite Htab in Hnone. exact (Hnone r2 Hr2 Hne Hsame).
  - intros r Hsel Hlast Hn.
    destruct (deleteRun_ok i w d r Hd Hsel Hn) as (w' & E & _ & _ & Hi').
    rewrite E. simpl. rewrite Hi'.
    apply sqlCountOtherInput_zero in Hlast. rewrite Hlast. simpl.
    split; [apply lookup_delete_eq|].
    rewrite lookup_delete. case_decide; [reflexivity|apply lookup_delete_eq].
Qed.

(** Once the store is open, [deleteRun] does what it does from the state
    that opening the store leaves. *)
Lemma deleteRun_after_initDatabase i w w0 :
  initDatabase env w = (Ok tt, w0) -> deleteRun env i w = deleteRun env i w0.
Proof.
  intros E0. pose proof E0 as E.
  apply initDatabase_post in E as (_ & _ & _ & Hsome & _).
  destruct (Hsome I) as [d Hd].
  now rewrite (deleteRun_unfold env i w), (deleteRun_unfold env i w0), E0,
    (initDatabase_ready _ _ _ Hd).
Qed.

(** C1, as amended.  In a reachable state, [deleteRun] first opens the
    store, which [initDatabase] does: that leaves the table and the blobs
    as they were, changes nothing at all when the store is already open,
    and succeeds when no request fails and no earlier attempt has failed.
    When opening the store fails, [deleteRun] fails with the same error
    and does nothing more.  Otherwise it is the algorithm of the
    specification, run from the opened state [w0]: an absent row makes it
    return successfully with [w0] untouched; when no request fails it
    returns successfully and leaves exactly the database, snapshot and
    blobs of [deleteRunSpec].  Whatever fails, deleting a run leaves the
    input blob it shares with another run as it was; and when no other run
    has the same input key and no request fails, both blobs of the run are
    gone. *)
Theorem deleteRun_follows_algorithm i w r0 w0 :
  reachable env w ->
  initDatabase env w = (r0, w0) ->
  table w0 = table w /\ images w0 = images w
  /\ (is_Some (db w) -> r0 = Ok tt /\ w0 = w)
  /\ (noFaults env w -> (db w = None -> dbInitPromise w = None) -> isOk r0)
  /\ match r0 with
     | Err e => deleteRun env i w = (Err e, w0)
     | Ok _ =>
         exists d,
           db w0 = Some d
           /\ (sqlSelectById i d = None -> deleteRun env i w = (Ok tt, w0))
           /\ (noFaults env w0 ->
               exists w', deleteRun env i w = (Ok tt, w')
                          /\ (db w', sqlite w', images w')
                             = (let '(d', s', b') :=
                                  deleteRunSpec i d (sqlite w0) (images w0) in
                                (Some d', s', b')))
           /\ (forall r r2, sqlSelectById i d = Some r -> In r2 (rows d) -> id r2 <> i ->
                            inputImageId r2 = inputImageId r ->
                            images (snd (deleteRun env i w)) !! inputImageId r2
                            = images w !! inputImageId r2)
           /\ (forall r, sqlSelectById i d = Some r ->
                         (forall r2, In r2 (rows d) -> id r2 <> i ->
                                     inputImageId r2 <> inputImageId r) ->
                         noFaults env w0 ->
                         images (snd (deleteRun env i w)) !! inputImageId r = None
                         /\ images (snd (deleteRun env i w)) !! outputImageId r = None)
     end.
Proof.
  intros Hreach E0. pose proof E0 as E.
  apply initDatabase_post in E as (Hi & _ & Ht & Hsome & _ & Hready & Hok).
  split; [exact Ht|]. split; [exact Hi|]. split; [exact Hready|].
  split; [exact Hok|].
  destruct r0 as [[]|e]; [|now rewrite deleteRun_unfold, E0].
  destruct (Hsome I) as [d Hd]. exists d. split; [exact Hd|].
  assert (reachable env w0) as Hreach0.
  { replace w0 with (runOp env OpInitDatabase w) by (simpl; now rewrite E0).
    now apply reachable_step. }
  rewrite (deleteRun_after_initDatabase i w w0 E0), <- Hi.
  exact (deleteRun_on_opened_store i w0 d Hreach0 Hd).
Qed.

(** C9, as amended.  A [deleteRun] that fails has either failed to open
    the store, and then the table is as it was, or it has failed
    afterwards (flushing the snapshot or deleting a blob), and then the
    rows with the given id are already removed from the table while every
    other row is as it was. *)
Theorem deleteRun_failure_effect i w e w' :
  deleteRun env i w = (Err e, w') ->
  (initDatabase env w = (Err e, w') /\ table w' = table w)
  \/ (isOk (fst (initDatabase env w))
      /\ (exists r, In r (table w) /\ id r = i)
      /\ table w' = List.filter (fun r => negb (id r =? i)) (table w)).
Proof.
  rewrite deleteRun_unfold.
  destruct (initDatabase env w) as [r0 w0] eqn:E0.
  pose proof E0 as E0'.
  apply initDatabase_post in E0' as (_ & _ & Ht0 & Hs0 & _).
  destruct r0 as [[]|e0].
  - destruct (Hs0 I) as [d Hd]. rewrite Hd.
    assert (rows d = table w) as Hrows.
    { rewrite <- Ht0. unfold table. now rewrite Hd. }
    destruct (sqlSelectById i d) as [r|] eqn:Hsel; [|discriminate].
    cbv zeta. destruct (persistDatabase env _) as [rp w1] eqn:Ep.
    apply persistDatabase_table in Ep as (Ht1 & _).
    unfold table at 2 in Ht1. simpl in Ht1. rewrite Hrows in Ht1.
    intros E. right. split; [exact I|]. split.
    + exists r. apply List.find_some in Hsel as [Hr Hid].
      rewrite Hrows in Hr. apply Z.eqb_eq in Hid. auto.
    + destruct rp as [[]|]; [|injection E as _ <-; exact Ht1].
      apply deleteBlobs_post in E as ((Hsq & Hdb & _) & _).
      rewrite <- Ht1. unfold table. now rewrite Hsq, Hdb.
  - intros [= <- <-]. left. split; [reflexivity|exact Ht0].
Qed.

End DeleteTheorems.

(** ** Failing deletions and repeated keys, on concrete runs *)

(** C1, counterexample.  In a fresh profile, where no row exists, the
    store is not open yet: [deleteRun 99] opens it and thereby writes the
    snapshot of an empty database, so the state it returns is not the
    state it was called in; and when the request at tick 1 fails, it does
    not return successfully. *)
Lemma deleteRun_absent_row_opens_store :
  reachable quietEnv initialWorld
  /\ table initialWorld = []
  /\ sqlite initialWorld = None
  /\ (exists w', deleteRun quietEnv 99 initialWorld = (Ok tt, w')
                 /\ sqlite w' = Some (export emptyDatabase)
                 /\ w' <> initialWorld)
  /\ reachable (faultAt 1) initialWorld
  /\ exists w', deleteRun (faultAt 1) 99 initialWorld = (Err IDBRequestError, w').
Proof.
  split; [apply reachable_initial|]. split; [reflexivity|]. split; [reflexivity|].
  split; [|split; [apply reachable_initial|]].
  - exists openedEmptyStore. split; [vm_compute; reflexivity|].
    split; [vm_compute; reflexivity|]. intros E. apply (f_equal clock) in E.
    vm_compute in E. discriminate E.
  - exists failedOpening. vm_compute. reflexivity.
Qed.

(** C9, counterexample.  [deleteRun 1] fails while deleting the output
    blob; the row with id 1, present before the call, is gone after it. *)
Lemma deleteRun_failure_after_row_deleted :
  reachable (faultAt 16) oneRunFault16
  /\ (exists r, table oneRunFault16 = [r] /\ id r = 1)
  /\ exists w', deleteRun (faultAt 16) 1 oneRunFault16 = (Err IDBRequestError, w')
                /\ table w' = [].
Proof.
  split; [apply reachable_step, reachable_initial|]. split.
  - eexists. split; vm_compute; reflexivity.
  - exists (snd (deleteRun (faultAt 16) 1 oneRunFault16)).
    split; vm_compute; reflexivity.
Qed.


(** ** The theorems at concrete runs *)

Lemma reachable_twoRunsSameInstant : reachable quietEnv twoRunsSameInstant.
Proof. apply reachable_step, reachable_step, reachable_initial. Qed.


(** C1, as amended: an absent row and a row sharing its input image on
    the store with two runs, the last reference to an input image on the
    store with one run, and a fresh profile, where the store is opened
    first, with and without a failing request. *)
Lemma deleteRun_follows_algorithm_witness :
  (reachable quietEnv twoRunsSameInstant
   /\ initDatabase quietEnv twoRunsSameInstant = (Ok tt, twoRunsSameInstant)
   /\ db twoRunsSameInstant = Some twoRunsDatabase
   /\ noFaults quietEnv twoRunsSameInstant
   /\ sqlSelectById 99 twoRunsDatabase = None
   /\ deleteRun quietEnv 99 twoRunsSameInstant = (Ok tt, twoRunsSameInstant)
   /\ sqlSelectById 1 twoRunsDatabase = Some firstRunRow
   /\ In secondRunRow (rows twoRunsDatabase)
   /\ id secondRunRow <> 1
   /\ inputImageId secondRunRow = inputImageId firstRunRow
   /\ images secondRunLeft !! inputImageId secondRunRow
      = images twoRunsSameInstant !! inputImageId secondRunRow
   /\ exists w', deleteRun quietEnv 1 twoRunsSameInstant = (Ok tt, w')
                 /\ (db w', sqlite w', images w')
                    = (let '(d', s', b') :=
                         deleteRunSpec 1 twoRunsDatabase (sqlite twoRunsSameInstant)
                                       (images twoRunsSameInstant) in
                       (Some d', s', b')))
  /\ (reachable quietEnv oneRunStore
      /\ initDatabase quietEnv oneRunStore = (Ok tt, oneRunStore)
      /\ db oneRunStore = Some oneRunDatabase
      /\ noFaults quietEnv oneRunStore
      /\ sqlSelectById 1 oneRunDatabase = Some firstRunRow
      /\ (forall r2, In r2 (rows oneRunDatabase) -> id r2 <> 1 ->
                     inputImageId r2 <> inputImageId firstRunRow)
      /\ images (snd (deleteRun quietEnv 1 oneRunStore)) !! inputImageId firstRunRow = None
      /\ images (snd (deleteRun quietEnv 1 oneRunStore)) !! outputImageId firstRunRow = None)
  /\ (reachable quietEnv initialWorld
      /\ initDatabase quietEnv initialWorld = (Ok tt, openedEmptyStore)
      /\ db openedEmptyStore = Some emptyDatabase
      /\ sqlSelectById 99 emptyDatabase = None
      /\ deleteRun quietEnv 99 initialWorld = (Ok tt, openedEmptyStore))
  /\ (reachable (faultAt 1) initialWorld
      /\ initDatabase (faultAt 1) initialWorld = (Err IDBRequestError, failedOpening)
      /\ deleteRun (faultAt 1) 99 initialWorld = (Err IDBRequestError, failedOpening)).
Proof.
  assert (forall d d' : Database, Some d = Some d' -> d = d') as Hinj
    by (intros d d' E; now injection E).
  pose proof reachable_twoRunsSameInstant as Hreach2.
  assert (reachable quietEnv oneRunStore) as Hreach1
    by (apply (reachable_step quietEnv (OpSaveRun firstRun)), reachable_initial).
  assert (initDatabase quietEnv twoRunsSameInstant = (Ok tt, twoRunsSameInstant)) as E2
    by (vm_compute; reflexivity).
  assert (initDatabase quietEnv oneRunStore = (Ok tt, oneRunStore)) as E1
    by (vm_compute; reflexivity).
  assert (initDatabase quietEnv initialWorld = (Ok tt, openedEmptyStore)) as E0
    by (vm_compute; reflexivity).
  assert (initDatabase (faultAt 1) initialWorld = (Err IDBRequestError, failedOpening))
    as Ef by (vm_compute; reflexivity).
  assert (db twoRunsSameInstant = Some twoRunsDatabase) as Hd2 by (vm_compute; reflexivity).
  assert (db oneRunStore = Some oneRunDatabase) as Hd1 by (vm_compute; reflexivity).
  assert (db openedEmptyStore = Some emptyDatabase) as Hd0 by (vm_compute; reflexivity).
  assert (sqlSelectById 99 twoRunsDatabase = None) as Habs2 by reflexivity.
  assert (sqlSelectById 1 twoRunsDatabase = Some firstRunRow) as Hsel2 by reflexivity.
  assert (sqlSelectById 1 oneRunDatabase = Some firstRunRow) as Hsel1 by reflexivity.
  assert (In secondRunRow (rows twoRunsDatabase)) as Hin by (right; left; reflexivity).
  assert (id secondRunRow <> 1) as Hne by discriminate.
  assert (forall r2, In r2 (rows oneRunDatabase) -> id r2 <> 1 ->
                     inputImageId r2 <> inputImageId firstRunRow) as Hlast.
  { intros r2 [<-|[]] H. now destruct H. }
  split; [|split; [|split]].
  - destruct (deleteRun_follows_algorithm quietEnv 99 twoRunsSameInstant _ _ Hreach2 E2)
      as (_ & _ & _ & _ & d & Hd & Habsent & _).
    rewrite Hd2 in Hd. apply Hinj in Hd. subst d.
    destruct (deleteRun_follows_algorithm quietEnv 1 twoRunsSameInstant _ _ Hreach2 E2)
      as (_ & _ & _ & _ & d & Hd & _ & Hspec & Hshared & _).
    rewrite Hd2 in Hd. apply Hinj in Hd. subst d.
    split; [exact Hreach2|]. split; [exact E2|]. split; [exact Hd2|].
    split; [apply noFaults_quietEnv|]. split; [exact Habs2|].
    split; [exact (Habsent Habs2)|]. split; [exact Hsel2|]. split; [exact Hin|].
    split; [exact Hne|]. split; [exact eq_refl|].
    split; [exact (Hshared _ _ Hsel2 Hin Hne eq_refl)|].
    exact (Hspec (noFaults_quietEnv _)).
  - destruct (deleteRun_follows_algorithm quietEnv 1 oneRunStore _ _ Hreach1 E1)
      as (_ & _ & _ & _ & d & Hd & _ & _ & _ & Hgone).
    rewrite Hd1 in Hd. apply Hinj in Hd. subst d.
    split; [exact Hreach1|]. split; [exact E1|]. split; [exact Hd1|].
    split; [apply noFaults_quietEnv|]. split; [exact Hsel1|]. split; [exact Hlast|].
    exact (Hgone _ Hsel1 Hlast (noFaults_quietEnv _)).
  - destruct (deleteRun_follows_algorithm quietEnv 99 initialWorld _ _
                (reachable_initial _) E0) as (_ & _ & _ & _ & d & Hd & Habsent & _).
    rewrite Hd0 in Hd. apply Hinj in Hd. subst d.
    split; [apply reachable_initial|]. split; [exact E0|]. split; [exact Hd0|].
    split; [exact eq_refl|]. exact (Habsent eq_refl).
  - split; [apply reachable_initial|]. split; [exact Ef|].
    exact (proj2 (proj2 (proj2 (proj2
             (deleteRun_follows_algorithm (faultAt 1) 99 initialWorld _ _
                (reachable_initial _) Ef))))).
Defined.

(** C2, as amended, on the store with two runs. *)
Lemma getRuns_sorted_by_createdAt_witness :
  isOk (fst (getRuns quietEnv twoRunsSameInstant))
  /\ forall l w', getRuns quietEnv twoRunsSameInstant = (Ok l, w') ->
       Permutation l (table twoRunsSameInstant) /\ StronglySorted createdDesc l.
Proof.
  destruct (getRuns_sorted_by_createdAt quietEnv twoRunsSameInstant) as [H1 H2].
  split; [|exact H2].
  apply H1; [apply noFaults_quietEnv|]. intros H. vm_compute in H. discriminate H.
Defined.

(** C3, as amended, for the first run saved in a fresh profile. *)
Lemma saveRun_roundtrip_witness :
  saveRun quietEnv (sampleRun "2025-01-01T00:00:00.000Z" "AAA" "BBB") initialWorld
  = (Ok 1, snd (saveRun quietEnv (sampleRun "2025-01-01T00:00:00.000Z" "AAA" "BBB")
                  initialWorld))
  /\ (forall old, images initialWorld !! hashImage "AAA" = Some old -> old = "AAA")
  /\ wellFormedRun (sampleRun "2025-01-01T00:00:00.000Z" "AAA" "BBB")
  /\ exists row,
       getRunById quietEnv 1
         (snd (saveRun quietEnv (sampleRun "2025-01-01T00:00:00.000Z" "AAA" "BBB")
                 initialWorld))
       = (Ok (Some row),
          snd (saveRun quietEnv (sampleRun "2025-01-01T00:00:00.000Z" "AAA" "BBB")
                 initialWorld))
       /\ id row = 1
       /\ metadataOf (sampleRun "2025-01-01T00:00:00.000Z" "AAA" "BBB") row.
Proof.
  assert (saveRun quietEnv (sampleRun "2025-01-01T00:00:00.000Z" "AAA" "BBB") initialWorld
          = (Ok 1, snd (saveRun quietEnv
                          (sampleRun "2025-01-01T00:00:00.000Z" "AAA" "BBB")
                          initialWorld))) as Hsave
    by (vm_compute; reflexivity).
  assert (forall old, images initialWorld !! hashImage "AAA" = Some old -> old = "AAA")
    as Hfree.
  { intros old H. simpl in H. rewrite lookup_empty in H. discriminate H. }
  assert (wellFormedRun (sampleRun "2025-01-01T00:00:00.000Z" "AAA" "BBB")) as Hwf
    by (repeat split; reflexivity).
  split; [exact Hsave|]. split; [exact Hfree|]. split; [exact Hwf|].
  destruct (saveRun_roundtrip quietEnv
              (sampleRun "2025-01-01T00:00:00.000Z" "AAA" "BBB") initialWorld)
    as [_ Hround].
  destruct (Hround _ _ Hsave Hfree) as (row & Hget & Hid & Hmeta & _).
  exists row. auto.
Defined.

(** C4 when the transaction writing the output blob cannot be opened
    (request 10 of the session). *)
Lemma saveRun_blob_failure_inserts_nothing_witness :
  exists w0 ra w1 rb w2,
    initDatabase (faultAt 10) initialWorld = (Ok tt, w0)
    /\ saveImageDeduped (faultAt 10) "AAA" false w0 = (ra, w1)
    /\ saveImageDeduped (faultAt 10) "BBB" true w1 = (rb, w2)
    /\ ~ (isOk ra /\ isOk rb)
    /\ (exists e, saveRun (faultAt 10)
                    (sampleRun "2025-01-01T00:00:00.000Z" "AAA" "BBB") initialWorld
                  = (Err e, w2) /\ (ra = Err e \/ rb = Err e))
    /\ table w2 = table initialWorld.
Proof.
  exists (snd (initDatabase (faultAt 10) initialWorld)).
  exists (Ok (hashImage "AAA")).
  exists (snd (saveImageDeduped (faultAt 10) "AAA" false
                 (snd (initDatabase (faultAt 10) initialWorld)))).
  exists (Err IDBRequestError).
  exists (snd (saveImageDeduped (faultAt 10) "BBB" true
                 (snd (saveImageDeduped (faultAt 10) "AAA" false
                         (snd (initDatabase (faultAt 10) initialWorld)))))).
  assert (initDatabase (faultAt 10) initialWorld
          = (Ok tt, snd (initDatabase (faultAt 10) initialWorld))) as H0
    by (vm_compute; reflexivity).
  assert (saveImageDeduped (faultAt 10) "AAA" false
            (snd (initDatabase (faultAt 10) initialWorld))
          = (Ok (hashImage "AAA"),
             snd (saveImageDeduped (faultAt 10) "AAA" false
                    (snd (initDatabase (faultAt 10) initialWorld))))) as Ha
    by (vm_compute; reflexivity).
  assert (saveImageDeduped (faultAt 10) "BBB" true
            (snd (saveImageDeduped (faultAt 10) "AAA" false
                    (snd (initDatabase (faultAt 10) initialWorld))))
          = (Err IDBRequestError,
             snd (saveImageDeduped (faultAt 10) "BBB" true
                    (snd (saveImageDeduped (faultAt 10) "AAA" false
                            (snd (initDatabase (faultAt 10) initialWorld))))))) as Hb
    by (vm_compute; reflexivity).
  assert (~ (isOk (Ok (hashImage "AAA")) /\ isOk (@Err string IDBRequestError))) as Hfail.
  { intros [_ H]. exact H. }
  split; [exact H0|]. split; [exact Ha|]. split; [exact Hb|]. split; [exact Hfail|].
  destruct (saveRun_blob_failure_inserts_nothing (faultAt 10)
              (sampleRun "2025-01-01T00:00:00.000Z" "AAA" "BBB")
              _ _ _ _ _ _ H0 Ha Hb Hfail) as (He & Ht & _).
  split; [exact He|exact Ht].
Defined.


(** C6, as amended, from an empty object store. *)
Lemma saveImageDeduped_dedup_twice_witness :
  exists k w1 w2,
    saveImageDeduped quietEnv "AAA" false initialWorld = (Ok k, w1)
    /\ saveImageDeduped quietEnv "AAA" false w1 = (Ok k, w2)
    /\ images w2 = images w1
    /\ copies "AAA" (images w2) = 1%nat.
Proof.
  exists (hashImage "AAA"),
    (snd (saveImageDeduped quietEnv "AAA" false initialWorld)),
    (snd (saveImageDeduped quietEnv "AAA" false
            (snd (saveImageDeduped quietEnv "AAA" false initialWorld)))).
  assert (saveImageDeduped quietEnv "AAA" false initialWorld
          = (Ok (hashImage "AAA"),
             snd (saveImageDeduped quietEnv "AAA" false initialWorld))) as H1
    by (vm_compute; reflexivity).
  assert (saveImageDeduped quietEnv "AAA" false
            (snd (saveImageDeduped quietEnv "AAA" false initialWorld))
          = (Ok (hashImage "AAA"),
             snd (saveImageDeduped quietEnv "AAA" false
                    (snd (saveImageDeduped quietEnv "AAA" false initialWorld))))) as H2
    by (vm_compute; reflexivity).
  split; [exact H1|]. split; [exact H2|].
  destruct (saveImageDeduped_dedup_twice quietEnv "AAA" initialWorld) as [_ H].
  destruct (H _ _ _ _ H1 H2) as (_ & _ & Hsame & Hfresh & _).
  split; [exact Hsame|].
  destruct (Hfresh (lookup_empty _)) as [_ Hc]. rewrite Hc. reflexivity.
Defined.

(** C7, as amended, when [Date.now()] differs between the two calls. *)
Lemma saveImageDeduped_unique_twice_witness :
  exists k1 w1 k2 w2,
    saveImageDeduped quietEnv "AAA" true initialWorld = (Ok k1, w1)
    /\ saveImageDeduped quietEnv "AAA" true w1 = (Ok k2, w2)
    /\ k1 <> k2
    /\ images w2 !! k1 = Some "AAA" /\ images w2 !! k2 = Some "AAA".
Proof.
  exists "img_0_k3j2x9q",
    (snd (saveImageDeduped quietEnv "AAA" true initialWorld)),
    "img_3_k3j2x9q",
    (snd (saveImageDeduped quietEnv "AAA" true
            (snd (saveImageDeduped quietEnv "AAA" true initialWorld)))).
  assert (saveImageDeduped quietEnv "AAA" true initialWorld
          = (Ok "img_0_k3j2x9q",
             snd (saveImageDeduped quietEnv "AAA" true initialWorld))) as H1
    by (vm_compute; reflexivity).
  assert (saveImageDeduped quietEnv "AAA" true
            (snd (saveImageDeduped quietEnv "AAA" true initialWorld))
          = (Ok "img_3_k3j2x9q",
             snd (saveImageDeduped quietEnv "AAA" true
                    (snd (saveImageDeduped quietEnv "AAA" true initialWorld))))) as H2
    by (vm_compute; reflexivity).
  split; [exact H1|]. split; [exact H2|].
  destruct (saveImageDeduped_unique_twice quietEnv "AAA" initialWorld) as [_ H].
  destruct (H _ _ _ _ H1 H2) as (Hk1 & Hk2 & _ & Hiff).
  split; [|split; [exact Hk1|exact Hk2]].
  intros E. apply Hiff in E as [E _]. vm_compute in E. discriminate E.
Defined.

(** C8 for a comment on run 1 of the store with two runs. *)
Lemma updateRunComment_changes_only_comment_witness :
  Forall2 (fun old new => sameButComment old new /\ (id old <> 1 -> new = old))
          (table twoRunsSameInstant)
          (table (snd (updateRunComment quietEnv 1 "good" twoRunsSameInstant)))
  /\ Forall (fun new => id new = 1 -> humanComment new = Some "good")
            (table (snd (updateRunComment quietEnv 1 "good" twoRunsSameInstant))).
Proof.
  destruct (updateRunComment_changes_only_comment quietEnv 1 "good" twoRunsSameInstant)
    as [H1 H2].
  split; [exact H1|]. apply H2. vm_compute. exact I.
Defined.

(** C9, as amended, when the deletion of the output blob fails. *)
Lemma deleteRun_failure_effect_witness :
  deleteRun (faultAt 16) 1 oneRunFault16
  = (Err IDBRequestError, snd (deleteRun (faultAt 16) 1 oneRunFault16))
  /\ ((initDatabase (faultAt 16) oneRunFault16
       = (Err IDBRequestError, snd (deleteRun (faultAt 16) 1 oneRunFault16))
       /\ table (snd (deleteRun (faultAt 16) 1 oneRunFault16)) = table oneRunFault16)
      \/ (isOk (fst (initDatabase (faultAt 16) oneRunFault16))
          /\ (exists r, In r (table oneRunFault16) /\ id r = 1)
          /\ table (snd (deleteRun (faultAt 16) 1 oneRunFault16))
             = List.filter (fun r => negb (id r =? 1)) (table oneRunFault16))).
Proof.
  assert (deleteRun (faultAt 16) 1 oneRunFault16
          = (Err IDBRequestError, snd (deleteRun (faultAt 16) 1 oneRunFault16))) as H
    by (vm_compute; reflexivity).
  split; [exact H|].
  exact (deleteRun_failure_effect (faultAt 16) 1 oneRunFault16 _ _ H).
Defined.


(** ** Further properties of the store *)

Lemma find_filter_id_None (i : Z) l :
  List.find (fun r => id r =? i) (List.filter (fun r => negb (id r =? i)) l) = None.
Proof.
  induction l as [|r l IH]; simpl; [reflexivity|].
  destruct (id r =? i) eqn:E; simpl; [exact IH|]. now rewrite E.
Qed.

Lemma filter_id_absent (i : Z) l :
  List.find (fun r => id r =? i) l = None ->
  List.filter (fun r => negb (id r =? i)) l = l.
Proof.
  induction l as [|r l IH]; simpl; [reflexivity|].
  destruct (id r =? i); [discriminate|]. simpl. intros H. now rewrite IH.
Qed.

(** X1.  A content key is never a unique key: the two key formats of
    [saveImageDeduped] cannot collide with each other. *)
Theorem content_key_never_a_unique_key data now suffix :
  hashImage data <> uniqueKey now suffix.
Proof. apply hashImage_not_uniqueKey. Qed.

(** X2.  The content key does not identify the content: two different
    images with the same key exist, since a key has at most twenty
    characters. *)
Theorem content_key_collisions_exist :
  ~ (forall a b, hashImage a = hashImage b -> a = b).
Proof. exact hashImage_not_injective. Qed.

(** X3.  Deleting twice: on an opened store and with no request failing,
    [deleteRun] succeeds, a second [deleteRun] of the same id succeeds too
    and changes nothing, and the rows with another id are those from
    before the first call. *)
Theorem deleteRun_twice env i w d :
  db w = Some d -> noFaults env w ->
  exists w1,
    deleteRun env i w = (Ok tt, w1)
    /\ deleteRun env i w1 = (Ok tt, w1)
    /\ table w1 = List.filter (fun r => negb (id r =? i)) (table w).
Proof.
  intros Hd Hn.
  assert (table w = rows d) as Htab by (unfold table; now rewrite Hd).
  destruct (sqlSelectById i d) as [r|] eqn:Hsel.
  - destruct (deleteRun_ok env i w d r Hd Hsel Hn) as (w1 & E & Hd1 & _).
    exists w1. split; [exact E|]. split.
    + apply (deleteRun_absent env i w1 _ Hd1). apply find_filter_id_None.
    + unfold table. now rewrite Hd1, Hd.
  - exists w. pose proof (deleteRun_absent env i w d Hd Hsel) as E.
    split; [exact E|]. split; [exact E|].
    rewrite Htab. symmetry. now apply filter_id_absent.
Qed.

(** The double deletion of run 1 in [twoRunsSameInstant]. *)
Lemma deleteRun_twice_witness :
  db twoRunsSameInstant = Some twoRunsDatabase
  /\ noFaults quietEnv twoRunsSameInstant
  /\ exists w1,
       deleteRun quietEnv 1 twoRunsSameInstant = (Ok tt, w1)
       /\ deleteRun quietEnv 1 w1 = (Ok tt, w1)
       /\ table w1 = List.filter (fun r => negb (id r =? 1)) (table twoRunsSameInstant).
Proof.
  assert (db twoRunsSameInstant = Some twoRunsDatabase) as Hd
    by (vm_compute; reflexivity).
  split; [exact Hd|]. split; [apply noFaults_quietEnv|].
  exact (deleteRun_twice quietEnv 1 twoRunsSameInstant twoRunsDatabase Hd
           (noFaults_quietEnv _)).
Defined.

(** X4.  In every reachable state each row's input key is the content key
    of some image and its output key a unique key drawn by an earlier
    call; no assumption on the environment is needed. *)
Theorem reachable_keys_shaped env w r :
  reachable env w -> In r (table w) ->
  (exists data, inputImageId r = hashImage data)
  /\ (exists n, (n < clock w)%nat
                /\ outputImageId r = uniqueKey (dateNow env n) (mathRandom36 env n)).
Proof.
  intros Hreach Hr. destruct (StoreInv_reachable env w Hreach) as [[Hshape _] _].
  exact (Hshape r Hr).
Qed.

(** The second row of [twoRunsSameInstant]. *)
Lemma reachable_keys_shaped_witness :
  reachable quietEnv twoRunsSameInstant
  /\ In secondRunRow (table twoRunsSameInstant)
  /\ (exists data, inputImageId secondRunRow = hashImage data)
  /\ (exists n, (n < clock twoRunsSameInstant)%nat
                /\ outputImageId secondRunRow
                   = uniqueKey (dateNow quietEnv n) (mathRandom36 quietEnv n)).
Proof.
  assert (In secondRunRow (table twoRunsSameInstant)) as Hr
    by (vm_compute; right; left; reflexivity).
  split; [exact reachable_twoRunsSameInstant|]. split; [exact Hr|].
  exact (reachable_keys_shaped quietEnv twoRunsSameInstant secondRunRow
           reachable_twoRunsSameInstant Hr).
Defined.

(** X5.  [getRuns] reads metadata only: it leaves the object store of the
    images and the table as they were. *)
Theorem getRuns_reads_metadata_only env w :
  images (snd (getRuns env w)) = images w
  /\ table (snd (getRuns env w)) = table w.
Proof.
  destruct (getRuns_unchanged env w) as (Hi & Ht & _). split; assumption.
Qed.

(** ** Row ids: unique, positive, never handed out twice *)

Lemma idStep_refl w : idStep w w.
Proof. intros H. split; [exact H|lia]. Qed.

Lemma idStep_trans w1 w2 w3 : idStep w1 w2 -> idStep w2 w3 -> idStep w1 w3.
Proof.
  intros H12 H23 H1. destruct (H12 H1) as [H2 Hle]. destruct (H23 H2) as [H3 Hle'].
  split; [exact H3|lia].
Qed.

Lemma idStep_same w w' : sqlite w' = sqlite w -> db w' = db w -> idStep w w'.
Proof.
  intros Hs Hd. unfold idStep, IdInv, tableSeq, persistedSeq, table, snapshotRows.
  rewrite Hs, Hd. intros H. split; [exact H|lia].
Qed.

Lemma idStep_steady w w' : steady w w' -> idStep w w'.
Proof. intros (Hs & Hd & _). now apply idStep_same. Qed.

Lemma idsBelow_le seq seq' l : seq <= seq' -> idsBelow seq l -> idsBelow seq' l.
Proof.
  intros Hle [Hnd Hb]. split; [exact Hnd|]. intros r Hr. specialize (Hb r Hr). lia.
Qed.

Lemma maxId_nonneg l : 0 <= maxId l.
Proof. induction l as [|r l IH]; simpl; lia. Qed.

Lemma sqlInsert_keepsIds run inputId outputId : keepsIds (sqlInsert run inputId outputId).
Proof.
  intros d [Hnd Hb]. unfold sqlInsert; simpl.
  pose proof (maxId_nonneg (rows d)) as Hm.
  set (newId := Z.max (sqlite_sequence d) (maxId (rows d)) + 1).
  assert (sqlite_sequence d < newId /\ 0 < newId) as [Hlt Hpos] by (subst newId; lia).
  split; [|lia]. split.
  - rewrite map_app. simpl. apply NoDup_app. split; [exact Hnd|]. split.
    + intros x Hx Hx'. apply list_elem_of_In, List.in_map_iff in Hx as (r & <- & Hr).
      apply list_elem_of_In in Hx'. destruct Hx' as [Hx'|[]].
      specialize (Hb r Hr). lia.
    + apply NoDup_singleton.
  - intros r Hr. apply List.in_app_or in Hr as [Hr|[<-|[]]]; simpl.
    + specialize (Hb r Hr). lia.
    + lia.
Qed.

Lemma sqlDelete_keepsIds i : keepsIds (sqlDelete i).
Proof.
  intros d [Hnd Hb]. unfold sqlDelete; simpl. split; [|lia]. split.
  - induction (rows d) as [|r l IH]; simpl; [constructor|].
    inversion Hnd as [|x l' Hx Hl]; subst.
    assert (NoDup (map id (List.filter (fun r => negb (id r =? i)) l))) as IH'
      by (apply IH; [exact Hl|intros r' Hr'; apply Hb; now right]).
    destruct (negb (id r =? i)); [|exact IH'].
    simpl. constructor; [|exact IH'].
    intros Hin. apply Hx. apply list_elem_of_In in Hin. apply list_elem_of_In.
    apply List.in_map_iff in Hin as (r' & E & Hr'). apply List.filter_In in Hr' as [Hr' _].
    apply List.in_map_iff. eauto.
  - intros r Hr. apply List.filter_In in Hr as [Hr _]. auto.
Qed.

Lemma sqlUpdateComment_ids comment i l :
  map id (map (fun r => if id r =? i then setHumanComment comment r else r) l) = map id l.
Proof.
  induction l as [|r l IH]; simpl; [reflexivity|]. rewrite IH.
  destruct (id r =? i); reflexivity.
Qed.

Lemma sqlUpdateComment_keepsIds comment i : keepsIds (sqlUpdateComment comment i).
Proof.
  intros d [Hnd Hb]. unfold sqlUpdateComment; simpl. split; [|lia]. split.
  - now rewrite sqlUpdateComment_ids.
  - intros r' Hr'. apply List.in_map_iff in Hr' as (r & <- & Hr).
    specialize (Hb r Hr). destruct (id r =? i); exact Hb.
Qed.

Lemma table_open w d : db w = Some d -> table w = rows d.
Proof. unfold table. now intros ->. Qed.

Lemma tableSeq_open w d : db w = Some d -> tableSeq w = sqlite_sequence d.
Proof. unfold tableSeq. now intros ->. Qed.

(** Running a statement that keeps the ids in order. *)
Lemma idStep_setDb f w d :
  keepsIds f -> db w = Some d -> idStep w (setDb (Some (f d)) w).
Proof.
  intros Hf Hd (Ht & Hs & Hle).
  rewrite (table_open _ _ Hd), (tableSeq_open _ _ Hd) in Ht.
  rewrite (tableSeq_open _ _ Hd) in Hle.
  destruct (Hf d Ht) as [Ht' Hle']. split; [|unfold persistedSeq; simpl; lia].
  split; [exact Ht'|]. split; [exact Hs|].
  change (persistedSeq w <= sqlite_sequence (f d)). lia.
Qed.

Section IdProofs.

Variable env : Env.

Lemma idStep_persistDatabase w :
  post (persistDatabase env) w (fun _ w' => idStep w w').
Proof.
  intros r w' E. apply persistDatabase_post in E as ((_ & Hd & _) & Hs & _).
  destruct r as [[]|], (db w) as [d|] eqn:Ed;
    try (apply idStep_same; [exact Hs|congruence]).
  intros (Ht & _ & Hle).
  rewrite (table_open _ _ Ed), (tableSeq_open _ _ Ed) in Ht.
  rewrite (tableSeq_open _ _ Ed) in Hle.
  assert (persistedSeq w' = sqlite_sequence d) as Hp
    by (unfold persistedSeq; now rewrite Hs).
  assert (snapshotRows w' = rows d) as Hr
    by (unfold snapshotRows; now rewrite Hs).
  unfold IdInv. rewrite (table_open _ _ Hd), (tableSeq_open _ _ Hd), Hp, Hr.
  split; [|lia]. split; [exact Ht|]. split; [exact Ht|lia].
Qed.

Lemma idStep_initBody w :
  db w = None -> post (initBody env) w (fun _ w' => idStep w w').
Proof.
  intros Hdb. unfold initBody. apply post_bind.
  eapply post_mono; [apply initSqlJs_post|]. intros r1 w1 [(_ & Hs1 & Hd1 & _) _].
  destruct r1 as [[]|e]; [|now apply idStep_same].
  apply post_bind. eapply post_mono; [apply loadFromIndexedDB_post|].
  intros r2 w2 ((_ & Hs2 & Hd2 & _) & Hr2 & _).
  destruct r2 as [existing|e]; [|apply idStep_same; congruence].
  rewrite (Hr2 existing eq_refl). clear Hr2.
  apply post_bind. intros r3 w3 [= <- <-].
  eapply post_mono; [apply idStep_persistDatabase|].
  intros r4 w4 H4. eapply idStep_trans; [|exact H4].
  intros (_ & Hs & _).
  unfold persistedSeq, snapshotRows in Hs. rewrite <- Hs1 in Hs.
  split; [|unfold persistedSeq; simpl; rewrite Hs2, Hs1; lia].
  unfold IdInv, tableSeq, table, persistedSeq, snapshotRows. simpl. rewrite Hs2.
  destruct (sqlite w1) as [s|]; simpl; (split; [exact Hs|split; [exact Hs|lia]]).
Qed.

Lemma idStep_initDatabase w :
  post (initDatabase env) w (fun _ w' => idStep w w').
Proof.
  unfold initDatabase. intros r w'. destruct (db w) eqn:Hdb.
  { intros [= <- <-]. apply idStep_refl. }
  destruct (dbInitPromise w) as [[[]|e]|]; try (intros [= <- <-]; apply idStep_refl).
  destruct (initBody env w) as [r0 w0] eqn:E0. intros [= <- <-].
  apply (idStep_initBody _ Hdb) in E0.
  eapply idStep_trans; [exact E0|]. now apply idStep_same.
Qed.

End IdProofs.

Section IdSteps.

Variable env : Env.

Lemma idStep_saveRun run w : idStep w (snd (saveRun env run w)).
Proof.
  rewrite saveRun_unfold.
  destruct (initDatabase env w) as [r0 w0] eqn:E0.
  apply idStep_initDatabase in E0.
  destruct r0 as [[]|]; [|exact E0].
  destruct (saveImageDeduped env _ false w0) as [ra w1] eqn:Ea.
  destruct (saveImageDeduped env _ true w1) as [rb w2] eqn:Eb.
  apply saveImageDeduped_dedup_post in Ea as (Hs1 & _).
  apply saveImageDeduped_unique_post in Eb as (Hs2 & _).
  assert (idStep w w2) as H2.
  { eapply idStep_trans; [exact E0|].
    eapply idStep_trans; apply idStep_steady; eassumption. }
  destruct ra as [ka|]; [|exact H2].
  destruct rb as [kb|]; [|exact H2].
  destruct (db w2) as [d|] eqn:Ed; [|exact H2].
  cbv zeta. destruct (persistDatabase env _) as [rp w3] eqn:Ep.
  apply idStep_persistDatabase in Ep.
  eapply idStep_trans; [exact H2|]. eapply idStep_trans; [|exact Ep].
  apply idStep_setDb; [apply sqlInsert_keepsIds|exact Ed].
Qed.

Lemma idStep_updateRunComment i comment w :
  idStep w (snd (updateRunComment env i comment w)).
Proof.
  rewrite updateRunComment_unfold.
  destruct (initDatabase env w) as [r0 w0] eqn:E0.
  apply idStep_initDatabase in E0.
  destruct r0 as [[]|]; [|exact E0].
  destruct (db w0) as [d|] eqn:Ed; [|exact E0].
  destruct (persistDatabase env _) as [rp w3] eqn:Ep.
  apply idStep_persistDatabase in Ep.
  eapply idStep_trans; [exact E0|]. eapply idStep_trans; [|exact Ep].
  apply idStep_setDb; [apply sqlUpdateComment_keepsIds|exact Ed].
Qed.

Lemma idStep_deleteRun i w : idStep w (snd (deleteRun env i w)).
Proof.
  rewrite deleteRun_unfold.
  destruct (initDatabase env w) as [r0 w0] eqn:E0.
  apply idStep_initDatabase in E0.
  destruct r0 as [[]|]; [|exact E0].
  destruct (db w0) as [d|] eqn:Ed; [|exact E0].
  destruct (sqlSelectById i d) as [r|]; [|exact E0].
  cbv zeta. destruct (persistDatabase env _) as [rp w1] eqn:Ep.
  apply idStep_persistDatabase in Ep.
  assert (idStep w w1) as H1.
  { eapply idStep_trans; [exact E0|]. eapply idStep_trans; [|exact Ep].
    apply idStep_setDb; [apply sqlDelete_keepsIds|exact Ed]. }
  destruct rp as [[]|]; [|exact H1].
  destruct (deleteBlobs env r _ w1) as [rb w2] eqn:Eb.
  apply deleteBlobs_post in Eb as (Hs & _).
  eapply idStep_trans; [exact H1|]. now apply idStep_steady.
Qed.

Lemma idStep_getRuns w : idStep w (snd (getRuns env w)).
Proof.
  rewrite getRuns_unfold.
  destruct (initDatabase env w) as [r0 w0] eqn:E0.
  apply idStep_initDatabase in E0.
  destruct r0 as [[]|]; [|exact E0]. destruct (db w0); exact E0.
Qed.

Lemma idStep_getRunById i w : idStep w (snd (getRunById env i w)).
Proof.
  rewrite getRunById_unfold.
  destruct (initDatabase env w) as [r0 w0] eqn:E0.
  apply idStep_initDatabase in E0.
  destruct r0 as [[]|]; [|exact E0]. destruct (db w0); exact E0.
Qed.

Lemma idStep_loadImagesForRun run w : idStep w (snd (loadImagesForRun env run w)).
Proof.
  destruct (loadImagesForRun env run w) as [r w'] eqn:E.
  apply loadImagesForRun_post in E as (Hq & _).
  apply idStep_steady, quiet_steady, Hq.
Qed.

Lemma idStep_getRunWithImages i w : idStep w (snd (getRunWithImages env i w)).
Proof.
  unfold getRunWithImages, bind.
  pose proof (idStep_getRunById i w) as H.
  destruct (getRunById env i w) as [[[r|]|] w0]; try exact H.
  simpl in H.
  change (promiseAll2 (loadImage env (inputImageId r)) (loadImage env (outputImageId r)) w0)
    with ((promiseAll2 (loadImage env (inputImageId r))
                       (loadImage env (outputImageId r))) w0).
  pose proof (idStep_loadImagesForRun r w0) as H'.
  unfold loadImagesForRun, bind in H'.
  destruct (promiseAll2 _ _ w0) as [[p|] w1]; simpl in *;
    eapply idStep_trans; eauto.
Qed.

Lemma idStep_reload w : idStep w (reload w).
Proof.
  intros (_ & Hs & _). split; [|unfold persistedSeq; simpl; lia].
  split; [exact Hs|]. split; [exact Hs|]. unfold tableSeq. simpl. lia.
Qed.

Lemma idStep_runOp op w : idStep w (runOp env op w).
Proof.
  destruct op; simpl.
  - apply idStep_reload.
  - destruct (initDatabase env w) as [r w'] eqn:E. exact (idStep_initDatabase env _ _ _ E).
  - destruct (persistDatabase env w) as [r w'] eqn:E.
    exact (idStep_persistDatabase env _ _ _ E).
  - apply idStep_saveRun.
  - apply idStep_getRuns.
  - apply idStep_getRunById.
  - apply idStep_getRunWithImages.
  - destruct (loadImage env imageId w) as [r w'] eqn:E.
    apply loadImage_post in E as (Hq & _). apply idStep_steady, quiet_steady, Hq.
  - apply idStep_loadImagesForRun.
  - apply idStep_updateRunComment.
  - apply idStep_deleteRun.
  - apply (seedSampleDataIfEmpty_keeps env idStep).
    + apply idStep_trans.
    + apply idStep_getRuns.
    + intros w0. now apply idStep_same.
    + apply idStep_saveRun.
Qed.

Lemma IdInv_initial : IdInv initialWorld.
Proof.
  assert (forall seq, idsBelow seq []) as H by (split; [constructor|intros r []]).
  split; [apply H|]. split; [apply H|]. unfold tableSeq, persistedSeq. simpl. lia.
Qed.

Lemma IdInv_reachable w : reachable env w -> IdInv w.
Proof.
  induction 1 as [|op w Hr IH]; [apply IdInv_initial|].
  now apply (idStep_runOp op w).
Qed.

Lemma idStep_runOps ops w : idStep w (runOps env ops w).
Proof.
  revert w. induction ops as [|op ops IH]; intros w; simpl; [apply idStep_refl|].
  eapply idStep_trans; [apply idStep_runOp|apply IH].
Qed.

End IdSteps.

Lemma find_by_unique_id r l :
  NoDup (map id l) -> In r l -> List.find (fun x => id x =? id r) l = Some r.
Proof.
  induction l as [|x l IH]; simpl; [intros _ []|].
  intros Hnd Hin. inversion Hnd as [|y l' Hx Hl]; subst.
  destruct Hin as [->|Hin]; [now rewrite Z.eqb_refl|].
  destruct (Z.eqb_spec (id x) (id r)) as [E|_]; [|now apply IH].
  exfalso. apply Hx. rewrite E. apply list_elem_of_In, List.in_map, Hin.
Qed.

Section IdTheorems.

Variable env : Env.

(** What a successful [getRuns] returns, and where it leaves the handle. *)
Lemma getRuns_ok w l w1 :
  getRuns env w = (Ok l, w1) ->
  exists d, db w1 = Some d /\ l = sqlSelectAllOrdered d /\ rows d = table w
            /\ images w1 = images w.
Proof.
  rewrite getRuns_unfold.
  destruct (initDatabase env w) as [r0 w0] eqn:E0.
  apply initDatabase_post in E0 as (Hi & _ & Ht & _).
  destruct r0 as [[]|]; [|discriminate].
  destruct (db w0) as [d|] eqn:Ed; [|discriminate]. intros [= <- <-].
  exists d. rewrite <- Ht, (table_open _ _ Ed). auto.
Qed.

(** The id a successful [saveRun] returns is above the persisted counter
    and every id of the table, and it is the persisted counter afterwards. *)
Lemma saveRun_id run w i w' :
  IdInv w -> saveRun env run w = (Ok i, w') ->
  persistedSeq w < i /\ persistedSeq w' = i /\ forall r, In r (table w) -> id r < i.
Proof.
  intros Hinv. rewrite saveRun_unfold.
  destruct (initDatabase env w) as [r0 w0] eqn:E0.
  pose proof (idStep_initDatabase env _ _ _ E0 Hinv) as [Hinv0 Hle0].
  apply initDatabase_post in E0 as (_ & _ & Ht0 & _).
  destruct r0 as [[]|]; [|discriminate].
  destruct (saveImageDeduped env _ false w0) as [ra w1] eqn:Ea.
  destruct (saveImageDeduped env _ true w1) as [rb w2] eqn:Eb.
  apply saveImageDeduped_dedup_post in Ea as ((Hsq1 & Hd1 & _) & _).
  apply saveImageDeduped_unique_post in Eb as ((Hsq2 & Hd2 & _) & _).
  destruct ra as [ka|]; [|discriminate]. destruct rb as [kb|]; [|discriminate].
  destruct (db w2) as [d|] eqn:Ed; [|discriminate]. cbv zeta.
  destruct (persistDatabase env _) as [rp w3] eqn:Ep.
  destruct rp as [[]|]; [|discriminate]. intros [= <- <-].
  apply persistDatabase_post in Ep as (_ & Hs3 & _). simpl in Hs3.
  assert (db w0 = Some d) as Hd0 by congruence.
  destruct Hinv0 as ((_ & Hb) & _ & Hle).
  rewrite (table_open _ _ Hd0), (tableSeq_open _ _ Hd0) in *.
  pose proof (maxId_nonneg (rows d)).
  split; [simpl; lia|]. split; [unfold persistedSeq; now rewrite Hs3|].
  intros r Hr. rewrite <- Ht0 in Hr. specialize (Hb r Hr). simpl. lia.
Qed.

(** X6.  In every state reachable by calls and reloads the rows of the
    table have positive, pairwise different ids, so that every row
    [getRuns] lists is the row [getRunById] returns for its id. *)
Theorem reachable_ids_unique w :
  reachable env w ->
  NoDup (map id (table w))
  /\ (forall r, In r (table w) -> 0 < id r)
  /\ forall l w1 r, getRuns env w = (Ok l, w1) -> In r l ->
       getRunById env (id r) w1 = (Ok (Some r), w1).
Proof.
  intros Hreach. destruct (IdInv_reachable env w Hreach) as ((Hnd & Hb) & _).
  split; [exact Hnd|]. split; [intros r Hr; apply Hb, Hr|].
  intros l w1 r E Hr. apply getRuns_ok in E as (d & Hd & -> & Hrows & _).
  rewrite getRunById_unfold, (initDatabase_ready _ _ _ Hd), Hd.
  unfold sqlSelectById. rewrite find_by_unique_id; [reflexivity| |].
  - now rewrite Hrows.
  - eapply Permutation_in; [apply sqlSelectAllOrdered_perm|exact Hr].
Qed.

(** X7.  An id that [saveRun] has returned is never returned again: after
    any calls and reloads, deletions of the newest run included, a later
    [saveRun] returns a greater id.  The id is also greater than every id
    of the table it is added to. *)
Theorem saveRun_ids_never_reused run1 run2 ops w i1 w1 i2 w2 :
  reachable env w ->
  saveRun env run1 w = (Ok i1, w1) ->
  saveRun env run2 (runOps env ops w1) = (Ok i2, w2) ->
  (forall r, In r (table w) -> id r < i1) /\ i1 < i2.
Proof.
  intros Hreach E1 E2.
  pose proof (IdInv_reachable env w Hreach) as Hinv.
  destruct (saveRun_id _ _ _ _ Hinv E1) as (_ & Hp1 & Hfresh).
  split; [exact Hfresh|].
  assert (IdInv w1) as Hinv1.
  { pose proof (idStep_saveRun env run1 w Hinv) as [H _]. now rewrite E1 in H. }
  destruct (idStep_runOps env ops w1 Hinv1) as [Hinv2 Hle].
  destruct (saveRun_id _ _ _ _ Hinv2 E2) as (Hlt & _). lia.
Qed.

End IdTheorems.

(** ** Reloading the page *)

Section ReloadProofs.

Variable env : Env.

(** A state whose snapshot is the export of the open database lists the
    same runs after a reload. *)
Lemma flushed_survivesReload w d :
  db w = Some d -> sqlite w = Some (export d) -> survivesReload env w.
Proof.
  intros Hd Hs env2 Hn. exists (sqlSelectAllOrdered d), w.
  rewrite (getRuns_unfold env), (initDatabase_ready _ _ _ Hd), Hd.
  rewrite (getRuns_unfold env2).
  destruct (initDatabase env2 (reload w)) as [r0 w0] eqn:E0.
  apply initDatabase_post in E0 as (_ & _ & Ht & Hsome & _ & _ & Hok).
  specialize (Hok Hn (fun _ => eq_refl)).
  destruct r0 as [[]|]; [|destruct Hok]. destruct (Hsome I) as [d0 Hd0].
  rewrite Hd0. exists w0. split; [reflexivity|]. f_equal. f_equal.
  rewrite (table_open _ _ Hd0) in Ht. unfold sqlSelectAllOrdered. rewrite Ht.
  unfold table, reload. simpl. now rewrite Hs.
Qed.

(** X8.  What a successful write leaves is durable: after a [saveRun], an
    [updateRunComment] or a [deleteRun] of an existing run that returned
    without error, a reload of the page followed by [getRuns] lists what
    [getRuns] listed before the reload. *)
Theorem successful_writes_survive_reload w :
  (forall run i w', saveRun env run w = (Ok i, w') -> survivesReload env w')
  /\ (forall i comment w',
        updateRunComment env i comment w = (Ok tt, w') -> survivesReload env w')
  /\ (forall i r w',
        deleteRun env i w = (Ok tt, w') -> In r (table w) -> id r = i ->
        survivesReload env w').
Proof.
  split; [|split].
  - intros run i w' E.
    apply saveRun_ok in E as (d & outputId & n & _ & Hd & _ & Hs & _).
    exact (flushed_survivesReload _ _ Hd Hs).
  - intros i comment w'. rewrite updateRunComment_unfold.
    destruct (initDatabase env w) as [[[]|e] w0]; [|discriminate].
    destruct (db w0) as [d|] eqn:Ed; [|discriminate]. intros Ep.
    apply persistDatabase_post in Ep as ((_ & Hd & _) & Hs & _). simpl in Hd, Hs.
    exact (flushed_survivesReload _ _ Hd Hs).
  - intros i r w' E Hr Hid. rewrite deleteRun_unfold in E.
    destruct (initDatabase env w) as [r0 w0] eqn:E0.
    apply initDatabase_post in E0 as (_ & _ & Ht & _).
    destruct r0 as [[]|]; [|discriminate].
    destruct (db w0) as [d|] eqn:Ed; [|discriminate].
    rewrite (table_open _ _ Ed) in Ht.
    destruct (sqlSelectById i d) as [r'|] eqn:Hsel.
    + cbv zeta in E. destruct (persistDatabase env _) as [rp w1] eqn:Ep.
      apply persistDatabase_post in Ep as ((_ & Hd & _) & Hs & _). simpl in Hd, Hs.
      destruct rp as [[]|]; [|discriminate].
      apply deleteBlobs_post in E as ((Hs2 & Hd2 & _) & _).
      apply (flushed_survivesReload _ (sqlDelete i d)); congruence.
    + exfalso. unfold sqlSelectById in Hsel. rewrite Ht in Hsel.
      eapply List.find_none in Hsel; [|exact Hr]. simpl in Hsel.
      apply Z.eqb_neq in Hsel. contradiction.
Qed.

(** X9.  A failed first [initDatabase] is not retried.  When it failed
    before the handle was assigned (loading the SQL engine or reading the
    snapshot), every later [initDatabase], [getRuns] and [saveRun] of the
    page fails with the same error and touches nothing, whatever the
    environment does by then; only a reload, with no request failing, opens
    the store.  When it failed in the first flush, the handle is assigned
    and later calls succeed. *)
Theorem initDatabase_failure_is_kept w e w' :
  db w = None -> dbInitPromise w = None ->
  initDatabase env w = (Err e, w') ->
  forall env2,
    match db w' with
    | None =>
        initDatabase env2 w' = (Err e, w')
        /\ getRuns env2 w' = (Err e, w')
        /\ (forall run, saveRun env2 run w' = (Err e, w'))
        /\ (noFaults env2 (reload w') -> isOk (fst (initDatabase env2 (reload w'))))
    | Some _ => initDatabase env2 w' = (Ok tt, w')
    end.
Proof.
  intros Hdb Hp E env2. unfold initDatabase in E. rewrite Hdb, Hp in E.
  destruct (initBody env w) as [r0 w0]. injection E as -> <-.
  change (db (setDbInitPromise (Some (Err e)) w0)) with (db w0).
  destruct (db w0) as [d|] eqn:Hd0.
  - apply initDatabase_ready with (d := d). exact Hd0.
  - assert (initDatabase env2 (setDbInitPromise (Some (Err e)) w0)
            = (Err e, setDbInitPromise (Some (Err e)) w0)) as Hinit.
    { unfold initDatabase. simpl. now rewrite Hd0. }
    split; [exact Hinit|]. split; [|split].
    + now rewrite getRuns_unfold, Hinit.
    + intros run. now rewrite saveRun_unfold, Hinit.
    + intros Hn.
      destruct (initDatabase env2 (reload _)) as [r w2] eqn:E2.
      apply initDatabase_post in E2 as (_ & _ & _ & _ & _ & _ & Hok).
      apply Hok; [exact Hn|reflexivity].
Qed.

End ReloadProofs.

(** ** The list of the sidebar *)

Lemma string_le_nltb a b : (a ≤ b)%string -> String.ltb b a = false.
Proof.
  unfold String.le, String.leb, String.ltb. rewrite (String.compare_antisym a b).
  destruct (String.compare b a); simpl; intros H; auto; destruct H.
Qed.

Lemma insertDesc_head r l :
  Forall (fun y => (createdAt y ≤ createdAt r)%string) l -> insertDesc r l = r :: l.
Proof.
  destruct 1 as [|y l Hy _]; simpl; [reflexivity|].
  now rewrite (string_le_nltb _ _ Hy).
Qed.

(** Filtering a sorted list and inserting commute. *)
Lemma insertDesc_filter (p : RunRecord -> bool) r l :
  StronglySorted createdDesc l ->
  List.filter p (insertDesc r l)
  = if p r then insertDesc r (List.filter p l) else List.filter p l.
Proof.
  induction 1 as [|x l Hs IH Hx]; simpl.
  - destruct (p r); reflexivity.
  - destruct (String.ltb (createdAt r) (createdAt x)) eqn:E; simpl.
    + rewrite IH. destruct (p x), (p r); simpl; try reflexivity. now rewrite E.
    + destruct (p r) eqn:Er, (p x) eqn:Ex; simpl; rewrite ?Er, ?E; try reflexivity.
      symmetry. apply insertDesc_head.
      apply string_nltb_le in E.
      assert (Forall (fun y => (createdAt y ≤ createdAt r)%string) l) as Hall.
      { eapply Forall_impl; [exact Hx|]. intros y Hy. unfold createdDesc in Hy.
        etrans; eassumption. }
      clear -Hall. induction Hall as [|y l Hy Hl IH]; simpl; [constructor|].
      destruct (p y); [constructor; assumption|exact IH].
Qed.

Lemma sqlSelectAllOrdered_sqlDelete i d :
  sqlSelectAllOrdered (sqlDelete i d)
  = List.filter (fun r => negb (id r =? i)) (sqlSelectAllOrdered d).
Proof.
  unfold sqlSelectAllOrdered, sqlDelete. simpl.
  induction (rows d) as [|r l IH]; simpl; [reflexivity|].
  rewrite insertDesc_filter.
  - destruct (negb (id r =? i)); simpl; now rewrite IH.
  - apply (sqlSelectAllOrdered_sorted {| rows := l; sqlite_sequence := 0;
                                         last_insert_rowid := 0 |}).
Qed.

Section SidebarProofs.

Variable env : Env.

(** X10.  The update the sidebar makes to its list after a deletion is
    what the store would answer: when [getRuns] returned [l] and a
    [deleteRun] then succeeds, a new [getRuns] returns [l] without the rows
    of that id, in the same order. *)
Theorem getRuns_after_deleteRun i w l w0 w1 :
  getRuns env w = (Ok l, w0) -> deleteRun env i w0 = (Ok tt, w1) ->
  getRuns env w1 = (Ok (List.filter (fun r => negb (id r =? i)) l), w1).
Proof.
  intros Eg Ed. apply getRuns_ok in Eg as (d & Hd & -> & _).
  rewrite <- sqlSelectAllOrdered_sqlDelete.
  rewrite deleteRun_unfold, (initDatabase_ready _ _ _ Hd), Hd in Ed.
  destruct (sqlSelectById i d) as [r|] eqn:Hsel.
  - cbv zeta in Ed. destruct (persistDatabase env _) as [rp w2] eqn:Ep.
    apply persistDatabase_post in Ep as ((_ & Hd2 & _) & _). simpl in Hd2.
    destruct rp as [[]|]; [|discriminate].
    apply deleteBlobs_post in Ed as ((_ & Hd1 & _) & _).
    assert (db w1 = Some (sqlDelete i d)) as Hdb by congruence.
    now rewrite getRuns_unfold, (initDatabase_ready _ _ _ Hdb), Hdb.
  - injection Ed as <-.
    rewrite getRuns_unfold, (initDatabase_ready _ _ _ Hd), Hd.
    unfold sqlSelectAllOrdered, sqlDelete. simpl.
    now rewrite (filter_id_absent i (rows d) Hsel).
Qed.



End SidebarProofs.

(** ** Seeding the sample run *)

Lemma sqlSelectAllOrdered_nil d : sqlSelectAllOrdered d = [] -> rows d = [].
Proof.
  intros E. pose proof (sqlSelectAllOrdered_perm d) as Hp. rewrite E in Hp.
  now apply Permutation_nil in Hp.
Qed.

Section SeedProofs.

Variable env : Env.
Variable site : Site.

Lemma seedSampleDataIfEmpty_unfold w :
  seedSampleDataIfEmpty env site w =
    match getRuns env w with
    | (Err e, w0) => (Err e, w0)
    | (Ok [], w0) =>
        let (inputImage, w1) :=
          fetchImageAsDataUrl site (BASE_URL site +:+ "sample/input.png") w0 in
        let (outputImage, w2) :=
          fetchImageAsDataUrl site (BASE_URL site +:+ "sample/output.jpg") w1 in
        match inputImage, outputImage with
        | Some inputImage, Some outputImage =>
            let (createdAt, w3) := newDateISO site w2 in
            match saveRun env (seededRun createdAt inputImage outputImage) w3 with
            | (Ok _, w4) => (Ok true, w4)
            | (Err _, w4) => (Ok false, w4)
            end
        | _, _ => (Ok false, w2)
        end
    | (Ok (_ :: _), w0) => (Ok false, w0)
    end.
Proof.
  unfold seedSampleDataIfEmpty, bind.
  destruct (getRuns env w) as [[[|r l]|e] w0]; reflexivity.
Qed.

(** X12.  With a run in the table, [seedSampleDataIfEmpty] fetches and
    saves nothing: it never answers [true], and it leaves the state
    [getRuns] leaves, images and table as they were. *)
Theorem seedSampleDataIfEmpty_keeps_history w :
  table w <> [] ->
  fst (seedSampleDataIfEmpty env site w) <> Ok true
  /\ snd (seedSampleDataIfEmpty env site w) = snd (getRuns env w)
  /\ images (snd (seedSampleDataIfEmpty env site w)) = images w
  /\ table (snd (seedSampleDataIfEmpty env site w)) = table w.
Proof.
  intros Hne. destruct (getRuns_unchanged env w) as (Hi & Ht & _).
  rewrite seedSampleDataIfEmpty_unfold.
  destruct (getRuns env w) as [[[|r l]|e] w0] eqn:Eg; simpl in *.
  - exfalso. apply getRuns_ok in Eg as (d & _ & Hl & Hrows & _).
    pose proof (sqlSelectAllOrdered_perm d) as Hp. rewrite <- Hl in Hp.
    apply Permutation_nil in Hp. congruence.
  - repeat split; auto; discriminate.
  - repeat split; auto; discriminate.
Qed.

(** X13.  When [seedSampleDataIfEmpty] answers [true], the table was
    empty and now holds exactly one row, the sample run with the two
    fetched images; the row is in the persisted snapshot, its output blob
    is the fetched output image and its input key is present. *)
Theorem seedSampleDataIfEmpty_seeds_one_run w w' :
  seedSampleDataIfEmpty env site w = (Ok true, w') ->
  table w = []
  /\ exists row createdAt inputImage outputImage n m,
       fetchedDataUrl site (BASE_URL site +:+ "sample/input.png") n = Some inputImage
       /\ fetchedDataUrl site (BASE_URL site +:+ "sample/output.jpg") m = Some outputImage
       /\ table w' = [row] /\ snapshotRows w' = [row]
       /\ metadataOf (seededRun createdAt inputImage outputImage) row
       /\ inputImageId row = hashImage inputImage
       /\ is_Some (images w' !! inputImageId row)
       /\ images w' !! outputImageId row = Some outputImage.
Proof.
  rewrite seedSampleDataIfEmpty_unfold.
  destruct (getRuns env w) as [[[|r l]|e] w0] eqn:Eg; try discriminate.
  apply getRuns_ok in Eg as (d0 & Hd0 & Hl & Hrows & _).
  assert (table w = []) as Hempty.
  { pose proof (sqlSelectAllOrdered_perm d0) as Hp. rewrite <- Hl in Hp.
    apply Permutation_nil in Hp. congruence. }
  unfold fetchImageAsDataUrl, newDateISO.
  destruct (fetchedDataUrl site _ (clock w0)) as [inputImage|] eqn:Ei;
    [|destruct (fetchedDataUrl site _ _); discriminate].
  destruct (fetchedDataUrl site _ (clock (tick w0))) as [outputImage|] eqn:Eo;
    [|discriminate].
  destruct (saveRun env _ _) as [[i|e] w4] eqn:Es; [|discriminate].
  intros [= <-]. split; [exact Hempty|].
  apply saveRun_ok in Es as (d & outputId & k & Hd & Hdb & _ & Hsq & _ & _ & Himg).
  assert (rows d = []) as Hnil.
  { rewrite Hd. unfold table. simpl. rewrite Hd0. congruence. }
  simpl in Himg.
  eexists _, _, inputImage, outputImage, _, _.
  split; [exact Ei|]. split; [exact Eo|].
  split; [rewrite (table_open _ _ Hdb); unfold sqlInsert; simpl; rewrite Hnil;
          reflexivity|].
  split; [unfold snapshotRows; rewrite Hsq; simpl; rewrite Hnil; reflexivity|].
  split; [unfold metadataOf; simpl; repeat split|].
  split; [reflexivity|]. simpl. rewrite Himg. split.
  - rewrite lookup_insert. case_decide; [eauto|].
    case_bool_decide; [assumption|]. rewrite lookup_insert_eq. eauto.
  - apply lookup_insert_eq.
Qed.

End SeedProofs.

(** X14.  Seeding seeds once: after [seedSampleDataIfEmpty] has answered
    [true], another call, whatever the site and the environment do by
    then, answers [false] and changes nothing. *)
Theorem seedSampleDataIfEmpty_twice env site w w' :
  seedSampleDataIfEmpty env site w = (Ok true, w') ->
  forall env2 site2, seedSampleDataIfEmpty env2 site2 w' = (Ok false, w').
Proof.
  rewrite seedSampleDataIfEmpty_unfold.
  destruct (getRuns env w) as [[[|r l]|e] w0] eqn:Eg; try discriminate.
  unfold fetchImageAsDataUrl, newDateISO.
  destruct (fetchedDataUrl site _ (clock w0)) as [inputImage|] eqn:Ei;
    [|destruct (fetchedDataUrl site _ _); discriminate].
  destruct (fetchedDataUrl site _ (clock (tick w0))) as [outputImage|] eqn:Eo;
    [|discriminate].
  destruct (saveRun env _ _) as [[i|e] w4] eqn:Es; [|discriminate].
  intros [= <-] env2 site2.
  apply saveRun_ok in Es as (d & outputId & k & _ & Hdb & _).
  rewrite seedSampleDataIfEmpty_unfold, getRuns_unfold,
    (initDatabase_ready _ _ _ Hdb), Hdb.
  destruct (sqlSelectAllOrdered _) as [|r l] eqn:El; [|reflexivity].
  apply sqlSelectAllOrdered_nil in El. simpl in El.
  symmetry in El. now apply app_cons_not_nil in El.
Qed.

(** ** Data URLs: [dataUrlToParts] *)

Lemma append_assoc (a b c : string) : (a +:+ b) +:+ c = a +:+ b +:+ c.
Proof.
  induction a as [|x a IH]; [reflexivity|]. now rewrite !append_String, IH.
Qed.

Lemma append_nil_r (a : string) : a +:+ "" = a.
Proof.
  induction a as [|x a IH]; [reflexivity|]. now rewrite append_String, IH.
Qed.

Lemma lacks_app seps a b : lacks seps (a +:+ b) <-> lacks seps a /\ lacks seps b.
Proof.
  unfold lacks. induction a as [|x a IH]; [rewrite append_Empty; simpl; tauto|].
  rewrite append_String. simpl. rewrite IH. tauto.
Qed.

Lemma lacks_incl seps seps' s :
  (forall c, In c seps' -> In c seps) -> lacks seps s -> lacks seps' s.
Proof.
  intros Hincl. unfold lacks. induction s as [|x s IH]; simpl; [auto|].
  intros [Hx Hs]. split; [intros H; apply Hx, Hincl, H|apply IH, Hs].
Qed.

Lemma lacks_union seps seps' s :
  lacks seps s -> lacks seps' s -> lacks (seps ++ seps') s.
Proof.
  unfold lacks. induction s as [|x s IH]; simpl; [auto|].
  intros [Hx Hs] [Hx' Hs']. split; [|now apply IH].
  intros H. apply List.in_app_or in H as [H|H]; auto.
Qed.

Lemma splitOn_lacks c p : lacks [c] p -> splitOn c p = (p, []).
Proof.
  unfold lacks. induction p as [|x p IH]; simpl; [reflexivity|].
  intros [Hx Hp]. rewrite (IH Hp).
  destruct (Ascii.eqb_spec x c) as [->|_]; [|reflexivity].
  exfalso. apply Hx. now left.
Qed.

Lemma splitOn_app c p t :
  lacks [c] p ->
  splitOn c (p +:+ String c t) = (p, fst (splitOn c t) :: snd (splitOn c t)).
Proof.
  unfold lacks. induction p as [|x p IH]; [rewrite append_Empty|rewrite append_String];
    simpl.
  - intros _. destruct (splitOn c t) as [q qs]. now rewrite Ascii.eqb_refl.
  - intros [Hx Hp]. rewrite (IH Hp).
    destruct (Ascii.eqb_spec x c) as [->|_]; [|reflexivity].
    exfalso. apply Hx. now left.
Qed.

Lemma splitOn_app_fst c a q :
  lacks [c] a -> fst (splitOn c (a +:+ q)) = a +:+ fst (splitOn c q).
Proof.
  unfold lacks. induction a as [|x a IH]; [reflexivity|].
  rewrite !append_String. simpl.
  intros [Hx Ha]. specialize (IH Ha). destruct (splitOn c (a +:+ q)) as [p ps].
  simpl in IH. subst p.
  destruct (Ascii.eqb_spec x c) as [->|_]; [|reflexivity].
  exfalso. apply Hx. now left.
Qed.

(** What [splitOn] returns, put together again, is the string; no piece
    holds the separator. *)
Lemma splitOn_joinOn c s :
  s = fst (splitOn c s) +:+ joinOn c (snd (splitOn c s))
  /\ lacks [c] (fst (splitOn c s))
  /\ Forall (lacks [c]) (snd (splitOn c s)).
Proof.
  induction s as [|x s (IH1 & IH2 & IH3)]; simpl.
  - repeat split. constructor.
  - destruct (splitOn c s) as [p ps]. simpl in *.
    destruct (Ascii.eqb_spec x c) as [->|Hne]; simpl.
    + split; [now rewrite append_Empty, <- IH1|]. split; [exact I|]. now constructor.
    + split; [now rewrite append_String, <- IH1|]. split; [|exact IH3].
      split; [|exact IH2]. intros [E|[]]. now apply Hne.
Qed.

Lemma isEmpty_false s : s <> "" -> isEmpty s = false.
Proof. destruct s; [congruence|reflexivity]. Qed.

Lemma isEmpty_false_inv s : isEmpty s = false -> s <> "".
Proof. destruct s; [discriminate|discriminate]. Qed.

Lemma splitOn_fst_shaped c rest :
  match rest with EmptyString => True | String x _ => x = c end ->
  fst (splitOn c rest) = "".
Proof.
  destruct rest as [|x t]; [reflexivity|]. intros ->. simpl.
  destruct (splitOn c t). now rewrite Ascii.eqb_refl.
Qed.

Lemma joinOn_shaped c ps :
  match joinOn c ps with EmptyString => True | String x _ => x = c end.
Proof. destruct ps; simpl; auto. Qed.

Lemma joinOn_lacks seps c ps :
  ~ In c seps -> Forall (lacks seps) ps -> lacks seps (joinOn c ps).
Proof.
  intros Hc. induction 1 as [|p ps Hp _ IH]; simpl; [exact I|].
  split; [exact Hc|]. apply lacks_app. auto.
Qed.

Lemma dataUrlToParts_iff dataUrl mimeType base64 :
  dataUrlToParts dataUrl = Some (mimeType, base64)
  <-> acceptedDataUrl dataUrl mimeType base64.
Proof.
  split.
  - unfold dataUrlToParts.
    destruct (splitOn_joinOn "," dataUrl) as (Hu & Hmeta & Hrest).
    destruct (splitOn "," dataUrl) as [meta rest]. simpl in Hu, Hmeta, Hrest.
    destruct (splitOn_joinOn ";" meta) as (Hm0 & Hl0 & Hps).
    destruct (splitOn ";" meta) as [m0 ps]. simpl in *.
    destruct (splitOn_joinOn ":" m0) as (Hsch & Hls & Hqs).
    destruct (splitOn ":" m0) as [scheme qs]. simpl in *.
    destruct qs as [|m qs]; [discriminate|]. destruct rest as [|b rest]; [discriminate|].
    simpl. destruct (isEmpty m) eqn:Em; [discriminate|].
    destruct (isEmpty b) eqn:Eb; [discriminate|]. intros [= <- <-].
    apply isEmpty_false_inv in Em, Eb.
    inversion Hqs as [|? ? Hlm Hlqs]; subst. inversion Hrest as [|? ? Hlb Hlrest]; subst.
    assert (lacks [";"%char] scheme /\ lacks [";"%char] m
            /\ lacks [";"%char] (joinOn ":" qs)) as (Hs1 & Hs2 & Hs3).
    { apply lacks_app in Hl0 as [H1 H2]. destruct H2 as [_ H2].
      apply lacks_app in H2 as [H2 H3]. auto. }
    assert (lacks [","%char] scheme /\ lacks [","%char] m
            /\ lacks [","%char] (joinOn ":" qs)
            /\ lacks [","%char] (joinOn ";" ps)) as (Hc1 & Hc2 & Hc3 & Hc4).
    { apply lacks_app in Hmeta as [H1 H4]. apply lacks_app in H1 as [H1 H2].
      destruct H2 as [_ H2]. apply lacks_app in H2 as [H2 H3]. auto. }
    exists scheme, (joinOn ":" qs +:+ joinOn ";" ps), (joinOn "," rest).
    split; [cbn [joinOn];
            repeat (rewrite ?append_assoc, ?append_String, ?append_Empty);
            reflexivity|].
    split; [apply (lacks_union [","%char] [";"; ":"]%char); [exact Hc1|];
            apply (lacks_union [";"%char] [":"%char]); assumption|].
    split; [apply (lacks_union [","%char] [";"; ":"]%char); [exact Hc2|];
            apply (lacks_union [";"%char] [":"%char]); assumption|].
    split; [exact Em|]. split; [|split; [exact Hlb|split; [exact Eb|]]].
    + split; [apply lacks_app; auto|].
      destruct qs as [|q qs']; simpl; [|now right].
      rewrite append_Empty. destruct ps; simpl; auto.
    + apply joinOn_shaped.
  - intros (scheme & params & rest & -> & Hsch & Hm & Hmne & [Hpar Hpar0]
            & Hb & Hbne & Hrest).
    unfold dataUrlToParts.
    assert (lacks [","%char] scheme /\ lacks [";"%char] scheme /\ lacks [":"%char] scheme)
      as (Hs1 & Hs2 & Hs3)
      by (repeat split; eapply lacks_incl; try exact Hsch; simpl; intuition).
    assert (lacks [","%char] mimeType /\ lacks [";"%char] mimeType
            /\ lacks [":"%char] mimeType) as (Hm1 & Hm2 & Hm3)
      by (repeat split; eapply lacks_incl; try exact Hm; simpl; intuition).
    replace (scheme +:+ ":" +:+ mimeType +:+ params +:+ "," +:+ base64 +:+ rest)
      with ((scheme +:+ ":" +:+ mimeType +:+ params) +:+ String "," (base64 +:+ rest))
      by (rewrite !append_assoc; reflexivity).
    rewrite splitOn_app; cycle 1.
    { apply lacks_app. split; [exact Hs1|]. rewrite append_String, append_Empty.
      split; [intros [E|[]]; discriminate E|]. apply lacks_app. auto. }
    rewrite (splitOn_app_fst "," base64 rest Hb), (splitOn_fst_shaped "," rest Hrest),
      append_nil_r.
    replace (scheme +:+ ":" +:+ mimeType +:+ params)
      with ((scheme +:+ ":" +:+ mimeType) +:+ params)
      by (rewrite !append_assoc; reflexivity).
    rewrite splitOn_app_fst; cycle 1.
    { apply lacks_app. split; [exact Hs2|]. rewrite append_String, append_Empty.
      split; [intros [E|[]]; discriminate E|exact Hm2]. }
    repeat (rewrite ?append_assoc, ?append_String, ?append_Empty).
    rewrite (splitOn_app ":" scheme _ Hs3). simpl snd. simpl head.
    rewrite (splitOn_app_fst ":" mimeType _ Hm3).
    assert (fst (splitOn ":" (fst (splitOn ";" params))) = "") as ->.
    { apply splitOn_fst_shaped. destruct params as [|x t]; [exact I|].
      simpl. destruct (splitOn ";" t) as [q qs].
      destruct Hpar0 as [-> | ->]; reflexivity. }
    rewrite append_nil_r. simpl.
    now rewrite (isEmpty_false _ Hmne), (isEmpty_false _ Hbne).
Qed.

(** A literal holds none of the separators. *)
Ltac lacks_literal :=
  repeat split; let H := fresh in intros H; simpl in H; intuition discriminate.

(** X15.  [dataUrlToParts] succeeds exactly on the strings of the form
    [scheme:mimeType params,base64 rest]: the media type and the payload
    are not empty, the scheme and the media type hold no comma, semicolon
    or colon, the payload no comma.  It throws on every other string; the
    scheme need not be [data], parameters and what follows a second comma
    are dropped. *)
Theorem dataUrlToParts_accepts dataUrl mimeType base64 :
  dataUrlToParts dataUrl = Some (mimeType, base64)
  <-> acceptedDataUrl dataUrl mimeType base64.
Proof. apply dataUrlToParts_iff. Qed.

(** X16.  What [generateCover] sends for the image is a fixed point: the
    URL it builds from the parts of [inputDataUrl] is taken apart into the
    same parts, so building it again gives the same URL. *)
Theorem requestImageUrl_is_canonical inputDataUrl url :
  requestImageUrl inputDataUrl = Some url ->
  requestImageUrl url = Some url
  /\ exists mimeType base64,
       dataUrlToParts inputDataUrl = Some (mimeType, base64)
       /\ dataUrlToParts url = Some (mimeType, base64).
Proof.
  unfold requestImageUrl.
  destruct (dataUrlToParts inputDataUrl) as [[m b]|] eqn:E; [|discriminate].
  intros [= <-].
  assert (dataUrlToParts ("data:" +:+ m +:+ ";base64," +:+ b) = Some (m, b)) as E'.
  { apply dataUrlToParts_iff in E
      as (_ & _ & _ & _ & _ & Hm & Hmne & _ & Hb & Hbne & _).
    apply dataUrlToParts_iff. exists "data", ";base64", "".
    split; [now rewrite append_nil_r|].
    split; [lacks_literal|].
    split; [exact Hm|]. split; [exact Hmne|].
    split; [split; [lacks_literal|now left]|].
    split; [exact Hb|]. split; [exact Hbne|exact I]. }
  rewrite E'. split; [reflexivity|]. exists m, b. auto.
Qed.

(** ** The debug log: [appendLog] *)

Lemma sliceLast_app_sliceLast {A} n (l es : list A) :
  sliceLast n (sliceLast n l ++ es) = sliceLast n (l ++ es).
Proof.
  unfold sliceLast. rewrite !length_app, length_drop.
  destruct (decide (length l <= n)%nat) as [Hle|Hgt].
  - replace (length l - n)%nat with 0%nat by lia. simpl.
    now replace (length l - 0)%nat with (length l) by lia.
  - replace (length l - (length l - n) + length es - n)%nat with (length es) by lia.
    replace (length l + length es - n)%nat with ((length l - n) + length es)%nat by lia.
    rewrite <- (drop_drop (l ++ es)), (drop_app_le l es) by lia. reflexivity.
Qed.

(** X17.  The log keeps the newest entries: logging the events [es] on top
    of a restored log gives the last [MAX_LOG_ENTRIES] of the entries ever
    written, oldest first. *)
Theorem appendLog_keeps_newest {A} (l es : list A) :
  fold_left appendLog es (sliceLast MAX_LOG_ENTRIES l)
  = sliceLast MAX_LOG_ENTRIES (l ++ es).
Proof.
  revert l. induction es as [|e es IH]; intros l; simpl.
  - now rewrite app_nil_r.
  - unfold appendLog at 2. rewrite sliceLast_app_sliceLast, IH, <- app_assoc.
    reflexivity.
Qed.

(** X18.  One [appendLog]: the new entry is the last one, the log never
    holds more than [MAX_LOG_ENTRIES] entries, and nothing is dropped
    while there is room. *)
Theorem appendLog_bounded {A} (prev : list A) (entry : A) :
  last (appendLog prev entry) = Some entry
  /\ length (appendLog prev entry) = Nat.min (length prev + 1) MAX_LOG_ENTRIES
  /\ ((length prev < MAX_LOG_ENTRIES)%nat -> appendLog prev entry = prev ++ [entry]).
Proof.
  unfold appendLog, sliceLast, MAX_LOG_ENTRIES. rewrite length_app. simpl.
  split; [|split].
  - rewrite drop_app_le by lia. apply last_snoc.
  - rewrite length_drop, length_app. simpl. lia.
  - intros H. now replace (length prev + 1 - 200)%nat with 0%nat by lia.
Qed.

(** ** [summarizeText] *)

Lemma trimStart_length s : (length (trimStart s) <= length s)%nat.
Proof. induction s as [|c s IH]; simpl; [lia|]. destruct (isWhiteSpace c); simpl; lia. Qed.

Lemma trimStart_fixed c s : isWhiteSpace c = false -> trimStart (c :: s) = c :: s.
Proof. simpl. now intros ->. Qed.

Lemma trimStart_head s :
  trimStart s = [] \/ exists c s', trimStart s = c :: s' /\ isWhiteSpace c = false.
Proof.
  induction s as [|c s IH]; simpl; [now left|].
  destruct (isWhiteSpace c) eqn:E; [exact IH|]. right. eauto.
Qed.

Lemma trimStart_idem s : trimStart (trimStart s) = trimStart s.
Proof.
  destruct (trimStart_head s) as [->|(c & s' & -> & Hc)]; [reflexivity|].
  now apply trimStart_fixed.
Qed.

Lemma trimStart_suffix s : exists pre, s = pre ++ trimStart s.
Proof.
  induction s as [|c s [pre IH]]; simpl; [now exists []|].
  destruct (isWhiteSpace c); [|now exists []].
  exists (c :: pre). simpl. now rewrite <- IH.
Qed.

Lemma trimEnd_prefix s : exists post, s = trimEnd s ++ post.
Proof.
  unfold trimEnd. destruct (trimStart_suffix (rev s)) as [pre H].
  exists (rev pre). rewrite <- rev_app_distr, <- H. now rewrite rev_involutive.
Qed.

(** A text with no whitespace at either end. *)
Lemma trim_fixed s : trimStart s = s -> trimStart (rev s) = rev s -> trim s = s.
Proof.
  intros H1 H2. unfold trim, trimEnd. now rewrite H1, H2, rev_involutive.
Qed.

Lemma trimStart_trim s : trimStart (trim s) = trim s.
Proof.
  unfold trim. destruct (trimEnd_prefix (trimStart s)) as [post H].
  destruct (trimEnd (trimStart s)) as [|c t] eqn:E; [reflexivity|].
  apply trimStart_fixed. destruct (isWhiteSpace c) eqn:Ec; [|reflexivity].
  exfalso. pose proof (trimStart_idem s) as Hi. rewrite H in Hi at 1.
  simpl in Hi. rewrite Ec in Hi.
  pose proof (trimStart_length (t ++ post)) as Hlen. rewrite Hi, H in Hlen.
  simpl in Hlen. lia.
Qed.

Lemma trimStart_rev_trim s : trimStart (rev (trim s)) = rev (trim s).
Proof. unfold trim, trimEnd. now rewrite rev_involutive, trimStart_idem. Qed.

Lemma trim_idem s : trim (trim s) = trim s.
Proof. apply trim_fixed; [apply trimStart_trim|apply trimStart_rev_trim]. Qed.

Lemma isWhiteSpace_ellipsis : isWhiteSpace ellipsis = false.
Proof. reflexivity. Qed.

(** What [summarizeText] returns when it cuts. *)
Lemma summarizeText_cut text max :
  0 <= max < Z.of_nat (length (trim text)) ->
  summarizeText text max = firstn (Z.to_nat max) (trim text) ++ [ellipsis]
  /\ length (firstn (Z.to_nat max) (trim text)) = Z.to_nat max.
Proof.
  intros H. unfold summarizeText, sliceTo.
  destruct (Z.leb_spec (Z.of_nat (length (trim text))) max) as [Hle|_]; [lia|].
  destruct (Z.ltb_spec max 0) as [Hlt|_]; [lia|].
  split; [reflexivity|]. rewrite length_take. lia.
Qed.

(** X19.  For a limit that is not negative, [summarizeText] returns at
    most [max] code units and the ellipsis, and summarizing its result
    again changes nothing. *)
Theorem summarizeText_bounded_idempotent text max :
  0 <= max ->
  Z.of_nat (length (summarizeText text max)) <= max + 1
  /\ summarizeText (summarizeText text max) max = summarizeText text max.
Proof.
  intros Hmax.
  destruct (Z.leb_spec (Z.of_nat (length (trim text))) max) as [Hle|Hgt].
  - assert (summarizeText text max = trim text) as E.
    { unfold summarizeText.
      destruct (Z.leb_spec (Z.of_nat (length (trim text))) max); [reflexivity|lia]. }
    rewrite E. split; [lia|]. unfold summarizeText. rewrite trim_idem.
    destruct (Z.leb_spec (Z.of_nat (length (trim text))) max); [reflexivity|lia].
  - destruct (summarizeText_cut text max) as [E Hlen]; [lia|].
    set (x := firstn (Z.to_nat max) (trim text)) in *.
    rewrite E. split; [rewrite length_app; simpl; lia|].
    assert (trim (x ++ [ellipsis]) = x ++ [ellipsis]) as Hfix.
    { apply trim_fixed.
      - destruct x as [|c x'] eqn:Ex; [reflexivity|].
        simpl. apply trimStart_fixed.
        pose proof (trimStart_trim text) as Ht.
        destruct (trim text) as [|c' t]; [destruct (Z.to_nat max); discriminate Ex|].
        subst x. destruct (Z.to_nat max); [discriminate Ex|]. injection Ex as -> _.
        simpl in Ht. destruct (isWhiteSpace c); [|reflexivity].
        exfalso. pose proof (trimStart_length t) as Hl. rewrite Ht in Hl.
        simpl in Hl. lia.
      - rewrite rev_app_distr. simpl. reflexivity. }
    destruct (summarizeText_cut (x ++ [ellipsis]) max) as [E' _].
    { rewrite Hfix, length_app. simpl. lia. }
    rewrite E', Hfix, take_app_length'; [reflexivity|lia].
Qed.

(** ** The keys under which blobs are stored *)

Lemma blobKeyed_mono env t t' k data :
  (t <= t')%nat -> blobKeyed env t k data -> blobKeyed env t' k data.
Proof. intros Hle [H|(n & Hn & H)]; [now left|]. right. exists n. split; [lia|exact H]. Qed.

Lemma blobStep_same env w w' :
  images w' = images w -> (clock w <= clock w')%nat -> blobStep env w w'.
Proof. intros Hi Hc. split; [exact Hc|]. intros k data. rewrite Hi. now left. Qed.

Lemma blobStep_trans env w1 w2 w3 :
  blobStep env w1 w2 -> blobStep env w2 w3 -> blobStep env w1 w3.
Proof.
  intros [Hc H12] [Hc' H23]. split; [lia|]. intros k data H3.
  destruct (H23 k data H3) as [H2|H]; [|now right].
  destruct (H12 k data H2) as [H1|H]; [now left|].
  right. eapply blobKeyed_mono; [|exact H]. exact Hc'.
Qed.

Lemma BlobInv_step env w w' : blobStep env w w' -> BlobInv env w -> BlobInv env w'.
Proof.
  intros [Hc Hstep] Hinv k data H. destruct (Hstep k data H) as [H0|H0]; [|exact H0].
  eapply blobKeyed_mono; [exact Hc|]. now apply Hinv.
Qed.

Section BlobKeyProofs.

Variable env : Env.

Lemma blobStep_unchanged w w' : unchanged w w' -> blobStep env w w'.
Proof. intros (Hi & _ & Hc & _). now apply blobStep_same. Qed.

Lemma blobStep_saveRun run w : blobStep env w (snd (saveRun env run w)).
Proof.
  rewrite saveRun_unfold.
  destruct (initDatabase env w) as [r0 w0] eqn:E0.
  apply initDatabase_post in E0 as (Hi0 & Hc0 & _).
  pose proof (blobStep_same env w w0 Hi0 Hc0) as H0.
  destruct r0 as [[]|]; [|exact H0].
  destruct (saveImageDeduped env _ false w0) as [ra w1] eqn:Ea.
  destruct (saveImageDeduped env _ true w1) as [rb w2] eqn:Eb.
  apply saveImageDeduped_dedup_post in Ea as ((_ & _ & _ & Hc1) & Ha & _).
  apply saveImageDeduped_unique_post in Eb as (_ & Hc2 & Hb & _).
  assert (blobStep env w0 w1) as H1.
  { split; [exact Hc1|]. intros k data. destruct ra as [ka|]; [|rewrite Ha; now left].
    destruct Ha as [_ ->]. case_bool_decide; [now left|].
    rewrite lookup_insert. case_decide as Hk; [|now left].
    intros [= <-]. right. left. now symmetry. }
  assert (blobStep env w1 w2) as H2.
  { split; [lia|]. intros k data. destruct rb as [kb|]; [|rewrite Hb; now left].
    destruct Hb as [-> ->]. rewrite lookup_insert. case_decide as Hk; [|now left].
    intros _. right. right. exists (clock w1). split; [exact Hc2|now symmetry]. }
  pose proof (blobStep_trans _ _ _ _ H0 (blobStep_trans _ _ _ _ H1 H2)) as H.
  destruct ra as [ka|]; [|exact H]. destruct rb as [kb|]; [|exact H].
  destruct (db w2) as [d|]; [|exact H].
  cbv zeta. destruct (persistDatabase env _) as [rp w3] eqn:Ep.
  apply persistDatabase_post in Ep as ((Hi3 & _ & _ & Hc3) & _). simpl in Hi3, Hc3.
  eapply blobStep_trans; [exact H|]. now apply blobStep_same.
Qed.

Lemma blobStep_deleteRun i w : blobStep env w (snd (deleteRun env i w)).
Proof.
  destruct (deleteRun_step env i w) as (Hc & [[_ Hi] | (r & _ & _ & Hk)]).
  - now apply blobStep_same.
  - split; [exact Hc|]. intros k data H. left.
    destruct (Hk k) as [E|[E _]]; congruence.
Qed.

Lemma blobStep_runOp op w : blobStep env w (runOp env op w).
Proof.
  destruct op; simpl.
  - now apply blobStep_same.
  - apply blobStep_unchanged, initDatabase_unchanged.
  - apply blobStep_unchanged, persistDatabase_unchanged.
  - apply blobStep_saveRun.
  - apply blobStep_unchanged, getRuns_unchanged.
  - apply blobStep_unchanged, getRunById_unchanged.
  - apply blobStep_unchanged, getRunWithImages_unchanged.
  - apply blobStep_unchanged, loadImage_unchanged.
  - apply blobStep_unchanged, loadImagesForRun_unchanged.
  - destruct (updateRunComment_images env i comment w) as [Hi Hc].
    now apply blobStep_same.
  - apply blobStep_deleteRun.
  - apply (seedSampleDataIfEmpty_keeps env (blobStep env)).
    + apply blobStep_trans.
    + intros w0. apply blobStep_unchanged, getRuns_unchanged.
    + intros w0. apply blobStep_same; simpl; [reflexivity|lia].
    + apply blobStep_saveRun.
Qed.

Lemma BlobInv_reachable w : reachable env w -> BlobInv env w.
Proof.
  induction 1 as [|op w Hr IH].
  - intros k data H. simpl in H. rewrite lookup_empty in H. discriminate H.
  - exact (BlobInv_step env _ _ (blobStep_runOp op w) IH).
Qed.

(** X20.  The object store is content-addressed where it says so: in
    every reachable state each blob sits under its own content key or
    under a unique key that was drawn earlier, so whatever is found under
    a content key has that content key. *)
Theorem reachable_blobs_keyed w k data :
  reachable env w -> images w !! k = Some data ->
  (k = hashImage data
   \/ exists n, (n < clock w)%nat
                /\ k = uniqueKey (dateNow env n) (mathRandom36 env n))
  /\ forall x, k = hashImage x -> hashImage data = k.
Proof.
  intros Hreach H. pose proof (BlobInv_reachable w Hreach k data H) as Hk.
  split; [exact Hk|]. intros x ->.
  destruct Hk as [E|(n & _ & E)]; [now symmetry|].
  exfalso. exact (hashImage_not_uniqueKey _ _ _ E).
Qed.

End BlobKeyProofs.

(** ** The further properties at concrete stores *)

(** X6 for the store with two runs. *)
Lemma reachable_ids_unique_witness :
  reachable quietEnv twoRunsSameInstant
  /\ NoDup (map id (table twoRunsSameInstant))
  /\ (forall r, In r (table twoRunsSameInstant) -> 0 < id r)
  /\ forall l w1 r, getRuns quietEnv twoRunsSameInstant = (Ok l, w1) -> In r l ->
       getRunById quietEnv (id r) w1 = (Ok (Some r), w1).
Proof.
  split; [exact reachable_twoRunsSameInstant|].
  exact (reachable_ids_unique quietEnv twoRunsSameInstant reachable_twoRunsSameInstant).
Defined.

(** X7: a run is saved and gets id 1, it is deleted and the page
    reloaded; the next run saved gets id 2. *)
Lemma saveRun_ids_never_reused_witness :
  reachable quietEnv initialWorld
  /\ saveRun quietEnv firstRun initialWorld = (Ok 1, oneRunStore)
  /\ saveRun quietEnv firstRun emptiedStore
     = (Ok 2, snd (saveRun quietEnv firstRun emptiedStore))
  /\ table emptiedStore = []
  /\ (forall r, In r (table initialWorld) -> id r < 1) /\ 1 < 2.
Proof.
  assert (saveRun quietEnv firstRun initialWorld = (Ok 1, oneRunStore)) as E1
    by (vm_compute; reflexivity).
  assert (saveRun quietEnv firstRun emptiedStore
          = (Ok 2, snd (saveRun quietEnv firstRun emptiedStore))) as E2
    by (vm_compute; reflexivity).
  split; [apply reachable_initial|]. split; [exact E1|]. split; [exact E2|].
  split; [vm_compute; reflexivity|].
  exact (saveRun_ids_never_reused quietEnv firstRun firstRun [OpDeleteRun 1; OpReload]
           initialWorld 1 oneRunStore 2 _ (reachable_initial quietEnv) E1 E2).
Defined.

(** X8 for the first run saved in a fresh profile. *)
Lemma successful_writes_survive_reload_witness :
  saveRun quietEnv firstRun initialWorld = (Ok 1, oneRunStore)
  /\ survivesReload quietEnv oneRunStore.
Proof.
  assert (saveRun quietEnv firstRun initialWorld = (Ok 1, oneRunStore)) as E1
    by (vm_compute; reflexivity).
  split; [exact E1|].
  exact (proj1 (successful_writes_survive_reload quietEnv initialWorld) _ _ _ E1).
Defined.

(** X9 when the SQL engine does not load at the first attempt: the
    handle stays null and the error is kept. *)
Lemma initDatabase_failure_is_kept_witness :
  db initialWorld = None /\ dbInitPromise initialWorld = None
  /\ initDatabase engineFailsOnce initialWorld = (Err SqlJsLoadError, failedInit)
  /\ db failedInit = None
  /\ forall env2,
       match db failedInit with
       | None =>
           initDatabase env2 failedInit = (Err SqlJsLoadError, failedInit)
           /\ getRuns env2 failedInit = (Err SqlJsLoadError, failedInit)
           /\ (forall run, saveRun env2 run failedInit = (Err SqlJsLoadError, failedInit))
           /\ (noFaults env2 (reload failedInit) ->
               isOk (fst (initDatabase env2 (reload failedInit))))
       | Some _ => initDatabase env2 failedInit = (Ok tt, failedInit)
       end.
Proof.
  assert (initDatabase engineFailsOnce initialWorld = (Err SqlJsLoadError, failedInit))
    as E by (vm_compute; reflexivity).
  split; [reflexivity|]. split; [reflexivity|]. split; [exact E|].
  split; [vm_compute; reflexivity|].
  exact (initDatabase_failure_is_kept engineFailsOnce initialWorld SqlJsLoadError
           failedInit eq_refl eq_refl E).
Defined.

(** X10 in the store with two runs, the first of which is deleted. *)
Lemma getRuns_after_deleteRun_witness :
  getRuns quietEnv twoRunsSameInstant
  = (Ok (sqlSelectAllOrdered twoRunsDatabase), twoRunsSameInstant)
  /\ deleteRun quietEnv 1 twoRunsSameInstant = (Ok tt, secondRunLeft)
  /\ getRuns quietEnv secondRunLeft
     = (Ok (List.filter (fun r => negb (id r =? 1)) (sqlSelectAllOrdered twoRunsDatabase)),
        secondRunLeft).
Proof.
  assert (getRuns quietEnv twoRunsSameInstant
          = (Ok (sqlSelectAllOrdered twoRunsDatabase), twoRunsSameInstant)) as Eg
    by (vm_compute; reflexivity).
  assert (deleteRun quietEnv 1 twoRunsSameInstant = (Ok tt, secondRunLeft)) as Ed
    by (vm_compute; reflexivity).
  split; [exact Eg|]. split; [exact Ed|].
  exact (getRuns_after_deleteRun quietEnv 1 _ _ _ _ Eg Ed).
Defined.


(** X12 in the store with two runs. *)
Lemma seedSampleDataIfEmpty_keeps_history_witness :
  table twoRunsSameInstant <> []
  /\ fst (seedSampleDataIfEmpty quietEnv sampleSite twoRunsSameInstant) <> Ok true
  /\ snd (seedSampleDataIfEmpty quietEnv sampleSite twoRunsSameInstant)
     = snd (getRuns quietEnv twoRunsSameInstant)
  /\ images (snd (seedSampleDataIfEmpty quietEnv sampleSite twoRunsSameInstant))
     = images twoRunsSameInstant
  /\ table (snd (seedSampleDataIfEmpty quietEnv sampleSite twoRunsSameInstant))
     = table twoRunsSameInstant.
Proof.
  assert (table twoRunsSameInstant <> []) as Hne by (vm_compute; discriminate).
  split; [exact Hne|].
  exact (seedSampleDataIfEmpty_keeps_history quietEnv sampleSite twoRunsSameInstant Hne).
Defined.

(** X13 in a fresh profile, on a site that serves both images. *)
Lemma seedSampleDataIfEmpty_seeds_one_run_witness :
  seedSampleDataIfEmpty quietEnv sampleSite initialWorld = (Ok true, seededStore)
  /\ table initialWorld = []
  /\ exists row createdAt inputImage outputImage n m,
       fetchedDataUrl sampleSite (BASE_URL sampleSite +:+ "sample/input.png") n
       = Some inputImage
       /\ fetchedDataUrl sampleSite (BASE_URL sampleSite +:+ "sample/output.jpg") m
          = Some outputImage
       /\ table seededStore = [row] /\ snapshotRows seededStore = [row]
       /\ metadataOf (seededRun createdAt inputImage outputImage) row
       /\ inputImageId row = hashImage inputImage
       /\ is_Some (images seededStore !! inputImageId row)
       /\ images seededStore !! outputImageId row = Some outputImage.
Proof.
  assert (seedSampleDataIfEmpty quietEnv sampleSite initialWorld = (Ok true, seededStore))
    as E by (vm_compute; reflexivity).
  split; [exact E|].
  exact (seedSampleDataIfEmpty_seeds_one_run quietEnv sampleSite initialWorld seededStore E).
Defined.

(** X14 in a fresh profile. *)
Lemma seedSampleDataIfEmpty_twice_witness :
  seedSampleDataIfEmpty quietEnv sampleSite initialWorld = (Ok true, seededStore)
  /\ forall env2 site2, seedSampleDataIfEmpty env2 site2 seededStore = (Ok false, seededStore).
Proof.
  assert (seedSampleDataIfEmpty quietEnv sampleSite initialWorld = (Ok true, seededStore))
    as E by (vm_compute; reflexivity).
  split; [exact E|].
  exact (seedSampleDataIfEmpty_twice quietEnv sampleSite initialWorld seededStore E).
Defined.

(** X16 for a data URL with a parameter and a second comma. *)
Lemma requestImageUrl_is_canonical_witness :
  requestImageUrl "data:image/png;charset=x;base64,iVBORw0KGgo=,tail"
  = Some "data:image/png;base64,iVBORw0KGgo="
  /\ requestImageUrl "data:image/png;base64,iVBORw0KGgo="
     = Some "data:image/png;base64,iVBORw0KGgo="
  /\ exists mimeType base64,
       dataUrlToParts "data:image/png;charset=x;base64,iVBORw0KGgo=,tail"
       = Some (mimeType, base64)
       /\ dataUrlToParts "data:image/png;base64,iVBORw0KGgo=" = Some (mimeType, base64).
Proof.
  assert (requestImageUrl "data:image/png;charset=x;base64,iVBORw0KGgo=,tail"
          = Some "data:image/png;base64,iVBORw0KGgo=") as E by (vm_compute; reflexivity).
  split; [exact E|].
  exact (requestImageUrl_is_canonical _ _ E).
Defined.

(** X19 for ["  hello world "] cut at five code units. *)
Lemma summarizeText_bounded_idempotent_witness :
  0 <= 5
  /\ Z.of_nat (length (summarizeText
                        [32; 32; 104; 101; 108; 108; 111; 32; 119; 111; 114; 108; 100; 32]%N
                        5)) <= 5 + 1
  /\ summarizeText
       (summarizeText
          [32; 32; 104; 101; 108; 108; 111; 32; 119; 111; 114; 108; 100; 32]%N 5) 5
     = summarizeText
         [32; 32; 104; 101; 108; 108; 111; 32; 119; 111; 114; 108; 100; 32]%N 5.
Proof.
  assert (0 <= 5) as H by lia.
  split; [exact H|].
  exact (summarizeText_bounded_idempotent
           [32; 32; 104; 101; 108; 108; 111; 32; 119; 111; 114; 108; 100; 32]%N 5 H).
Defined.

(** X20 for the input blob of the store with two runs. *)
Lemma reachable_blobs_keyed_witness :
  reachable quietEnv twoRunsSameInstant
  /\ images twoRunsSameInstant !! "img_cb1ad2119d8fafb6" = Some "AAA"
  /\ ("img_cb1ad2119d8fafb6" = hashImage "AAA"
      \/ exists n, (n < clock twoRunsSameInstant)%nat
                   /\ "img_cb1ad2119d8fafb6"
                      = uniqueKey (dateNow quietEnv n) (mathRandom36 quietEnv n))
  /\ forall x, "img_cb1ad2119d8fafb6" = hashImage x
               -> hashImage "AAA" = "img_cb1ad2119d8fafb6".
Proof.
  assert (images twoRunsSameInstant !! "img_cb1ad2119d8fafb6" = Some "AAA") as H
    by (vm_compute; reflexivity).
  split; [exact reachable_twoRunsSameInstant|]. split; [exact H|].
  exact (reachable_blobs_keyed quietEnv twoRunsSameInstant _ _
           reachable_twoRunsSameInstant H).
Defined.

(** ** A [saveRun] that fails *)

Section SaveFailure.

Variable env : Env.

(** X21.  What a failed [saveRun] leaves on an opened store.  Either a
    blob write failed, and then table and snapshot are as they were; or
    the flush failed, and then a new row is in the table of the page, with
    its blobs stored, but not in the snapshot; the row carries the
    metadata of the call when the text columns of the call are well-formed.
    In both cases a reload of the page shows the table of the snapshot from
    before the call. *)
Theorem saveRun_failure_effect run w d e w' :
  db w = Some d -> saveRun env run w = (Err e, w') ->
  ((table w' = table w /\ sqlite w' = sqlite w)
   \/ exists row,
        table w' = table w ++ [row] /\ (wellFormedRun run -> metadataOf run row)
        /\ sqlite w' = sqlite w
        /\ is_Some (images w' !! inputImageId row)
        /\ images w' !! outputImageId row = Some (ri_outputImage run))
  /\ table (reload w') = snapshotRows w.
Proof.
  intros Hd E.
  assert (table (reload w') = snapshotRows w' ) as Hreload by reflexivity.
  rewrite Hreload. clear Hreload.
  rewrite saveRun_unfold, (initDatabase_ready _ _ _ Hd) in E.
  destruct (saveImageDeduped env _ false w) as [ra w1] eqn:Ea.
  destruct (saveImageDeduped env _ true w1) as [rb w2] eqn:Eb.
  apply saveImageDeduped_dedup_post in Ea as ((Hsq1 & Hd1 & _) & Ha & _).
  apply saveImageDeduped_unique_post in Eb as ((Hsq2 & Hd2 & _) & _ & Hb & _).
  assert (sqlite w2 = sqlite w) as Hsq by congruence.
  assert (db w2 = Some d) as Hdb by congruence.
  assert (table w2 = table w) as Ht
    by (rewrite (table_open _ _ Hdb), (table_open _ _ Hd); reflexivity).
  assert (w' = w2 ->
            ((table w' = table w /\ sqlite w' = sqlite w)
             \/ exists row,
                  table w' = table w ++ [row] /\ (wellFormedRun run -> metadataOf run row)
                  /\ sqlite w' = sqlite w
                  /\ is_Some (images w' !! inputImageId row)
                  /\ images w' !! outputImageId row = Some (ri_outputImage run))
            /\ snapshotRows w' = snapshotRows w) as Hsame.
  { intros ->. split; [now left|]. now apply snapshotRows_sqlite. }
  destruct ra as [inputId|ea]; [|injection E as _ <-; now apply Hsame].
  destruct rb as [outputId|eb]; [|injection E as _ <-; now apply Hsame].
  rewrite Hdb in E. cbv zeta in E.
  destruct (persistDatabase env _) as [rp w3] eqn:Ep.
  destruct rp as [[]|e3]; [discriminate|]. injection E as -> ->.
  apply persistDatabase_post in Ep as ((Hi3 & Hd3 & _) & Hs3 & _).
  simpl in Hi3, Hd3, Hs3.
  destruct Ha as [-> Ha], Hb as [-> Hb].
  split; [|apply snapshotRows_sqlite; congruence].
  right. eexists. split.
  { rewrite (table_open _ _ Hd3), (table_open _ _ Hd). reflexivity. }
  split; [intros _; unfold metadataOf; simpl; repeat split|].
  split; [congruence|]. simpl. rewrite Hi3, Hb. split.
  - rewrite lookup_insert. case_decide; [eauto|]. rewrite Ha.
    case_bool_decide; [assumption|]. rewrite lookup_insert_eq. eauto.
  - apply lookup_insert_eq.
Qed.

End SaveFailure.

(** X21 when the flush of the first [saveRun] fails. *)
Lemma saveRun_failure_effect_witness :
  db openedFault12 = Some emptyDatabase
  /\ saveRun (faultAt 12) firstRun openedFault12
     = (Err IDBRequestError, snd (saveRun (faultAt 12) firstRun openedFault12))
  /\ length (table (snd (saveRun (faultAt 12) firstRun openedFault12))) = 1%nat
  /\ table (reload (snd (saveRun (faultAt 12) firstRun openedFault12)))
     = snapshotRows openedFault12.
Proof.
  assert (db openedFault12 = Some emptyDatabase) as Hd by (vm_compute; reflexivity).
  assert (saveRun (faultAt 12) firstRun openedFault12
          = (Err IDBRequestError, snd (saveRun (faultAt 12) firstRun openedFault12)))
    as E by (vm_compute; reflexivity).
  split; [exact Hd|]. split; [exact E|]. split; [vm_compute; reflexivity|].
  exact (proj2 (saveRun_failure_effect (faultAt 12) firstRun openedFault12 emptyDatabase
                  IDBRequestError _ Hd E)).
Defined.
